(** * MarkdownHighlighter: a shallow embedding of markdownhighlighter.cpp

    The highlighter is a QSyntaxHighlighter subclass.  Its state is the
    per-category format table [_formats], the queue [_dirtyTextBlocks], the
    flag [_highlightingFinished], and (through Qt) the document's blocks with
    their integer user states and the formats painted on the current block.
    Every C++ method becomes a function on that state.  An [int] is a [Z]:
    the offsets and lengths of a line stay far below the range of [int]. *)

From Stdlib Require Import ZArith List String Ascii Bool Lia QArith.
From stdpp Require Import base list.
Import ListNotations.
Local Open Scope Z_scope.

(** ** Text *)

(** A QString is a sequence of QChar.  The development works on 8-bit
    characters; [isLetter] and [isNumber] are QChar's classifications on the
    ASCII range. *)
Definition QChar := ascii.
Definition QString := list QChar.

Definition qs (s : string) : QString := list_ascii_of_string s.

Definition dquote : QChar := ascii_of_nat 34.
Definition squote : QChar := ascii_of_nat 39.

Definition qlength (t : QString) : Z := Z.of_nat (length t).

(** [text.at(i)] / [text[i]]: the access is only defined inside the string;
    [None] records an access outside of it. *)
Definition at_ (t : QString) (i : Z) : option QChar :=
  if (0 <=? i) && (i <? qlength t) then nth_error t (Z.to_nat i) else None.

Definition qchar_eqb (a b : QChar) : bool := Ascii.eqb a b.

Fixpoint qstring_eqb (a b : QString) : bool :=
  match a, b with
  | [], [] => true
  | x :: a', y :: b' => qchar_eqb x y && qstring_eqb a' b'
  | _, _ => false
  end.

Fixpoint startsWith (t p : QString) {struct p} : bool :=
  match p, t with
  | [], _ => true
  | c :: p', d :: t' => qchar_eqb c d && startsWith t' p'
  | _ :: _, [] => false
  end.

Fixpoint contains (t p : QString) : bool :=
  startsWith t p ||
  match t with
  | [] => false
  | _ :: t' => contains t' p
  end.

Definition endsWith (t p : QString) : bool := startsWith (rev t) (rev p).

(** [text.midRef(pos, n)] for [0 <= pos]: at most [n] characters from [pos]. *)
Definition midRef (t : QString) (pos n : Z) : QString :=
  firstn (Z.to_nat n) (skipn (Z.to_nat pos) t).

(** [text.indexOf(p)], [-1] when [p] does not occur. *)
Fixpoint indexOf_from (t p : QString) (k : Z) : Z :=
  if startsWith t p then k
  else match t with
       | [] => -1
       | _ :: t' => indexOf_from t' p (k + 1)
       end.
Definition indexOf (t p : QString) : Z := indexOf_from t p 0.

Definition isLetter (c : QChar) : bool :=
  let n := nat_of_ascii c in
  ((65 <=? n) && (n <=? 90) || (97 <=? n) && (n <=? 122))%nat.

Definition isNumber (c : QChar) : bool :=
  let n := nat_of_ascii c in ((48 <=? n) && (n <=? 57))%nat.

Definition isSpace (c : QChar) : bool :=
  let n := nat_of_ascii c in ((n =? 32) || (9 <=? n) && (n <=? 13))%nat.

Fixpoint trimLeft (t : QString) : QString :=
  match t with
  | c :: t' => if isSpace c then trimLeft t' else t
  | [] => []
  end.

(** [text.trimmed()] *)
Definition trimmed (t : QString) : QString := rev (trimLeft (rev (trimLeft t))).

(** ** Categories *)

Inductive HighlighterState :=
| NoState | Link | Image | CodeBlock | Italic | Bold | List | Comment
| H1 | H2 | H3 | H4 | H5 | H6 | BlockQuote | HorizontalRuler | Table
| InlineCodeBlock | MaskedSyntax | CurrentLineBackgroundColor | BrokenLink
| FrontmatterBlock | TrailingSpace
| CodeBlockEnd | HeadlineEnd | FrontmatterBlockEnd
| CodeCpp | CodeJs.

(** Modelled from the spec: the enumerators' integer values are declared in
    markdownhighlighter.h, which is not part of the source file.  The spec
    fixes that the heading levels are consecutive, that [NoState] is the state
    of a line nothing was recorded for (Qt's -1), and that the categories of
    the embedded languages sit at or above a reserved threshold (the [200] the
    code compares with) while every other category is below it. *)
Definition code (s : HighlighterState) : Z :=
  match s with
  | NoState => -1 | Link => 0 | Image => 3 | CodeBlock => 4 | Italic => 7
  | Bold => 8 | List => 9 | Comment => 11
  | H1 => 12 | H2 => 13 | H3 => 14 | H4 => 15 | H5 => 16 | H6 => 17
  | BlockQuote => 18 | HorizontalRuler => 21 | Table => 22
  | InlineCodeBlock => 23 | MaskedSyntax => 24
  | CurrentLineBackgroundColor => 25 | BrokenLink => 26
  | FrontmatterBlock => 27 | TrailingSpace => 28
  | CodeBlockEnd => 100 | HeadlineEnd => 101 | FrontmatterBlockEnd => 102
  | CodeCpp => 200 | CodeJs => 201
  end.

Coercion code : HighlighterState >-> Z.

(** ** Formats *)

Inductive QColor :=
| Rgb (r g b : Z)
| Named (name : string).

Definition qcolor_eqb (a b : QColor) : bool :=
  match a, b with
  | Rgb r g b, Rgb r' g' b' => (r =? r') && (g =? g') && (b =? b')
  | Named n, Named n' => String.eqb n n'
  | _, _ => false
  end.

(** A QTextCharFormat is a set of properties, each one set or not. *)
Record QTextCharFormat := mkFormat {
  foreground : option QColor;
  background : option QColor;
  fontWeightP : option Z;
  fontItalicP : option bool;
  fontUnderlineP : option bool;
  fontPointSizeP : option Q;
  fontFamilyP : option string
}.

Definition emptyFormat : QTextCharFormat :=
  mkFormat None None None None None None None.

Definition fontPointSize (f : QTextCharFormat) : Q :=
  match fontPointSizeP f with Some p => p | None => 0%Q end.

Definition setFontPointSize (f : QTextCharFormat) (p : Q) : QTextCharFormat :=
  mkFormat (foreground f) (background f) (fontWeightP f) (fontItalicP f)
           (fontUnderlineP f) (Some p) (fontFamilyP f).

Definition setForeground (f : QTextCharFormat) (c : QColor) : QTextCharFormat :=
  mkFormat (Some c) (background f) (fontWeightP f) (fontItalicP f)
           (fontUnderlineP f) (fontPointSizeP f) (fontFamilyP f).

Definition setBackground (f : QTextCharFormat) (c : QColor) : QTextCharFormat :=
  mkFormat (foreground f) (Some c) (fontWeightP f) (fontItalicP f)
           (fontUnderlineP f) (fontPointSizeP f) (fontFamilyP f).

Definition setFontWeight (f : QTextCharFormat) (w : Z) : QTextCharFormat :=
  mkFormat (foreground f) (background f) (Some w) (fontItalicP f)
           (fontUnderlineP f) (fontPointSizeP f) (fontFamilyP f).

Definition setFontItalic (f : QTextCharFormat) (b : bool) : QTextCharFormat :=
  mkFormat (foreground f) (background f) (fontWeightP f) (Some b)
           (fontUnderlineP f) (fontPointSizeP f) (fontFamilyP f).

Definition setFontUnderline (f : QTextCharFormat) (b : bool) : QTextCharFormat :=
  mkFormat (foreground f) (background f) (fontWeightP f) (fontItalicP f)
           (Some b) (fontPointSizeP f) (fontFamilyP f).

(** The font the platform returns for [QFontDatabase::FixedFont]. *)
Record QFont := mkFont { family : string; pointSizeF : Q }.

(** [setFont] copies the font's properties into the format; the point size
    only when the font has one. *)
Definition setFont (f : QTextCharFormat) (fn : QFont) : QTextCharFormat :=
  mkFormat (foreground f) (background f) (Some 50) (Some false) (Some false)
           (if Qle_bool (pointSizeF fn) 0 then fontPointSizeP f
            else Some (pointSizeF fn))
           (Some (family fn)).

Definition opt_eqb {A} (e : A -> A -> bool) (a b : option A) : bool :=
  match a, b with
  | Some x, Some y => e x y
  | None, None => true
  | _, _ => false
  end.

(** [operator==] on formats: the same properties with the same values. *)
Definition format_eqb (a b : QTextCharFormat) : bool :=
  opt_eqb qcolor_eqb (foreground a) (foreground b) &&
  opt_eqb qcolor_eqb (background a) (background b) &&
  opt_eqb Z.eqb (fontWeightP a) (fontWeightP b) &&
  opt_eqb Bool.eqb (fontItalicP a) (fontItalicP b) &&
  opt_eqb Bool.eqb (fontUnderlineP a) (fontUnderlineP b) &&
  opt_eqb Qeq_bool (fontPointSizeP a) (fontPointSizeP b) &&
  opt_eqb String.eqb (fontFamilyP a) (fontFamilyP b).

(** The format table: [_formats[k]] of a QHash yields a default-constructed
    format for a key that was never set, so the table is a total function of
    the enumerator's integer. *)
Definition Formats := Z -> QTextCharFormat.

Definition setTextFormat (fs : Formats) (k : Z) (f : QTextCharFormat) : Formats :=
  fun j => if j =? k then f else fs j.

(** ** Patterns and rules *)

(** The fragment of the pattern language the rule table is written in.
    Capturing groups carry their number. *)
Inductive ClassItem :=
| IChar (c : QChar)
| ISpace                      (* \s inside a class *)
| IBackspace.                 (* \b inside a class is the backspace character *)

Inductive regex :=
| REps
| RChar (c : QChar)
| RAny                                        (* .  *)
| RClass (negated : bool) (items : list ClassItem)
| RSpace | RNonSpace | RWord | RDigit         (* \s \S \w \d *)
| RBol | REol                                 (* ^ $ *)
| RWordB | RNotWordB                          (* \b \B *)
| RSeq (r1 r2 : regex)
| RAlt (r1 r2 : regex)
| RRepeat (greedy : bool) (lo : nat) (hi : option nat) (r : regex)
| RGroup (n : nat) (r : regex).

(** A QRegularExpression: the pattern as the source writes it, and the
    pattern read as a term. *)
Record QRegularExpression := mkRegex { patternText : string; compiled : regex }.

(** A QRegularExpressionMatch: the whole match and the groups that took
    part, as (start, end) offsets. *)
Record QRegularExpressionMatch := mkMatch {
  whole : Z * Z;
  groups : list (nat * (Z * Z))
}.

Fixpoint lookupGroup (gs : list (nat * (Z * Z))) (n : nat) : option (Z * Z) :=
  match gs with
  | [] => None
  | (k, se) :: gs' => if Nat.eqb k n then Some se else lookupGroup gs' n
  end.

Definition capturedRange (m : QRegularExpressionMatch) (n : Z) : option (Z * Z) :=
  if n =? 0 then Some (whole m)
  else if n <? 0 then None
  else lookupGroup (groups m) (Z.to_nat n).

(** [capturedStart(n)] is [-1] and [capturedLength(n)] is [0] for a group that
    did not capture. *)
Definition capturedStart (m : QRegularExpressionMatch) (n : Z) : Z :=
  match capturedRange m n with Some (s, _) => s | None => -1 end.

Definition capturedLength (m : QRegularExpressionMatch) (n : Z) : Z :=
  match capturedRange m n with Some (s, e) => e - s | None => 0 end.

(** Modelled from the spec: the HighlightingRule struct is declared in
    markdownhighlighter.h, which is not part of the source file; its members
    are the ones the source file reads and writes.  A rule the source does
    not give a group to uses group [0], the whole match (the comment in
    [highlightAdditionalRules]: first highlight everything as MaskedSyntax),
    and has both flags off. *)
Record HighlightingRule := mkRule {
  pattern : QRegularExpression;
  state : HighlighterState;
  capturingGroup : Z;
  maskedGroup : Z;
  useStateAsCurrentBlockState : bool;
  disableIfCurrentStateIsSet : bool
}.

(** ** Blocks, spans and the highlighter *)

Record QTextBlock := mkBlock { text : QString; userState : Z }.

(** One call of [setFormat(start, count, format)]. *)
Record Span := mkSpan { sp_start : Z; sp_count : Z; sp_format : QTextCharFormat }.

Record MarkdownHighlighter := mkHL {
  _highlightingRulesPre : list HighlightingRule;
  _highlightingRulesAfter : list HighlightingRule;
  _formats : Formats;
  _dirtyTextBlocks : list nat;
  _highlightingFinished : bool;
  document : list QTextBlock;
  currentBlock : nat;
  formatChanges : list Span;     (* the calls of setFormat on the current block *)
  highlighted : list nat         (* the blocks highlightBlock ran on, oldest first *)
}.

(** *** What QSyntaxHighlighter and QTextBlock provide *)

Definition blockAt (hl : MarkdownHighlighter) (n : nat) : option QTextBlock :=
  document hl !! n.

(** [block.text()]; an invalid block has the empty text. *)
Definition blockText (hl : MarkdownHighlighter) (n : option nat) : QString :=
  match n with
  | Some k => match blockAt hl k with Some b => text b | None => [] end
  | None => []
  end.

(** [block.userState()]; [-1] for an invalid block. *)
Definition blockState (hl : MarkdownHighlighter) (n : option nat) : Z :=
  match n with
  | Some k => match blockAt hl k with Some b => userState b | None => -1 end
  | None => -1
  end.

(** [currentBlock().previous()] and [currentBlock().next()] *)
Definition previousBlock (hl : MarkdownHighlighter) : option nat :=
  match currentBlock hl with
  | O => None
  | S k => Some k
  end.

Definition nextBlock (hl : MarkdownHighlighter) : option nat :=
  if decide (S (currentBlock hl) < length (document hl))%nat
  then Some (S (currentBlock hl)) else None.

Definition currentBlockState (hl : MarkdownHighlighter) : Z :=
  blockState hl (Some (currentBlock hl)).

Definition previousBlockState (hl : MarkdownHighlighter) : Z :=
  blockState hl (previousBlock hl).

Definition withDocument (hl : MarkdownHighlighter) (d : list QTextBlock) :=
  mkHL (_highlightingRulesPre hl) (_highlightingRulesAfter hl)
       (_formats hl) (_dirtyTextBlocks hl) (_highlightingFinished hl) d
       (currentBlock hl) (formatChanges hl) (highlighted hl).

(** [block.setUserState(s)]; nothing happens on an invalid block. *)
Definition setUserState (hl : MarkdownHighlighter) (n : option nat) (s : Z)
  : MarkdownHighlighter :=
  match n with
  | Some k =>
      match blockAt hl k with
      | Some b => withDocument hl (<[k := mkBlock (text b) s]> (document hl))
      | None => hl
      end
  | None => hl
  end.

Definition setCurrentBlockState (hl : MarkdownHighlighter) (s : Z) :=
  setUserState hl (Some (currentBlock hl)) s.

(** [setFormat(start, count, format)]: the call is recorded as it is made. *)
Definition emit (out : list Span) (start count : Z) (f : QTextCharFormat)
  : list Span :=
  out ++ [mkSpan start count f].

Definition withFormatChanges (hl : MarkdownHighlighter) (out : list Span) :=
  mkHL (_highlightingRulesPre hl) (_highlightingRulesAfter hl)
       (_formats hl) (_dirtyTextBlocks hl) (_highlightingFinished hl)
       (document hl) (currentBlock hl) out (highlighted hl).

Definition setFormat (hl : MarkdownHighlighter) (start count : Z)
           (f : QTextCharFormat) : MarkdownHighlighter :=
  withFormatChanges hl (emit (formatChanges hl) start count f).

(** What the recorded calls leave on character [i] of a line of length [len]:
    Qt ignores a call whose start is outside the line, clips the others to
    the line, and the last call that covers a character wins. *)
Definition covers (len : Z) (s : Span) (i : Z) : bool :=
  (0 <=? sp_start s) && (sp_start s <? len) &&
  (sp_start s <=? i) && (i <? sp_start s + sp_count s) && (i <? len).

Definition formatAt (len : Z) (spans : list Span) (i : Z) : QTextCharFormat :=
  fold_left (fun acc s => if covers len s i then sp_format s else acc)
            spans emptyFormat.

Definition withFormats (hl : MarkdownHighlighter) (fs : Formats) :=
  mkHL (_highlightingRulesPre hl) (_highlightingRulesAfter hl)
       fs (_dirtyTextBlocks hl) (_highlightingFinished hl) (document hl)
       (currentBlock hl) (formatChanges hl) (highlighted hl).

Definition withDirty (hl : MarkdownHighlighter) (q : list nat) :=
  mkHL (_highlightingRulesPre hl) (_highlightingRulesAfter hl)
       (_formats hl) q (_highlightingFinished hl) (document hl)
       (currentBlock hl) (formatChanges hl) (highlighted hl).

(** *** The dirty queue *)

Definition containsBlock (q : list nat) (n : nat) : bool :=
  existsb (Nat.eqb n) q.

(** Adds a dirty block to the list if it doesn't already exist. *)
Definition addDirtyBlock (hl : MarkdownHighlighter) (n : nat) : MarkdownHighlighter :=
  if negb (containsBlock (_dirtyTextBlocks hl) n)
  then withDirty hl (_dirtyTextBlocks hl ++ [n])
  else hl.

Definition clearDirtyBlocks (hl : MarkdownHighlighter) : MarkdownHighlighter :=
  withDirty hl [].

(** *** Headlines *)

Definition hash : QChar := "#"%char.

Definition headingFound (t : QString) : bool :=
  startsWith t (qs "# ") || startsWith t (qs "## ") ||
  startsWith t (qs "### ") || startsWith t (qs "#### ") ||
  startsWith t (qs "##### ") || startsWith t (qs "###### ").

(** The loop over the first six characters that counts the [#] among them. *)
Fixpoint countHashes (t : QString) (len : nat) : Z :=
  match len, t with
  | S n, c :: t' => (if qchar_eqb c hash then 1 else 0) + countHashes t' n
  | _, _ => 0
  end.

Definition hasOnlyHeadChars (t : QString) (c : QChar) : bool :=
  match t with
  | [] => false
  | _ => forallb (fun x => qchar_eqb x c) t
  end.

(** The branch shared by the [====] and the [----] underline: [level] is H1
    or H2.  [setCurrentBlockMargin] returns at its first statement, here and
    in the branch of the hashes, and is left out. *)
Definition underline (hl : MarkdownHighlighter) (t : QString)
           (level : HighlighterState) : MarkdownHighlighter :=
  let previousText := blockText hl (previousBlock hl) in
  if ((previousBlockState hl =? level) || (previousBlockState hl =? NoState))
     && (0 <? qlength previousText)
  then
    let currentMaskedFormat :=
      setFontPointSize (_formats hl MaskedSyntax)
                       (fontPointSize (_formats hl level)) in
    let hl := setFormat hl 0 (qlength t) currentMaskedFormat in
    let hl := setCurrentBlockState hl HeadlineEnd in
    let hl := setUserState hl (previousBlock hl) level in
    match previousBlock hl with
    | Some p => addDirtyBlock hl p
    | None => hl
    end
  else hl.

Definition highlightHeadline (hl : MarkdownHighlighter) (t : QString)
  : MarkdownHighlighter :=
  if headingFound t then
    let len := if 6 <? qlength t then 6 else qlength t in
    let count := countHashes t (Z.to_nat len) in
    let state := H1 + count - 1 in
    let currentMaskedFormat :=
      setFontPointSize (_formats hl MaskedSyntax)
                       (fontPointSize (_formats hl state)) in
    let hl := setFormat hl 0 (qlength t) currentMaskedFormat in
    let length := qlength t - count in
    let hl := setFormat hl count length (_formats hl state) in
    setCurrentBlockState hl state
  else if hasOnlyHeadChars t "="%char then underline hl t H1
  else if hasOnlyHeadChars t "-"%char then underline hl t H2
  else
    let nextBlockText := blockText hl (nextBlock hl) in
    let hl :=
      if hasOnlyHeadChars nextBlockText "="%char
      then setCurrentBlockState (setFormat hl 0 (qlength t) (_formats hl H1)) H1
      else hl in
    if hasOnlyHeadChars nextBlockText "-"%char
    then setCurrentBlockState (setFormat hl 0 (qlength t) (_formats hl H2)) H2
    else hl.

(** *** Multi-line comments *)

Definition highlightCommentBlock (hl : MarkdownHighlighter) (t0 : QString)
  : MarkdownHighlighter :=
  let t := trimmed t0 in
  let startText := qs "<!--" in
  let endText := qs "-->" in
  if startsWith t startText && contains t endText then hl
  else
    let '(hl, highlight) :=
      if startsWith t startText ||
         (negb (endsWith t endText) && (previousBlockState hl =? Comment))
      then (setCurrentBlockState hl Comment, true)
      else if endsWith t endText then (hl, true)
      else (hl, false) in
    if highlight : bool then setFormat hl 0 (qlength t) (_formats hl Comment)
    else hl.

(** *** The scanner of embedded languages *)

(** The outcome of code that indexes into the text: a value, an access
    outside of the text, or a loop that was cut short. *)
Inductive Outcome (A : Type) :=
| Ok (a : A)
| OutOfRange
| OutOfFuel.
Arguments Ok {A} a.
Arguments OutOfRange {A}.
Arguments OutOfFuel {A}.

Definition cppTypes : list QString :=
  map qs ["QString"; "QList"; "QVector"; "QHash"; "QMap";
          "int"; "float"; "string"; "double"; "long"; "vector";
          "short"; "char"; "void"; "bool"; "wchar_t";
          "class"; "struct"; "union"; "enum"]%string.

(** ["auto" "asm "] are adjacent literals in the source: one entry. *)
Definition cppKeywords : list QString :=
  map qs ["while"; "if"; "for"; "do"; "return"; "else"; "switch";
          "case"; "break"; "continue";
          "namespace"; "using";
          "unsigned"; "const"; "static"; "mutable"; "autoasm "; "volatile";
          "static_cast"; "dynamic_cast"; "reinterpret_cast"; "const_cast";
          "nullptr";
          "public"; "private"; "protected"; "signal"; "slot";
          "new"; "delete"; "operator"; "template"; "this";
          "false"; "true"; "explicit "; "sizeof";
          "try"; "catch"; "throw"]%string.

Definition cppPreproc : list QString :=
  map qs ["ifndef"; "ifdef"; "include"; "define"; "endif"]%string.

Definition darkGray := Named "darkGray".
Definition darkYellow := Named "darkYellow".
Definition darkGreen := Named "darkGreen".
Definition darkBlue := Named "darkBlue".
Definition cyan := Named "cyan".
Definition magenta := Named "magenta".

(** The loop that runs to the closing double quote.  It yields [i] and [cnt]
    as they are when the loop is left. *)
Fixpoint dquoteLoop (fuel : nat) (t : QString) (i cnt : Z) : Outcome (Z * Z) :=
  match fuel with
  | O => OutOfFuel
  | S n =>
      if i <? qlength t then
        match at_ t i with
        | None => OutOfRange
        | Some c =>
            if qchar_eqb c dquote then Ok (i + 1, cnt + 1)
            else
              let i := i + 1 in
              let cnt := cnt + 1 in
              if qlength t <=? i + 1 then Ok (i, cnt + 1)
              else dquoteLoop n t i cnt
        end
      else Ok (i, cnt)
  end.

(** The same for a single quote; here the bound is checked before the step. *)
Fixpoint squoteLoop (fuel : nat) (t : QString) (i cnt : Z) : Outcome (Z * Z) :=
  match fuel with
  | O => OutOfFuel
  | S n =>
      if i <? qlength t then
        match at_ t i with
        | None => OutOfRange
        | Some c =>
            if qchar_eqb c squote then Ok (i + 1, cnt + 1)
            else if qlength t <=? i + 1 then Ok (i, cnt + 1)
            else squoteLoop n t (i + 1) (cnt + 1)
        end
      else Ok (i, cnt)
  end.

(** How the [while (!text[i].isLetter())] loop is left: at a letter, with the
    loop variable, the working format and the calls of [setFormat] so far; or by
    [return]. *)
Inductive WhileExit :=
| AtLetter (i : Z) (f : QTextCharFormat) (out : list Span)
| Returned (out : list Span).

(** The branch [else if (text[i] == '/' && text[i+1] == '*')] of the source
    comes after [if (text[i] == '/')] in the same chain, so it is never
    entered and [text[i+1]] is never read there. *)
Fixpoint whileNotLetter (fuel : nat) (t : QString) (i : Z)
         (f : QTextCharFormat) (out : list Span) : Outcome WhileExit :=
  match fuel with
  | O => OutOfFuel
  | S n =>
      let len := qlength t in
      let rest (i : Z) (f : QTextCharFormat) (out : list Span) :=
        if len <=? i + 1 then Ok (Returned out)
        else whileNotLetter n t (i + 1) f out in
      match at_ t i with
      | None => OutOfRange
      | Some c =>
          if isLetter c then Ok (AtLetter i f out)
          else if qchar_eqb c "/"%char then
            if i + 1 <? len then
              match at_ t (i + 1) with
              | None => OutOfRange
              | Some d =>
                  if qchar_eqb d "/"%char then
                    let f := setForeground f darkGray in
                    Ok (Returned (emit out i len f))
                  else if qchar_eqb d "*"%char then
                    let next := indexOf t (qs "*/") in
                    let f := setForeground f darkGray in
                    if next =? -1 then Ok (Returned (emit out i len f))
                    else
                      let next := next + 2 in
                      Ok (Returned (emit out i (next - i) f))
                  else Ok (Returned out)
              end
            else Ok (Returned out)
          else if isNumber c then
            let paint (_ : unit) :=
              let f := setForeground f darkYellow in
              rest i f (emit out i 1 f) in
            if (i + 1 <? len) && (0 <? i - 1) then
              match at_ t (i + 1) with
              | None => OutOfRange
              | Some a =>
                  if isLetter a then whileNotLetter n t (i + 1) f out
                  else
                    match at_ t (i - 1) with
                    | None => OutOfRange
                    | Some b =>
                        if isLetter b then whileNotLetter n t (i + 1) f out
                        else paint tt
                    end
              end
            else paint tt
          else if qchar_eqb c dquote then
            let pos := i in
            let f := setForeground f darkGreen in
            let i := i + 1 in
            if len <=? i + 1 then Ok (Returned out)
            else
              match dquoteLoop (length t) t i 1 with
              | Ok (i, cnt) => rest i f (emit out pos cnt f)
              | OutOfRange => OutOfRange
              | OutOfFuel => OutOfFuel
              end
          else if qchar_eqb c squote then
            let pos := i in
            let f := setForeground f darkGreen in
            let i := i + 1 in
            if len <=? i + 1 then Ok (Returned out)
            else
              match squoteLoop (length t) t i 1 with
              | Ok (i, cnt) => rest i f (emit out pos cnt f)
              | OutOfRange => OutOfRange
              | OutOfFuel => OutOfFuel
              end
          else rest i f out
      end
  end.

(** One of the three loops over a token table.  A hit paints the token in
    [color] and moves [i] past it, and the loop goes on with the next entry. *)
Fixpoint tokenLoop (toks : list QString) (color : QColor) (t : QString)
         (i : Z) (f : QTextCharFormat) (out : list Span)
  : Outcome (Z * QTextCharFormat * list Span) :=
  match toks with
  | [] => Ok (i, f, out)
  | tk :: toks' =>
      let n := qlength tk in
      let paint (_ : unit) :=
        let f := setForeground f color in
        tokenLoop toks' color t (i + n) f (emit out i n f) in
      if qstring_eqb tk (midRef t i n) then
        if (i + n <? qlength t) && (0 <? i) then
          match at_ t (i + n) with
          | None => OutOfRange
          | Some a =>
              if isLetter a then tokenLoop toks' color t i f out
              else
                match at_ t (i - 1) with
                | None => OutOfRange
                | Some b =>
                    if isLetter b then tokenLoop toks' color t i f out
                    else paint tt
                end
          end
        else paint tt
      else tokenLoop toks' color t i f out
  end.

Definition bindO {A B} (o : Outcome A) (k : A -> Outcome B) : Outcome B :=
  match o with
  | Ok a => k a
  | OutOfRange => OutOfRange
  | OutOfFuel => OutOfFuel
  end.

Fixpoint forLoop (fuel : nat) (types keywords preproc : list QString)
         (t : QString) (i : Z) (f : QTextCharFormat) (out : list Span)
  : Outcome (list Span) :=
  match fuel with
  | O => OutOfFuel
  | S n =>
      if i <? qlength t then
        bindO (whileNotLetter (length t) t i f out) (fun e =>
          match e with
          | Returned out => Ok out
          | AtLetter i f out =>
              bindO (tokenLoop types darkBlue t i f out) (fun '(i, f, out) =>
              bindO (tokenLoop keywords cyan t i f out) (fun '(i, f, out) =>
              bindO (tokenLoop preproc magenta t i f out) (fun '(i, f, out) =>
              forLoop n types keywords preproc t (i + 1) f out)))
          end)
      else Ok out
  end.

(** [highlightSyntax] with every index access checked.  The scanner acts on
    the highlighter through [setFormat] only: the loops above carry the list
    of the calls made so far. *)
Definition highlightSyntaxChecked (hl : MarkdownHighlighter) (t : QString)
  : Outcome MarkdownHighlighter :=
  match t with
  | [] => Ok hl
  | _ =>
      let '(types, keywords, preproc) :=
        if currentBlockState hl =? CodeCpp
        then (cppTypes, cppKeywords, cppPreproc)
        else ([], [], []) in
      let f := _formats hl CodeBlock in
      let out := emit (formatChanges hl) 0 (qlength t) f in
      bindO (forLoop (S (length t)) types keywords preproc t 0 f out)
            (fun out => Ok (withFormatChanges hl out))
  end.

(** Does the code syntax highlighting. *)
Definition highlightSyntax (hl : MarkdownHighlighter) (t : QString)
  : MarkdownHighlighter :=
  match highlightSyntaxChecked hl t with
  | Ok hl' => hl'
  | _ => hl
  end.

(** *** Multi-line code blocks *)

Definition fence : QString := qs "```".

Definition highlightCodeBlock (hl : MarkdownHighlighter) (t : QString)
  : MarkdownHighlighter :=
  if startsWith t fence then
    let hl :=
      if negb (previousBlockState hl =? CodeBlock) && (previousBlockState hl <? 200)
      then
        let lang := midRef t 3 (qlength t) in
        if qstring_eqb lang (qs "cpp") then setCurrentBlockState hl CodeCpp
        else if qstring_eqb lang (qs "js") then setCurrentBlockState hl CodeJs
        else if qstring_eqb t fence then setCurrentBlockState hl CodeBlock
        else setCurrentBlockState hl CodeBlock
      else if (previousBlockState hl =? CodeBlock) || (200 <=? previousBlockState hl)
      then setCurrentBlockState hl CodeBlockEnd
      else hl in
    (* [maskedFormat] is a reference into the table: the table entry changes *)
    let maskedFormat :=
      setFontPointSize (_formats hl MaskedSyntax)
                       (fontPointSize (_formats hl CodeBlock)) in
    let hl := withFormats hl (setTextFormat (_formats hl) MaskedSyntax maskedFormat) in
    setFormat hl 0 (qlength t) maskedFormat
  else if (previousBlockState hl =? CodeBlock) || (previousBlockState hl =? CodeCpp)
  then
    if previousBlockState hl =? CodeCpp then
      highlightSyntax (setCurrentBlockState hl CodeCpp) t
    else if previousBlockState hl =? CodeJs then
      highlightSyntax (setCurrentBlockState hl CodeJs) t
    else
      setCurrentBlockState
        (setFormat hl 0 (qlength t) (_formats hl CodeBlock)) CodeBlock
  else hl.

(** *** Front matter *)

Definition firstBlockText (hl : MarkdownHighlighter) : QString :=
  blockText hl (Some O).

Definition dashes : QString := qs "---".

Definition highlightFrontmatterBlock (hl : MarkdownHighlighter) (t : QString)
  : MarkdownHighlighter :=
  if negb (qstring_eqb (firstBlockText hl) dashes) then hl
  else if qstring_eqb t dashes then
    let foundEnd := previousBlockState hl =? FrontmatterBlock in
    if negb foundEnd && negb (Nat.eqb 0 (currentBlock hl)) then hl
    else
      let hl := setCurrentBlockState hl
                  (if foundEnd then FrontmatterBlockEnd else FrontmatterBlock) in
      setFormat hl 0 (qlength t) (_formats hl MaskedSyntax)
  else if previousBlockState hl =? FrontmatterBlock then
    let hl := setCurrentBlockState hl FrontmatterBlock in
    setFormat hl 0 (qlength t) (_formats hl MaskedSyntax)
  else hl.

(** ** The rule table *)

Definition ch (c : QChar) : regex := RChar c.
Arguments ch c%_char.
Arguments IChar c%_char.

Fixpoint seq (rs : list regex) : regex :=
  match rs with
  | [] => REps
  | [r] => r
  | r :: rs' => RSeq r (seq rs')
  end.

Definition lit (s : string) : regex := seq (map RChar (qs s)).
Definition star (r : regex) : regex := RRepeat true 0 None r.
Definition plus (r : regex) : regex := RRepeat true 1 None r.
Definition lazyStar (r : regex) : regex := RRepeat false 0 None r.
Definition lazyPlus (r : regex) : regex := RRepeat false 1 None r.
Definition opt (r : regex) : regex := RRepeat true 0 (Some 1%nat) r.
Definition oneOf (s : string) : regex := RClass false (map IChar (qs s)).
Definition noneOf (s : string) : regex := RClass true (map IChar (qs s)).
Definition tab : QChar := ascii_of_nat 9.

Definition rule (st : HighlighterState) : HighlightingRule :=
  mkRule (mkRegex "" REps) st 0 0 false false.

Definition withPattern (r : HighlightingRule) (src : string) (p : regex)
  : HighlightingRule :=
  mkRule (mkRegex src p) (state r) (capturingGroup r) (maskedGroup r)
         (useStateAsCurrentBlockState r) (disableIfCurrentStateIsSet r).

Definition withGroup (r : HighlightingRule) (g : Z) : HighlightingRule :=
  mkRule (pattern r) (state r) g (maskedGroup r)
         (useStateAsCurrentBlockState r) (disableIfCurrentStateIsSet r).

Definition usingState (r : HighlightingRule) : HighlightingRule :=
  mkRule (pattern r) (state r) (capturingGroup r) (maskedGroup r)
         true (disableIfCurrentStateIsSet r).

Definition disabledIfStateSet (r : HighlightingRule) : HighlightingRule :=
  mkRule (pattern r) (state r) (capturingGroup r) (maskedGroup r)
         (useStateAsCurrentBlockState r) true.

(** [_highlightingRulesPre], in the order [initHighlightingRules] appends. *)
Definition highlightingRulesPre (fullyHighlightedBlockQuote : bool)
  : list HighlightingRule :=
  [ withPattern (rule MaskedSyntax) "^\[.+?\]: \w+://.+$"
      (seq [RBol; ch "["; lazyPlus RAny; lit "]: "; plus RWord; lit "://";
            plus RAny; REol]);
    withPattern (usingState (rule List)) "^\s*[-*+]\s"
      (seq [RBol; star RSpace; oneOf "-*+"; RSpace]);
    withPattern (usingState (rule List)) "^\s*\d+\.\s"
      (seq [RBol; star RSpace; plus RDigit; ch "."; RSpace]);
    withPattern (rule BlockQuote)
      (if fullyHighlightedBlockQuote then "^\s*(>\s*.+)" else "^\s*(>\s*)+")
      (if fullyHighlightedBlockQuote
       then seq [RBol; star RSpace;
                 RGroup 1 (seq [ch ">"; star RSpace; plus RAny])]
       else seq [RBol; star RSpace;
                 plus (RGroup 1 (seq [ch ">"; star RSpace]))]);
    withPattern (rule HorizontalRuler) "^([*\-_]\s?){3,}$"
      (seq [RBol;
            RRepeat true 3 None (RGroup 1 (seq [oneOf "*-_"; opt RSpace]));
            REol]) ].

Definition notStarOrBackspace : regex := RClass true [IChar "*"; IBackspace].
Definition notSpaceOrTick : regex := RClass true [ISpace; IChar "`"].

(** [_highlightingRulesAfter].  A rule object is reused for the patterns of
    its block, so a group number set for one pattern stays for the next. *)
Definition highlightingRulesAfter : list HighlightingRule :=
  let italic := withGroup (rule Italic) 1 in
  let bold := withGroup (rule Bold) 1 in
  let strike := withGroup (rule MaskedSyntax) 1 in
  let link0 := withGroup (rule Link) 0 in
  let link := withGroup (rule Link) 1 in
  let image := withGroup (rule Image) 1 in
  let trailing := withGroup (rule TrailingSpace) 1 in
  let inlineCode := withGroup (rule InlineCodeBlock) 1 in
  let comment := withGroup (rule Comment) 1 in
  [ withPattern italic "(?:^|[^\*\b])(?:\*([^\* ][^\*]*?)\*)(?:[^\*\b]|$)"
      (seq [RAlt RBol notStarOrBackspace; ch "*";
            RGroup 1 (seq [noneOf "* "; lazyStar (noneOf "*")]); ch "*";
            RAlt notStarOrBackspace REol]);
    withPattern italic "\b_([^_]+)_\b"
      (seq [RWordB; ch "_"; RGroup 1 (plus (noneOf "_")); ch "_"; RWordB]);
    withPattern bold "\B\*{2}(.+?)\*{2}\B"
      (seq [RNotWordB; lit "**"; RGroup 1 (lazyPlus RAny); lit "**"; RNotWordB]);
    withPattern bold "\b__(.+?)__\b"
      (seq [RWordB; lit "__"; RGroup 1 (lazyPlus RAny); lit "__"; RWordB]);
    withPattern strike "\~{2}(.+?)\~{2}"
      (seq [lit "~~"; RGroup 1 (lazyPlus RAny); lit "~~"]);
    withPattern link0 "\b\w+?:\/\/[^\s]+"
      (seq [RWordB; lazyPlus RWord; lit "://"; plus (RClass true [ISpace])]);
    withPattern link "<(\w+?:\/\/[^\s]+)>"
      (seq [ch "<";
            RGroup 1 (seq [lazyPlus RWord; lit "://"; plus (RClass true [ISpace])]);
            ch ">"]);
    withPattern link "<([^\s`][^`]*?\.[^`]*?[^\s`])>"
      (seq [ch "<";
            RGroup 1 (seq [notSpaceOrTick; lazyStar (noneOf "`"); ch ".";
                           lazyStar (noneOf "`"); notSpaceOrTick]);
            ch ">"]);
    withPattern link "\[([^\[\]]+)\]\((\S+|.+?)\)\B"
      (seq [ch "["; RGroup 1 (plus (noneOf "[]")); lit "](";
            RGroup 2 (RAlt (plus RNonSpace) (lazyPlus RAny)); ch ")"; RNotWordB]);
    withPattern link "\[\]\((.+?)\)"
      (seq [lit "[]("; RGroup 1 (lazyPlus RAny); ch ")"]);
    withPattern link "<(.+?@.+?)>"
      (seq [ch "<"; RGroup 1 (seq [lazyPlus RAny; ch "@"; lazyPlus RAny]); ch ">"]);
    withPattern link "\[(.+?)\]\[.+?\]"
      (seq [ch "["; RGroup 1 (lazyPlus RAny); lit "]["; lazyPlus RAny; ch "]"]);
    withPattern image "!\[(.+?)\]\(.+?\)"
      (seq [lit "!["; RGroup 1 (lazyPlus RAny); lit "]("; lazyPlus RAny; ch ")"]);
    withPattern image "!\[\]\((.+?)\)"
      (seq [lit "![]("; RGroup 1 (lazyPlus RAny); ch ")"]);
    withPattern link "\[!\[(.+?)\]\(.+?\)\]\(.+?\)"
      (seq [lit "[!["; RGroup 1 (lazyPlus RAny); lit "]("; lazyPlus RAny;
            lit ")]("; lazyPlus RAny; ch ")"]);
    withPattern link "\[!\[\]\(.+?\)\]\((.+?)\)"
      (seq [lit "[![]("; lazyPlus RAny; lit ")]("; RGroup 1 (lazyPlus RAny);
            ch ")"]);
    withPattern trailing "( +)$"
      (seq [RGroup 1 (plus (ch " ")); REol]);
    withPattern inlineCode "`(.+?)`"
      (seq [ch "`"; RGroup 1 (lazyPlus RAny); ch "`"]);
    withPattern (disabledIfStateSet (rule CodeBlock)) "^((\t)|( {4,})).+$"
      (seq [RBol;
            RGroup 1 (RAlt (RGroup 2 (ch tab))
                           (RGroup 3 (RRepeat true 4 None (ch " "))));
            plus RAny; REol]);
    withPattern comment "<!\-\-(.+?)\-\->"
      (seq [lit "<!--"; RGroup 1 (lazyPlus RAny); lit "-->"]);
    withPattern comment "^\[.+?\]: # \(.+?\)$"
      (seq [RBol; ch "["; lazyPlus RAny; lit "]: # ("; lazyPlus RAny; ch ")";
            REol]);
    withPattern (rule Table) "^\|.+?\|$"
      (seq [RBol; ch "|"; lazyPlus RAny; ch "|"; REol]) ].

(** ** Rules, blocks and the queue, over a pattern matcher *)

Section Engine.

(** [QRegularExpression::globalMatch]: all the matches of a pattern in a
    text, from left to right.  The matcher is Qt's; the highlighter only
    iterates over what it returns. *)
Variable globalMatch : QRegularExpression -> QString -> list QRegularExpressionMatch.

Definition isHeadingState (s : Z) : bool :=
  (s =? H1) || (s =? H2) || (s =? H3) || (s =? H4) || (s =? H5) || (s =? H6).

(** Format italics, bolds and links in headings (h1-h6). *)
Definition setHeadingStyles (hl : MarkdownHighlighter) (format : QTextCharFormat)
           (m : QRegularExpressionMatch) (capturedGroup : Z)
  : MarkdownHighlighter :=
  let st := currentBlockState hl in
  let f :=
    if st =? H1 then _formats hl H1
    else if st =? H2 then _formats hl H2
    else if st =? H3 then _formats hl H3
    else if st =? H4 then _formats hl H4
    else if st =? H5 then _formats hl H5
    else _formats hl H6 in
  if format_eqb format (_formats hl Italic) then
    setFormat hl (capturedStart m capturedGroup) (capturedLength m capturedGroup)
              (setFontItalic f true)
  else if format_eqb format (_formats hl Bold) then
    setFormat hl (capturedStart m capturedGroup) (capturedLength m capturedGroup) f
  else if format_eqb format (_formats hl Link) then
    let link := setFontPointSize (_formats hl Link) (fontPointSize f) in
    if capturedGroup =? 1
    then setFormat hl (capturedStart m capturedGroup)
                   (capturedLength m capturedGroup) link
    else hl
  else hl.

(** The body of the loop over the matches of one rule. *)
Definition highlightMatch (r : HighlightingRule) (hl : MarkdownHighlighter)
           (m : QRegularExpressionMatch) : MarkdownHighlighter :=
  let maskedFormat := _formats hl MaskedSyntax in
  let format := _formats hl (state r) in
  let inHeading :=
    isHeadingState (currentBlockState hl) &&
    negb (format_eqb format (_formats hl InlineCodeBlock)) in
  let hl :=
    if 0 <? capturingGroup r then
      let currentMaskedFormat :=
        if negb (Qle_bool (fontPointSize format) 0)
        then setFontPointSize maskedFormat (fontPointSize format)
        else maskedFormat in
      if inHeading then hl
      else setFormat hl (capturedStart m (maskedGroup r))
                     (capturedLength m (maskedGroup r)) currentMaskedFormat
    else hl in
  if inHeading then setHeadingStyles hl format m (capturingGroup r)
  else setFormat hl (capturedStart m (capturingGroup r))
                 (capturedLength m (capturingGroup r)) format.

(** The body of the loop over the rules. *)
Definition highlightRule (t : QString) (hl : MarkdownHighlighter)
           (r : HighlightingRule) : MarkdownHighlighter :=
  if disableIfCurrentStateIsSet r && negb (currentBlockState hl =? NoState)
  then hl
  else
    let matches := globalMatch (pattern r) t in
    let hl :=
      match matches with
      | _ :: _ =>
          if useStateAsCurrentBlockState r
          then setCurrentBlockState hl (state r) else hl
      | [] => hl
      end in
    fold_left (highlightMatch r) matches hl.

(** Highlights the rules from one of the rule lists. *)
Definition highlightAdditionalRules (hl : MarkdownHighlighter)
           (rules : list HighlightingRule) (t : QString) : MarkdownHighlighter :=
  fold_left (highlightRule t) rules hl.

Definition highlightMarkdown (hl : MarkdownHighlighter) (t : QString)
  : MarkdownHighlighter :=
  let hl :=
    match t with
    | [] => hl
    | _ =>
        let hl := highlightAdditionalRules hl (_highlightingRulesPre hl) t in
        let hl := highlightHeadline hl t in
        highlightAdditionalRules hl (_highlightingRulesAfter hl) t
    end in
  let hl := highlightCommentBlock hl t in
  let hl := highlightCodeBlock hl t in
  highlightFrontmatterBlock hl t.

(** Does the markdown highlighting of the current block.  The block is added
    to [highlighted], which the source does not have: it is the record of the
    calls. *)
Definition highlightBlock (hl : MarkdownHighlighter) (t : QString)
  : MarkdownHighlighter :=
  let hl := setCurrentBlockState hl NoState in
  let hl := setUserState hl (Some (currentBlock hl)) NoState in
  let hl := highlightMarkdown hl t in
  mkHL (_highlightingRulesPre hl) (_highlightingRulesAfter hl)
       (_formats hl) (_dirtyTextBlocks hl) true (document hl)
       (currentBlock hl) (formatChanges hl)
       (highlighted hl ++ [currentBlock hl]).

(** One block highlighted by Qt ([QSyntaxHighlighterPrivate::reformatBlock]):
    the block becomes the current block, its formats are cleared, and
    [highlightBlock] runs on its text.  Nothing happens for a block that is
    not in the document.  This is one classification of the block;
    [QSyntaxHighlighter::rehighlightBlock] starts with it and may go on with
    the blocks that follow: see [rehighlightFrom]. *)
Definition rehighlightBlock (hl : MarkdownHighlighter) (n : nat)
  : MarkdownHighlighter :=
  match blockAt hl n with
  | Some b =>
      highlightBlock
        (mkHL (_highlightingRulesPre hl) (_highlightingRulesAfter hl)
              (_formats hl) (_dirtyTextBlocks hl) (_highlightingFinished hl)
              (document hl) n [] (highlighted hl))
        (text b)
  | None => hl
  end.

(** [QSyntaxHighlighter::rehighlightBlock(block)], which is Qt's and not
    part of the sources here ([reformatBlocks] in qsyntaxhighlighter.cpp):
    the block is highlighted, and then the blocks that follow, one after the
    other, as long as the state of the block just highlighted is not the
    state it had before ([forceHighlightOfNextBlock]); the loop ends at the
    end of the document at the latest.  [count] is the number of blocks from
    [n] to the end of the document. *)
Fixpoint rehighlightFrom (count : nat) (hl : MarkdownHighlighter) (n : nat)
  : MarkdownHighlighter :=
  match count with
  | O => hl
  | S c =>
      match blockAt hl n with
      | Some b =>
          let stateBeforeHighlight := userState b in
          let hl := rehighlightBlock hl n in
          if blockState hl (Some n) =? stateBeforeHighlight then hl
          else rehighlightFrom c hl (S n)
      | None => hl
      end
  end.

Definition rehighlightBlocks (hl : MarkdownHighlighter) (n : nat)
  : MarkdownHighlighter :=
  rehighlightFrom (length (document hl) - n) hl n.

(** [_dirtyTextBlocks.removeFirst()] *)
Definition removeFirst (hl : MarkdownHighlighter) : MarkdownHighlighter :=
  withDirty hl (tail (_dirtyTextBlocks hl)).

(** Re-highlights all dirty blocks: the [while] loop, cut after [fuel]
    rounds.  A round is one call of Qt's [rehighlightBlock] on the head of
    the queue, which may highlight the blocks that follow as well. *)
Fixpoint reHighlightLoop (fuel : nat) (hl : MarkdownHighlighter)
  : Outcome MarkdownHighlighter :=
  match _dirtyTextBlocks hl with
  | [] => Ok hl
  | block :: _ =>
      match fuel with
      | O => OutOfFuel
      | S n => reHighlightLoop n (removeFirst (rehighlightBlocks hl block))
      end
  end.

Definition reHighlightDirtyBlocks (fuel : nat) (hl : MarkdownHighlighter)
  : Outcome MarkdownHighlighter :=
  reHighlightLoop fuel hl.

(** Does jobs every second: re-highlights all dirty blocks, then emits the
    signal [highlightingFinished] if there was some highlighting done.  The
    boolean tells whether the signal is emitted; [fuel] bounds the rounds of
    the loop of [reHighlightDirtyBlocks]. *)
Definition timerTick (fuel : nat) (hl : MarkdownHighlighter)
  : Outcome (MarkdownHighlighter * bool) :=
  bindO (reHighlightDirtyBlocks fuel hl) (fun hl =>
    if _highlightingFinished hl
    then Ok (mkHL (_highlightingRulesPre hl) (_highlightingRulesAfter hl)
                  (_formats hl) (_dirtyTextBlocks hl) false (document hl)
                  (currentBlock hl) (formatChanges hl) (highlighted hl), true)
    else Ok (hl, false)).

End Engine.

(** ** A backtracking matcher for the patterns of the rule table

    [QRegularExpression::globalMatch] on the fragment of the pattern language
    above: the leftmost match at each step, alternatives and repetitions
    tried in the order a backtracking matcher tries them, [\w], [\d] and
    [\s] on the ASCII range, [$] at the end of the text. *)

Module Matcher.

Definition isWordChar (c : QChar) : bool :=
  isLetter c || isNumber c || qchar_eqb c "_"%char.

Definition backspace : QChar := ascii_of_nat 8.
Definition newline : QChar := ascii_of_nat 10.

Definition inItem (c : QChar) (it : ClassItem) : bool :=
  match it with
  | IChar d => qchar_eqb c d
  | ISpace => isSpace c
  | IBackspace => qchar_eqb c backspace
  end.

Definition Captures := list (nat * (Z * Z)).

(** A word boundary at [i]: exactly one of the characters before and after
    [i] is a word character. *)
Definition wordBoundary (t : QString) (i : nat) : bool :=
  let before :=
    match i with
    | O => false
    | S j => match nth_error t j with Some c => isWordChar c | None => false end
    end in
  let after :=
    match nth_error t i with Some c => isWordChar c | None => false end in
  xorb before after.

Definition oneChar (p : QChar -> bool) (t : QString) (i : nat) (c : Captures)
           (k : nat -> Captures -> option (nat * Captures))
  : option (nat * Captures) :=
  match nth_error t i with
  | Some x => if p x then k (S i) c else None
  | None => None
  end.

Definition orElse {A} (a : option A) (b : unit -> option A) : option A :=
  match a with Some _ => a | None => b tt end.

Definition below (hi : option nat) (cnt : nat) : bool :=
  match hi with Some h => (cnt <? h)%nat | None => true end.

(** [matchAt r t i c k]: match [r] in [t] from offset [i], then go on with
    [k]; alternatives are tried in the order a backtracking matcher tries
    them.  A repetition goes round again only after a round that consumed
    something. *)
Fixpoint matchAt (r : regex) (t : QString) (i : nat) (c : Captures)
         (k : nat -> Captures -> option (nat * Captures))
  : option (nat * Captures) :=
  match r with
  | REps => k i c
  | RChar x => oneChar (qchar_eqb x) t i c k
  | RAny => oneChar (fun y => negb (qchar_eqb y newline)) t i c k
  | RClass negated items =>
      oneChar (fun y => xorb negated (existsb (inItem y) items)) t i c k
  | RSpace => oneChar isSpace t i c k
  | RNonSpace => oneChar (fun y => negb (isSpace y)) t i c k
  | RWord => oneChar isWordChar t i c k
  | RDigit => oneChar isNumber t i c k
  | RBol => if Nat.eqb i 0 then k i c else None
  | REol => if Nat.eqb i (length t) then k i c else None
  | RWordB => if wordBoundary t i then k i c else None
  | RNotWordB => if wordBoundary t i then None else k i c
  | RSeq r1 r2 => matchAt r1 t i c (fun j c' => matchAt r2 t j c' k)
  | RAlt r1 r2 => orElse (matchAt r1 t i c k) (fun _ => matchAt r2 t i c k)
  | RGroup n r' =>
      matchAt r' t i c
        (fun j c' => k j ((n, (Z.of_nat i, Z.of_nat j)) :: c'))
  | RRepeat greedy lo hi r' =>
      (fix round (fuel cnt i : nat) (c : Captures) {struct fuel}
         : option (nat * Captures) :=
         let stop (_ : unit) := if (lo <=? cnt)%nat then k i c else None in
         match fuel with
         | O => stop tt
         | S fuel' =>
             let more (_ : unit) :=
               if below hi cnt then
                 matchAt r' t i c
                   (fun j c' =>
                      if (i <? j)%nat then round fuel' (S cnt) j c' else None)
               else None in
             if greedy then orElse (more tt) stop else orElse (stop tt) more
         end) (length t) O i c
  end.

(** The first match that starts at or after [start]. *)
Fixpoint firstMatch (fuel : nat) (r : regex) (t : QString) (start : nat)
  : option QRegularExpressionMatch :=
  match matchAt r t start [] (fun j c => Some (j, c)) with
  | Some (j, c) => Some (mkMatch (Z.of_nat start, Z.of_nat j) c)
  | None =>
      match fuel with
      | O => None
      | S n =>
          if (start <? length t)%nat then firstMatch n r t (S start) else None
      end
  end.

(** The iteration of [globalMatch]: the next match is looked for where the
    last one ended (one further after an empty match). *)
Fixpoint matchesFrom (fuel : nat) (r : regex) (t : QString) (start : nat)
  : list QRegularExpressionMatch :=
  match fuel with
  | O => []
  | S n =>
      match firstMatch (length t) r t start with
      | Some m =>
          let e := Z.to_nat (snd (whole m)) in
          let next := if (Z.to_nat (fst (whole m)) <? e)%nat then e else S e in
          m :: (if (next <=? length t)%nat then matchesFrom n r t next else [])
      | None => []
      end
  end.

Definition globalMatch (re : QRegularExpression) (t : QString)
  : list QRegularExpressionMatch :=
  matchesFrom (S (length t)) (compiled re) t O.

End Matcher.

(** ** The text formats and the constructor *)

Definition Bold_weight : Z := 75.        (* QFont::Bold *)
Definition StyleItalic : Z := 1.         (* QFont::StyleItalic *)

(** Sizes are doubles ([qreal]).  A double is held as the rational it
    stands for; [toDouble] is the rounding of a rational to the nearest
    double, ties to even, with the 53 bits of binary64.  The range of the
    exponent is not modelled: sizes of fonts are far from both ends of it. *)
Definition roundHalfEven (a b : Z) : Z :=
  let q := a / b in
  let r := a mod b in
  if 2 * r <? b then q
  else if b <? 2 * r then q + 1
  else if Z.even q then q else q + 1.

(** [x / 2 ^ e] as a fraction of two integers. *)
Definition scaleBy (n d e : Z) : Z * Z :=
  if 0 <=? e then (n, d * 2 ^ e) else (n * 2 ^ (- e), d).

Definition pow2 (e : Z) : Q :=
  if 0 <=? e then inject_Z (2 ^ e) else 1 # Z.to_pos (2 ^ (- e)).

(** The exponent [e] for which [x / 2 ^ e] is in the range of a mantissa of
    53 bits, from [2 ^ 52] up to [2 ^ 53], for [x = n / d] above zero. *)
Definition exponentOf (n d : Z) : Z :=
  let e := Z.log2 n - Z.log2 d - 53 in
  let '(a, b) := scaleBy n d e in
  if a <? 2 ^ 53 * b then e else e + 1.

Definition toDouble (x : Q) : Q :=
  let n := Z.abs (Qnum x) in
  let d := Zpos (Qden x) in
  if n =? 0 then 0%Q
  else
    let e := exponentOf n d in
    let '(a, b) := scaleBy n d e in
    (inject_Z (Z.sgn (Qnum x) * roundHalfEven a b) * pow2 e)%Q.

(** [defaultFontSize * 1.6] and the like: the literal is the double nearest
    to [tenths / 10], the [int] is converted exactly, and the product is
    rounded. *)
Definition scaled (defaultFontSize : Z) (tenths : Z) : Q :=
  toDouble (inject_Z defaultFontSize * toDouble (tenths # 10))%Q.

(** Initializes the text formats.  [fixedFont] is what the platform gives for
    [QFontDatabase::systemFont(QFontDatabase::FixedFont)]. *)
Definition initTextFormats (fs : Formats) (defaultFontSize : Z) (fixedFont : QFont)
  : Formats :=
  let format := setForeground emptyFormat (Rgb 0 49 110) in
  let format := setFontWeight format Bold_weight in
  let fs := setTextFormat fs H1 (setFontPointSize format (scaled defaultFontSize 16)) in
  let fs := setTextFormat fs H2 (setFontPointSize format (scaled defaultFontSize 15)) in
  let fs := setTextFormat fs H3 (setFontPointSize format (scaled defaultFontSize 14)) in
  let fs := setTextFormat fs H4 (setFontPointSize format (scaled defaultFontSize 13)) in
  let fs := setTextFormat fs H5 (setFontPointSize format (scaled defaultFontSize 12)) in
  let fs := setTextFormat fs H6 (setFontPointSize format (scaled defaultFontSize 11)) in
  let fs := setTextFormat fs HorizontalRuler
              (setBackground (setForeground emptyFormat (Named "darkGray"))
                             (Named "lightGray")) in
  let fs := setTextFormat fs List (setForeground emptyFormat (Rgb 163 0 123)) in
  let fs := setTextFormat fs Link
              (setFontUnderline (setForeground emptyFormat (Rgb 0 128 255)) true) in
  let fs := setTextFormat fs Image
              (setBackground (setForeground emptyFormat (Rgb 0 191 0))
                             (Rgb 228 255 228)) in
  let codeFormat := setBackground (setFont emptyFormat fixedFont) (Rgb 220 220 220) in
  let fs := setTextFormat fs CodeBlock codeFormat in
  let fs := setTextFormat fs InlineCodeBlock codeFormat in
  let fs := setTextFormat fs Italic
              (setFontItalic (setFontWeight emptyFormat StyleItalic) true) in
  let fs := setTextFormat fs Bold (setFontWeight emptyFormat Bold_weight) in
  let fs := setTextFormat fs Comment (setForeground emptyFormat (Named "gray")) in
  let fs := setTextFormat fs MaskedSyntax
              (setForeground emptyFormat (Named "#cccccc")) in
  let fs := setTextFormat fs Table
              (setForeground (setFont emptyFormat fixedFont) (Named "#649449")) in
  let fs := setTextFormat fs BlockQuote
              (setForeground emptyFormat (Named "darkRed")) in
  let fs := setTextFormat fs HeadlineEnd emptyFormat in
  setTextFormat fs NoState emptyFormat.

(** The constructor, on a document whose blocks have no state yet. *)
Definition newHighlighter (fullyHighlightedBlockQuote : bool)
           (defaultFontSize : Z) (fixedFont : QFont) (lines : list QString)
  : MarkdownHighlighter :=
  mkHL (highlightingRulesPre fullyHighlightedBlockQuote) highlightingRulesAfter
       (initTextFormats (fun _ => emptyFormat) defaultFontSize fixedFont)
       [] false (map (fun t => mkBlock t (-1)) lines) O [] [].

(** The highlighter with the matcher above plugged in. *)
Definition classify (hl : MarkdownHighlighter) (n : nat) : MarkdownHighlighter :=
  rehighlightBlock Matcher.globalMatch hl n.

(** Classifies the blocks [n], [n+1], ... in order, as Qt does for a document
    it highlights from the top. *)
Fixpoint classifyFrom (hl : MarkdownHighlighter) (n count : nat)
  : MarkdownHighlighter :=
  match count with
  | O => hl
  | S c => classifyFrom (classify hl n) (S n) c
  end.

(** * What the properties are stated with *)

(** ** Predicates on spans, states and tables *)

(** [frame hl hl']: [hl'] comes from [hl] by the steps of one call of
    [highlightMarkdown]: the rule lists, the current block, the texts, the
    record of calls and the flag are the same, the calls of [setFormat] were
    only added to, the only entry of the format table that may differ is the
    one of [MaskedSyntax], and the queue is the same or has the block before
    the current one as a new last entry. *)
Record frame (hl hl' : MarkdownHighlighter) : Prop := mkFrame {
  fr_pre : _highlightingRulesPre hl' = _highlightingRulesPre hl;
  fr_after : _highlightingRulesAfter hl' = _highlightingRulesAfter hl;
  fr_current : currentBlock hl' = currentBlock hl;
  fr_texts : map text (document hl') = map text (document hl);
  fr_highlighted : highlighted hl' = highlighted hl;
  fr_finished : _highlightingFinished hl' = _highlightingFinished hl;
  fr_spans : exists l, formatChanges hl' = formatChanges hl ++ l;
  fr_formats : forall k : Z, k <> MaskedSyntax -> _formats hl' k = _formats hl k;
  fr_queue :
    _dirtyTextBlocks hl' = _dirtyTextBlocks hl \/
    exists p, previousBlock hl = Some p /\ ~ In p (_dirtyTextBlocks hl) /\
              _dirtyTextBlocks hl' = _dirtyTextBlocks hl ++ [p]
}.

Definition extends (out out' : list Span) : Prop := exists l, out' = out ++ l.

(** What holds when the [while] loop that started at [i] is left. *)
Definition whileExit_ok (t : QString) (i : Z) (out : list Span) (e : WhileExit)
  : Prop :=
  match e with
  | AtLetter i' _ out' => i <= i' < qlength t /\ extends out out'
  | Returned out' => extends out out'
  end.

Definition statesIn (Q : Z -> Prop) (hl : MarkdownHighlighter) : Prop :=
  Forall (fun b => Q (userState b)) (document hl).

(** The states the rule, headline, comment and code-block steps write. *)
Definition coreStates : list Z :=
  [ (NoState : Z); (List : Z); (H1 : Z); (H2 : Z); (H3 : Z); (H4 : Z); (H5 : Z);
    (H6 : Z); (HeadlineEnd : Z); (Comment : Z); (CodeBlock : Z);
    (CodeBlockEnd : Z); (CodeCpp : Z); (CodeJs : Z) ].

(** Only the two list rules record their category as the state of the line. *)
Definition listOnly (rules : list HighlightingRule) : Prop :=
  Forall (fun r => useStateAsCurrentBlockState r = true -> state r = List) rules.

Definition notFrontmatter (s : Z) : Prop :=
  s <> FrontmatterBlock /\ s <> FrontmatterBlockEnd.

(** The rule lists are the ones [initHighlightingRules] builds. *)
Definition initialRules (hl : MarkdownHighlighter) : Prop :=
  exists b, _highlightingRulesPre hl = highlightingRulesPre b /\
            _highlightingRulesAfter hl = highlightingRulesAfter.

(** What stays the same over the classification of a block: the rule lists
    and the texts of the document. *)
Definition sameSetup (hl hl' : MarkdownHighlighter) : Prop :=
  _highlightingRulesPre hl' = _highlightingRulesPre hl /\
  _highlightingRulesAfter hl' = _highlightingRulesAfter hl /\
  map text (document hl') = map text (document hl).

(** Inside a code block: the plain code block, or a category at or above the
    threshold of the embedded languages. *)
Definition insideCode (s : Z) : bool := (s =? CodeBlock) || (200 <=? s).

Definition fenceState (t : QString) : HighlighterState :=
  let lang := midRef t 3 (qlength t) in
  if qstring_eqb lang (qs "cpp") then CodeCpp
  else if qstring_eqb lang (qs "js") then CodeJs
  else CodeBlock.

Definition commentOpen : QString := qs "<!--".

Definition commentClose : QString := qs "-->".

(** The line the source skips: an inline comment, open and closed on the
    (trimmed) line. *)
Definition selfContained (t0 : QString) : bool :=
  startsWith (trimmed t0) commentOpen && contains (trimmed t0) commentClose.

(** The table after the code-block step: on a fence line the [MaskedSyntax]
    entry has taken the point size of the [CodeBlock] entry; on any other
    line the table is the same. *)
Definition fenced (fs : Formats) : Formats :=
  setTextFormat fs MaskedSyntax
    (setFontPointSize (fs MaskedSyntax) (fontPointSize (fs CodeBlock))).

Definition headingLine (n : nat) (rest : QString) : QString :=
  repeat hash n ++ " "%char :: rest.

Definition maskedFor (hl : MarkdownHighlighter) (level : Z) : QTextCharFormat :=
  setFontPointSize (_formats hl MaskedSyntax) (fontPointSize (_formats hl level)).

Definition codeFormat (hl : MarkdownHighlighter) (c : QColor) : QTextCharFormat :=
  setForeground (_formats hl CodeBlock) c.

Definition stringFormat (hl : MarkdownHighlighter) : QTextCharFormat :=
  setForeground (setForeground (_formats hl CodeBlock) darkBlue) darkGreen.

Definition pointSizes (hl : MarkdownHighlighter) : list (option Q) :=
  map (fun s => fontPointSizeP (sp_format s)) (formatChanges hl).

(** ** Documents of the examples *)

Definition monospace10 : QFont := mkFont "Monospace" (10 # 1).

(** A line of a [```cpp] block, as the second block of a fresh document. *)
Definition cppLine (t : QString) : MarkdownHighlighter :=
  classifyFrom (newHighlighter false 12 monospace10 [qs "```cpp"; t]) 0 2.

Definition unterminatedExample : QString :=
  qs "int x = " ++ dquote :: qs "unterminated".

Definition shortUnterminated : QString := qs "s = " ++ dquote :: qs "a".

Definition titleLine : MarkdownHighlighter :=
  classify (newHighlighter false 12 monospace10 [qs "# Title"]) 0.

Definition laterDashes : MarkdownHighlighter :=
  newHighlighter false 12 monospace10
    [qs "title"; qs "---"; qs "key: value"; qs "---"].

Definition titleUnderlined : MarkdownHighlighter :=
  classifyFrom (newHighlighter false 12 monospace10 [qs "Title"; qs "==="]) 0 2.

(** The document ["Title"; "==="] when the first line has been highlighted
    (the look-ahead made it H1) and the second line is the current block. *)
Definition titleAtUnderline : MarkdownHighlighter :=
  mkHL (highlightingRulesPre false) highlightingRulesAfter
       (initTextFormats (fun _ => emptyFormat) 12 monospace10)
       [] true [mkBlock (qs "Title") H1; mkBlock (qs "===") NoState]
       1 [] [0%nat].

Definition twoUnderlines : MarkdownHighlighter :=
  classifyFrom (newHighlighter false 12 monospace10 [qs "==="; qs "==="]) 0 2.

Definition cppBlock : MarkdownHighlighter :=
  newHighlighter false 12 monospace10 [qs "```cpp"; qs "int x = 1;"; qs "```"].

Definition jsBlock : MarkdownHighlighter :=
  newHighlighter false 12 monospace10 [qs "```js"; qs "var x = 1;"; qs "```"].

Definition commentLines : MarkdownHighlighter :=
  classifyFrom
    (newHighlighter false 12 monospace10
       [qs "<!-- a"; qs "b"; qs "c -->"; qs "d"; qs "<!-- e -->"; qs "f"]) 0 6.

Definition inlineInsideComment : MarkdownHighlighter :=
  classifyFrom
    (newHighlighter false 12 monospace10 [qs "<!-- x"; qs "<!-- a --> b"]) 0 2.

Definition strikeThenFence : MarkdownHighlighter :=
  newHighlighter false 12 monospace10 [qs "~~a~~"; qs "```"].

Definition fenceWithSpace : MarkdownHighlighter :=
  newHighlighter false 12 monospace10 [qs "``` "].

(** ** The steps of one classification *)

(** The block before block [n]. *)
Definition previousOf (n : nat) : option nat :=
  match n with
  | O => None
  | S k => Some k
  end.

(** The highlighter when [highlightMarkdown] starts on block [n]: the block
    is the current one, nothing is painted on it yet and its state is reset. *)
Definition resetBlock (hl : MarkdownHighlighter) (n : nat) : MarkdownHighlighter :=
  let h0 := mkHL (_highlightingRulesPre hl) (_highlightingRulesAfter hl)
                 (_formats hl) (_dirtyTextBlocks hl) (_highlightingFinished hl)
                 (document hl) n [] (highlighted hl) in
  let h1 := setCurrentBlockState h0 NoState in
  setUserState h1 (Some (currentBlock h1)) NoState.

(** The part of [highlightMarkdown] that a line which is not empty goes
    through first: the rules of the first list, the headline step, the rules
    of the second list. *)
Definition beforeComment
           (globalMatch : QRegularExpression -> QString -> list QRegularExpressionMatch)
           (hl : MarkdownHighlighter) (t : QString) : MarkdownHighlighter :=
  match t with
  | [] => hl
  | _ =>
      let hl := highlightAdditionalRules globalMatch hl (_highlightingRulesPre hl) t in
      let hl := highlightHeadline hl t in
      highlightAdditionalRules globalMatch hl (_highlightingRulesAfter hl) t
  end.

(** The three block steps that end [highlightMarkdown]. *)
Definition blockSteps (hl : MarkdownHighlighter) (t : QString) : MarkdownHighlighter :=
  highlightFrontmatterBlock (highlightCodeBlock (highlightCommentBlock hl t) t) t.

(** Every character of a line of length [len] ends up in format [f]. *)
Definition allPainted (len : Z) (spans : list Span) (f : QTextCharFormat) : Prop :=
  forall i, 0 <= i < len -> formatAt len spans i = f.

(** A highlighter with the rules and formats of the constructor, on the given
    blocks, with block [n] as the current one. *)
Definition onBlock (blocks : list QTextBlock) (n : nat) : MarkdownHighlighter :=
  mkHL (highlightingRulesPre false) highlightingRulesAfter
       (initTextFormats (fun _ => emptyFormat) 12 monospace10)
       [] false blocks n [] [].

(** The character of an underline and the headline level it gives. *)
Definition underlineOf (c : QChar) (level : HighlighterState) : Prop :=
  (c = "="%char /\ level = H1) \/ (c = "-"%char /\ level = H2).

(** What the block steps of the classification of block [n] of [hl], with
    text [t], start from: [x] is the highlighter after the rules and the
    headline step. *)
Record prepared (hl : MarkdownHighlighter) (n : nat) (t : QString)
       (x : MarkdownHighlighter) : Prop := {
  pr_current : currentBlock x = n;
  pr_valid : (n < length (document x))%nat;
  pr_formats : _formats x = _formats hl;
  pr_texts : forall k, blockText x k = blockText hl k;
  pr_empty : t = [] ->
             formatChanges x = [] /\ currentBlockState x = NoState /\
             _dirtyTextBlocks x = _dirtyTextBlocks hl;
  pr_previous :
    blockState hl (previousOf n) <> NoState \/
    (hasOnlyHeadChars t "="%char = false /\ hasOnlyHeadChars t "-"%char = false) ->
    previousBlockState x = blockState hl (previousOf n) }.

(** The state a blank line gets after a line of state [s]. *)
Definition blankLineState (frontmatter : bool) (s : Z) : Z :=
  if (s =? Comment) || (s =? CodeBlock) || (s =? CodeCpp) then s
  else if (s =? FrontmatterBlock) && frontmatter then FrontmatterBlock
  else NoState.

(** The current block is a block of the document. *)
Definition validCurrent (hl : MarkdownHighlighter) : Prop :=
  (currentBlock hl < length (document hl))%nat.

(** The state of a line that starts with a fence, after a line of state
    [s]. *)
Definition fenceLineState (frontmatter : bool) (s : Z) (t : QString) : Z :=
  if (s =? FrontmatterBlock) && frontmatter then FrontmatterBlock
  else if insideCode s then CodeBlockEnd
  else fenceState t.

(** The state of a line of the front matter, after a line of state [s]. *)
Definition frontmatterLineState (t : QString) (s : Z) : HighlighterState :=
  if qstring_eqb t dashes && (s =? FrontmatterBlock)
  then FrontmatterBlockEnd else FrontmatterBlock.

(** The states the headline step may give to the line before. *)
Definition orUnderlined (s s' : Z) : Prop := s' = s \/ s' = H1 \/ s' = H2.

(** A line that opens a comment block, or goes on with the one of the line
    before, whose state is [s]. *)
Definition commentGoesOn (t0 : QString) (s : Z) : Prop :=
  (startsWith (trimmed t0) commentOpen = true /\
   s <> CodeBlock /\ s <> CodeCpp /\ s <> FrontmatterBlock) \/
  (s = Comment /\ endsWith (trimmed t0) commentClose = false).

(** A pending block that is a block of the document. *)
Definition pendingValid (hl : MarkdownHighlighter) : bool :=
  existsb (fun n => n <? length (document hl))%nat (_dirtyTextBlocks hl).

(** The queue holds blocks of the document, each of them once. *)
Definition queueOk (hl : MarkdownHighlighter) : Prop :=
  List.NoDup (_dirtyTextBlocks hl) /\
  Forall (fun n => n < length (document hl))%nat (_dirtyTextBlocks hl).

(** A line of [=] only or of [-] only. *)
Definition isUnderline (t : QString) : bool :=
  hasOnlyHeadChars t "="%char || hasOnlyHeadChars t "-"%char.

(** What a rule paints for a match inside a headline: the captured group,
    in the point size of the headline. *)
Definition headingStyled (hl : MarkdownHighlighter) (r : HighlightingRule)
           (m : QRegularExpressionMatch) (sp : Span) : Prop :=
  sp_start sp = capturedStart m (capturingGroup r) /\
  sp_count sp = capturedLength m (capturingGroup r) /\
  fontPointSize (sp_format sp) =
    fontPointSize (_formats hl (currentBlockState hl)).

(** The point sizes of the six headline formats, H1 first. *)
Definition headingSizes (fs : Formats) : list Q :=
  map (fun k : HighlighterState => fontPointSize (fs k)) [H1; H2; H3; H4; H5; H6].

Fixpoint decreasing (l : list Q) : Prop :=
  match l with
  | a :: ((b :: _) as l') => (b < a)%Q /\ decreasing l'
  | _ => True
  end.

(** The rule of [**bold**], the third of the second rule list. *)
Definition strongRule : HighlightingRule :=
  match highlightingRulesAfter with
  | _ :: _ :: r :: _ => r
  | _ => mkRule (mkRegex EmptyString REps) NoState 0 0 false false
  end.

(** ** The scanner *)

(** What the scanner paints when it comes to a slash at offset [i]: a line
    comment to the end of the line, a block comment up to the first [*/] of
    the line, or nothing. *)
Definition slashSpans (t : QString) (i : Z) (f : QTextCharFormat)
           (out : list Span) : list Span :=
  let gray := setForeground f darkGray in
  match at_ t (i + 1) with
  | Some d =>
      if qchar_eqb d "/"%char then emit out i (qlength t) gray
      else if qchar_eqb d "*"%char then
        let k := indexOf t (qs "*/") in
        emit out i (if k =? -1 then qlength t else k + 2 - i) gray
      else out
  | None => out
  end.

(** A string in double quotes, an operator and a number. *)
Definition quotedThenNumber : QString :=
  dquote :: qs "a" ++ dquote :: qs "1;".

(** No token of [toks] is found at the start of [t]. *)
Definition noneAtStart (toks : list QString) (t : QString) : bool :=
  forallb (fun tk => negb (qstring_eqb tk (midRef t 0 (qlength tk)))) toks.

(** ** Plain lines *)

(** A line that is no headline with hashes, no underline, no start and no
    end of a comment and no fence. *)
Definition plainText (t : QString) : bool :=
  negb (headingFound t) && negb (isUnderline t) &&
  negb (startsWith (trimmed t) commentOpen) &&
  negb (endsWith (trimmed t) commentClose) &&
  negb (startsWith t fence).

(** A state that the line after takes over. *)
Definition carriesBlock (s : Z) : bool :=
  (s =? Comment) || (s =? CodeBlock) || (s =? CodeCpp) || (s =? FrontmatterBlock).

(** No rule of the two lists matches on [t]. *)
Definition noRuleMatches
           (globalMatch : QRegularExpression -> QString -> list QRegularExpressionMatch)
           (hl : MarkdownHighlighter) (t : QString) : Prop :=
  Forall (fun r => globalMatch (pattern r) t = [])
         (_highlightingRulesPre hl ++ _highlightingRulesAfter hl).

(** A character in single quotes between two names. *)
Definition quotedChar : QString := qs "c = " ++ squote :: qs "a" ++ squote :: qs "; int".

(** A single quote that is not closed on the line. *)
Definition openQuote : QString := qs "c = " ++ squote :: qs "ab;".

(** ** Drains *)

(** No line of the document is a line of [=] only or of [-] only. *)
Definition noUnderlines (hl : MarkdownHighlighter) : Prop :=
  Forall (fun b => isUnderline (text b) = false) (document hl).

(** What a run of highlighted blocks looks like when it starts at block [n]
    and goes upwards: [n] itself, then blocks after it. *)
Definition runFrom (n : nat) (l : list nat) : Prop :=
  exists l', l = n :: l' /\ Forall (fun k => n < k)%nat l'.

(** The document ["# T"; "text"; "more"], not highlighted yet. *)
Definition threeLines : MarkdownHighlighter :=
  newHighlighter false 12 monospace10 [qs "# T"; qs "text"; qs "more"].

(** The document ["==="; "==="], not highlighted yet, with its second line
    marked three times. *)
Definition freshUnderlinesMarked : MarkdownHighlighter :=
  fold_left addDirtyBlock [1; 1; 1]%nat
            (newHighlighter false 12 monospace10 [qs "==="; qs "==="]).

(** The document ["# T"; "text"; "==="], not highlighted yet, with its first
    line marked. *)
Definition headlineTextUnderline : MarkdownHighlighter :=
  addDirtyBlock
    (newHighlighter false 12 monospace10 [qs "# T"; qs "text"; qs "==="]) 0.

(** ** Doubles *)

(** The bounds of the rounding to a double: a factor within [2 ^ -53] of 1. *)
Definition roundLow : Q := (2 ^ 53 - 1) # (2 ^ 53).
Definition roundHigh : Q := (2 ^ 53 + 1) # (2 ^ 53).

(** The largest [int]. *)
Definition INT_MAX : Z := 2147483647.

(** ** The drain goes to its end *)

(** The state of block [k] is the same in [hl'] as in [hl], and so is the
    current block. *)
Definition keeps (k : nat) (hl hl' : MarkdownHighlighter) : Prop :=
  currentBlock hl' = currentBlock hl /\
  blockState hl' (Some k) = blockState hl (Some k).

(** The level of the underline that a line is: H1 for a line of [=] only,
    H2 for a line of [-] only. *)
Definition underlineLevel (t : QString) : option HighlighterState :=
  if hasOnlyHeadChars t "="%char then Some H1
  else if hasOnlyHeadChars t "-"%char then Some H2
  else None.

(** The headline level that the line after block [j] gives to block [j] as
    its underline, when block [j] is not empty. *)
Definition underlined (hl : MarkdownHighlighter) (j : nat) : option HighlighterState :=
  if 0 <? qlength (blockText hl (Some j))
  then underlineLevel (blockText hl (Some (S j)))
  else None.

(** A line of state [s] takes an underline of [level]: the test of the two
    underline branches of [highlightHeadline]. *)
Definition takesUnderline (level : HighlighterState) (s : Z) : bool :=
  (s =? level) || (s =? NoState).

(** The line after block [j] is an underline that applies to block [j] as
    the states are. *)
Definition underlineApplies (hl : MarkdownHighlighter) (j : nat) : bool :=
  match underlined hl j with
  | Some level => takesUnderline level (blockState hl (Some j))
  | None => false
  end.

(** The states that take an underline: none, H1 and H2. *)
Definition headlineOrNone (s : Z) : bool :=
  (s =? NoState) || (s =? H1) || (s =? H2).

(** Block [j] is pending. *)
Definition inQueue (hl : MarkdownHighlighter) (j : nat) : bool :=
  containsBlock (_dirtyTextBlocks hl) j.

(** Block [S j] may put block [j] into the queue again: it is pending, or its
    state is one that takes an underline. *)
Definition again (hl : MarkdownHighlighter) (j : nat) : bool :=
  inQueue hl (S j) || headlineOrNone (blockState hl (Some (S j))).

(** What block [j] weighs in the measure of the drain: 3 and 1 for a pending
    block, 2 and 0 for a block that is not pending. *)
Definition pendingLevel (hl : MarkdownHighlighter) (j : nat) : nat :=
  match underlined hl j with
  | Some level =>
      if inQueue hl j then (if again hl j then 3%nat else 1%nat)
      else if again hl j && takesUnderline level (blockState hl (Some j))
           then 2%nat else 0%nat
  | None => if inQueue hl j then 1%nat else 0%nat
  end.

(** The levels of the blocks [j], [j + 1], ..., as the digits of a number in
    base 4, the first block first. *)
Fixpoint weightFrom (f : nat -> nat) (j count : nat) : nat :=
  match count with
  | O => 0%nat
  | S c => (f j * 4 ^ count + weightFrom f (S j) c)%nat
  end.

(** The pending blocks that are no blocks of the document. *)
Definition strangers (hl : MarkdownHighlighter) : list nat :=
  List.filter (fun k => negb (k <? length (document hl))%nat) (_dirtyTextBlocks hl).

(** The measure of the drain: it goes down with every round. *)
Definition drainMeasure (hl : MarkdownHighlighter) : nat :=
  (weightFrom (pendingLevel hl) 0 (length (document hl)) + length (strangers hl))%nat.

(** * Properties *)

(** ** Texts *)

Lemma qchar_eqb_eq (a b : QChar) : qchar_eqb a b = true <-> a = b.
Proof. apply Ascii.eqb_eq. Qed.

Lemma qstring_eqb_eq (a b : QString) : qstring_eqb a b = true <-> a = b.
Proof.
  revert b; induction a as [|x a IH]; intros [|y b]; simpl; split;
    try congruence; try reflexivity.
  - intros H. apply andb_true_iff in H as [H1 H2].
    apply qchar_eqb_eq in H1. apply IH in H2. congruence.
  - intros H. injection H as -> ->. apply andb_true_iff. split.
    + now apply qchar_eqb_eq.
    + now apply IH.
Qed.

Lemma qlength_nonneg (t : QString) : 0 <= qlength t.
Proof. unfold qlength. lia. Qed.

Lemma qlength_app (a b : QString) : qlength (a ++ b) = qlength a + qlength b.
Proof. unfold qlength. rewrite length_app. lia. Qed.

Lemma qlength_cons (c : QChar) (t : QString) : qlength (c :: t) = 1 + qlength t.
Proof. unfold qlength. simpl length. lia. Qed.

Lemma at_in_range (t : QString) (i : Z) :
  0 <= i < qlength t -> exists c, at_ t i = Some c.
Proof.
  intros H. unfold at_.
  replace (0 <=? i) with true by (symmetry; apply Z.leb_le; lia).
  replace (i <? qlength t) with true by (symmetry; apply Z.ltb_lt; lia).
  simpl. destruct (nth_error t (Z.to_nat i)) eqn:E; eauto.
  apply nth_error_None in E. unfold qlength in H. lia.
Qed.

Lemma at_Some_range (t : QString) (i : Z) (c : QChar) :
  at_ t i = Some c -> 0 <= i < qlength t.
Proof.
  unfold at_. destruct (0 <=? i) eqn:E1; destruct (i <? qlength t) eqn:E2;
    simpl; try discriminate.
  intros _. apply Z.leb_le in E1. apply Z.ltb_lt in E2. lia.
Qed.

Lemma startsWith_prefix (t p : QString) :
  startsWith t p = true <-> exists r, t = p ++ r.
Proof.
  revert t; induction p as [|c p IH]; intros t; simpl.
  - split; [intros _; now exists t|reflexivity].
  - destruct t as [|d t]; split.
    + discriminate.
    + intros [r H]. discriminate.
    + intros H. apply andb_true_iff in H as [H1 H2].
      apply qchar_eqb_eq in H1. apply IH in H2 as [r ->]. subst. now exists r.
    + intros [r H]. injection H as -> ->. apply andb_true_iff. split.
      * now apply qchar_eqb_eq.
      * apply IH. now exists r.
Qed.

Lemma contains_infix (t p : QString) :
  (exists a r, t = a ++ p ++ r) -> contains t p = true.
Proof.
  intros (a & r & ->). induction a as [|x a IH].
  - simpl app. destruct (p ++ r) eqn:E; simpl; apply orb_true_iff; left;
      apply startsWith_prefix; exists r; now rewrite E.
  - simpl. apply orb_true_iff. right. exact IH.
Qed.

Lemma endsWith_contains (t p : QString) :
  endsWith t p = true -> contains t p = true.
Proof.
  unfold endsWith. intros H. apply startsWith_prefix in H as [r H].
  apply contains_infix. exists (rev r), [].
  rewrite app_nil_r, <- (rev_involutive t), H, rev_app_distr.
  now rewrite rev_involutive.
Qed.

Lemma startsWith_app (t p q : QString) :
  startsWith t (p ++ q) = true -> startsWith t p = true.
Proof.
  revert t; induction p as [|c p IH]; intros t; [reflexivity|].
  destruct t as [|d t]; simpl; [discriminate|].
  intros H. apply andb_true_iff in H as [H1 H2].
  rewrite H1. simpl. now apply IH.
Qed.

(** ** What the primitives leave alone *)

Lemma frame_refl (hl : MarkdownHighlighter) : frame hl hl.
Proof.
  constructor; try reflexivity; [|now left].
  exists []. now rewrite app_nil_r.
Qed.

Lemma frame_trans (a b c : MarkdownHighlighter) :
  frame a b -> frame b c -> frame a c.
Proof.
  intros [p1 a1 c1 t1 h1 f1 [l1 s1] m1 q1] [p2 a2 c2 t2 h2 f2 [l2 s2] m2 q2].
  constructor; try congruence.
  - exists (l1 ++ l2). rewrite s2, s1. now rewrite app_assoc.
  - intros k Hk. now rewrite m2, m1.
  - assert (Hprev : previousBlock b = previousBlock a)
      by (unfold previousBlock; now rewrite c1).
    destruct q2 as [q2|(p & Hp & Hn & q2)].
    + rewrite q2. exact q1.
    + destruct q1 as [q1|(p' & Hp' & Hn' & q1)].
      * right. exists p. rewrite <- Hprev, <- q1. auto.
      * exfalso. apply Hn. rewrite q1. apply in_or_app. right.
        rewrite Hprev in Hp. left. congruence.
Qed.

Lemma frame_setFormat hl s c f : frame hl (setFormat hl s c f).
Proof. constructor; try reflexivity; [now eexists|now left]. Qed.

Lemma map_text_insert (d : list QTextBlock) (k : nat) (b : QTextBlock) (s : Z) :
  d !! k = Some b ->
  map text (<[k := mkBlock (text b) s]> d) = map text d.
Proof.
  revert k; induction d as [|x d IH]; intros [|k] H; simpl in *;
    try discriminate.
  - injection H as ->. reflexivity.
  - f_equal. now apply IH.
Qed.

Lemma frame_setUserState hl n s : frame hl (setUserState hl n s).
Proof.
  unfold setUserState. destruct n as [k|]; [|apply frame_refl].
  unfold blockAt. destruct (document hl !! k) as [b|] eqn:E; [|apply frame_refl].
  constructor; try reflexivity; [| |now left].
  - simpl. now apply map_text_insert.
  - exists []. simpl. now rewrite app_nil_r.
Qed.

Lemma frame_setCurrentBlockState hl s : frame hl (setCurrentBlockState hl s).
Proof. apply frame_setUserState. Qed.

Lemma containsBlock_In (q : list nat) (n : nat) :
  containsBlock q n = true <-> In n q.
Proof.
  unfold containsBlock. rewrite existsb_exists. split.
  - intros (x & Hx & E). apply Nat.eqb_eq in E. now subst.
  - intros H. exists n. split; [exact H|apply Nat.eqb_refl].
Qed.

(** The only block the highlighter itself puts into the queue is the one
    before the current block. *)
Lemma frame_addDirtyBlock hl p :
  previousBlock hl = Some p -> frame hl (addDirtyBlock hl p).
Proof.
  intros Hp. unfold addDirtyBlock.
  destruct (containsBlock (_dirtyTextBlocks hl) p) eqn:E; simpl;
    [apply frame_refl|].
  constructor; try reflexivity.
  - exists []. simpl. now rewrite app_nil_r.
  - right. exists p. repeat split; [exact Hp|].
    intros H. apply containsBlock_In in H. congruence.
Qed.

(** A change of the [MaskedSyntax] entry of the table. *)
Lemma frame_withFormats_masked hl f :
  frame hl (withFormats hl (setTextFormat (_formats hl) MaskedSyntax f)).
Proof.
  constructor; try reflexivity; [| |now left].
  - exists []. simpl. now rewrite app_nil_r.
  - intros k Hk. cbn [_formats withFormats]. unfold setTextFormat.
    destruct (Z.eqb_spec k MaskedSyntax) as [e|]; [now elim Hk|reflexivity].
Qed.

Lemma frame_withFormatChanges_app hl l :
  frame hl (withFormatChanges hl (formatChanges hl ++ l)).
Proof. constructor; try reflexivity; [now exists l|now left]. Qed.

Create HintDb frame discriminated.
#[export] Hint Resolve frame_refl frame_setFormat frame_setUserState
  frame_setCurrentBlockState frame_withFormats_masked : frame.

Ltac frame_step :=
  lazymatch goal with
  | |- frame ?a ?a => apply frame_refl
  | |- frame ?a (if ?c then _ else _) => destruct c
  | |- frame ?a (match ?c with _ => _ end) => destruct c
  | |- frame ?a (setFormat ?b _ _ _) =>
      apply (frame_trans a b); [|apply frame_setFormat]
  | |- frame ?a (setCurrentBlockState ?b _) =>
      apply (frame_trans a b); [|apply frame_setCurrentBlockState]
  | |- frame ?a (setUserState ?b _ _) =>
      apply (frame_trans a b); [|apply frame_setUserState]
  | |- frame ?a (withFormats ?b (setTextFormat (_formats ?b) _ _)) =>
      apply (frame_trans a b); [|apply frame_withFormats_masked]
  end.

Ltac frame_auto := repeat frame_step.

Lemma frame_underline hl t level : frame hl (underline hl t level).
Proof.
  unfold underline. cbv zeta. destruct (_ && _); [|apply frame_refl].
  match goal with
  | |- frame _ (match previousBlock ?h with _ => _ end) =>
      assert (F : frame hl h) by frame_auto;
      destruct (previousBlock h) as [p|] eqn:Ep; [|exact F];
      apply (frame_trans hl h); [exact F|now apply frame_addDirtyBlock]
  end.
Qed.

Lemma frame_highlightHeadline hl t : frame hl (highlightHeadline hl t).
Proof.
  unfold highlightHeadline. cbv zeta.
  destruct (headingFound t); [frame_auto|].
  destruct (hasOnlyHeadChars t "="%char); [apply frame_underline|].
  destruct (hasOnlyHeadChars t "-"%char); [apply frame_underline|].
  frame_auto.
Qed.

Lemma frame_highlightCommentBlock hl t : frame hl (highlightCommentBlock hl t).
Proof.
  unfold highlightCommentBlock. cbv zeta.
  destruct (_ && _); [apply frame_refl|].
  destruct (_ || _); [frame_auto|].
  destruct (endsWith _ _); frame_auto.
Qed.

Lemma frame_highlightFrontmatterBlock hl t :
  frame hl (highlightFrontmatterBlock hl t).
Proof. unfold highlightFrontmatterBlock. cbv zeta. frame_auto. Qed.

(** ** Block states *)

Lemma frame_length hl hl' :
  frame hl hl' -> length (document hl') = length (document hl).
Proof.
  intros F. pose proof (f_equal (@length _) (fr_texts _ _ F)) as E.
  now rewrite !List.length_map in E.
Qed.

Lemma blockText_of_texts hl hl' n :
  map text (document hl') = map text (document hl) ->
  blockText hl' n = blockText hl n.
Proof.
  intros E. destruct n as [k|]; [|reflexivity]. unfold blockText, blockAt.
  assert (E' : text <$> document hl' = text <$> document hl) by exact E.
  assert (H : (text <$> document hl') !! k = (text <$> document hl) !! k)
    by now rewrite E'.
  rewrite !list_lookup_fmap in H.
  destruct (document hl' !! k), (document hl !! k); simpl in H; congruence.
Qed.

Lemma frame_blockText hl hl' n :
  frame hl hl' -> blockText hl' n = blockText hl n.
Proof. intros F. apply blockText_of_texts, (fr_texts _ _ F). Qed.

Lemma frame_previousBlock hl hl' :
  frame hl hl' -> previousBlock hl' = previousBlock hl.
Proof. intros F. unfold previousBlock. now rewrite (fr_current _ _ F). Qed.

Lemma frame_nextBlock hl hl' :
  frame hl hl' -> nextBlock hl' = nextBlock hl.
Proof.
  intros F. unfold nextBlock.
  now rewrite (fr_current _ _ F), (frame_length _ _ F).
Qed.

Lemma blockState_setUserState_eq hl k s :
  (k < length (document hl))%nat ->
  blockState (setUserState hl (Some k) s) (Some k) = s.
Proof.
  intros Hk. unfold setUserState, blockState, blockAt.
  destruct (document hl !! k) as [b|] eqn:E.
  - simpl. rewrite list_lookup_insert_eq by exact Hk. reflexivity.
  - apply lookup_ge_None in E. lia.
Qed.

Lemma blockState_setUserState_ne hl k j s :
  j <> k ->
  blockState (setUserState hl (Some k) s) (Some j) = blockState hl (Some j).
Proof.
  intros Hne. unfold setUserState, blockState, blockAt.
  destruct (document hl !! k) as [b|] eqn:E; [|reflexivity].
  simpl. rewrite list_lookup_insert_ne by congruence. reflexivity.
Qed.

Lemma blockState_setUserState_cases hl k j s :
  blockState (setUserState hl (Some k) s) j = blockState hl j \/
  blockState (setUserState hl (Some k) s) j = s.
Proof.
  destruct j as [j|]; [|now left].
  destruct (Nat.eq_dec j k) as [->|Hne].
  - destruct (Nat.lt_ge_cases k (length (document hl))) as [Hk|Hk].
    + right. now apply blockState_setUserState_eq.
    + left. unfold setUserState, blockAt.
      rewrite (proj2 (lookup_ge_None _ _) Hk). reflexivity.
  - left. now apply blockState_setUserState_ne.
Qed.

Lemma currentBlockState_set hl s :
  (currentBlock hl < length (document hl))%nat ->
  currentBlockState (setCurrentBlockState hl s) = s.
Proof.
  intros H. unfold currentBlockState, setCurrentBlockState.
  rewrite (fr_current _ _ (frame_setUserState hl _ s)).
  now apply blockState_setUserState_eq.
Qed.

Lemma previousBlockState_setCurrent hl s :
  previousBlockState (setCurrentBlockState hl s) = previousBlockState hl.
Proof.
  unfold previousBlockState, setCurrentBlockState.
  rewrite (frame_previousBlock _ _ (frame_setUserState hl _ s)).
  unfold previousBlock. destruct (currentBlock hl) as [|k] eqn:E; [reflexivity|].
  apply blockState_setUserState_ne. lia.
Qed.

Lemma blockState_setFormat hl a b f n :
  blockState (setFormat hl a b f) n = blockState hl n.
Proof. reflexivity. Qed.

Lemma document_setFormat hl a b f : document (setFormat hl a b f) = document hl.
Proof. reflexivity. Qed.

Lemma formats_setUserState hl n s : _formats (setUserState hl n s) = _formats hl.
Proof.
  unfold setUserState. destruct n as [k|]; [|reflexivity].
  now destruct (blockAt hl k).
Qed.

Lemma formatChanges_setUserState hl n s :
  formatChanges (setUserState hl n s) = formatChanges hl.
Proof.
  unfold setUserState. destruct n as [k|]; [|reflexivity].
  now destruct (blockAt hl k).
Qed.

Lemma dirty_setUserState hl n s :
  _dirtyTextBlocks (setUserState hl n s) = _dirtyTextBlocks hl.
Proof.
  unfold setUserState. destruct n as [k|]; [|reflexivity].
  now destruct (blockAt hl k).
Qed.

(** ** The scanner never reads outside of the text and always ends *)

Lemma extends_refl out : extends out out.
Proof. exists []. now rewrite app_nil_r. Qed.

Lemma extends_trans a b c : extends a b -> extends b c -> extends a c.
Proof. intros [l1 ->] [l2 ->]. exists (l1 ++ l2). now rewrite app_assoc. Qed.

Lemma extends_emit out s c f : extends out (emit out s c f).
Proof. now eexists. Qed.

Lemma extends_emit_r a b s c f : extends a b -> extends a (emit b s c f).
Proof. intros H. eapply extends_trans; [exact H|apply extends_emit]. Qed.

#[export] Hint Resolve extends_refl extends_emit extends_emit_r : frame.

Lemma dquoteLoop_ok (fuel : nat) (t : QString) :
  forall i cnt,
    0 <= i < qlength t -> qlength t - i <= Z.of_nat fuel ->
    exists i' cnt', dquoteLoop fuel t i cnt = Ok (i', cnt') /\ i < i' <= qlength t.
Proof.
  induction fuel as [|n IH]; intros i cnt Hi Hf; [lia|].
  cbn [dquoteLoop].
  destruct (Z.ltb_spec i (qlength t)); [|lia].
  destruct (at_in_range t i Hi) as [c ->].
  destruct (qchar_eqb c dquote).
  - eexists _, _. split; [reflexivity|lia].
  - destruct (Z.leb_spec (qlength t) (i + 1 + 1)).
    + eexists _, _. split; [reflexivity|lia].
    + destruct (IH (i + 1) (cnt + 1)) as (i' & cnt' & E & Hr); [lia|lia|].
      exists i', cnt'. split; [exact E|lia].
Qed.

Lemma squoteLoop_ok (fuel : nat) (t : QString) :
  forall i cnt,
    0 <= i < qlength t -> qlength t - i <= Z.of_nat fuel ->
    exists i' cnt', squoteLoop fuel t i cnt = Ok (i', cnt') /\ i <= i' <= qlength t.
Proof.
  induction fuel as [|n IH]; intros i cnt Hi Hf; [lia|].
  cbn [squoteLoop].
  destruct (Z.ltb_spec i (qlength t)); [|lia].
  destruct (at_in_range t i Hi) as [c ->].
  destruct (qchar_eqb c squote).
  - eexists _, _. split; [reflexivity|lia].
  - destruct (Z.leb_spec (qlength t) (i + 1)).
    + eexists _, _. split; [reflexivity|lia].
    + destruct (IH (i + 1) (cnt + 1)) as (i' & cnt' & E & Hr); [lia|lia|].
      exists i', cnt'. split; [exact E|lia].
Qed.

Lemma whileExit_ok_weaken t i j out out' e :
  i <= j -> extends out out' -> whileExit_ok t j out' e -> whileExit_ok t i out e.
Proof.
  intros Hij Hx. destruct e; simpl.
  - intros [H1 H2]. split; [lia|]. eapply extends_trans; eauto.
  - intros H. eapply extends_trans; eauto.
Qed.

Lemma whileNotLetter_ok (fuel : nat) (t : QString) :
  forall i f out,
    0 <= i < qlength t -> qlength t - i <= Z.of_nat fuel ->
    exists e, whileNotLetter fuel t i f out = Ok e /\ whileExit_ok t i out e.
Proof.
  induction fuel as [|n IH]; intros i f out Hi Hf; [lia|].
  assert (Hrest : forall j g o, i <= j < qlength t -> extends out o ->
            exists e,
              (if qlength t <=? j + 1 then Ok (Returned o)
               else whileNotLetter n t (j + 1) g o) = Ok e /\
              whileExit_ok t i out e).
  { intros j g o Hj Ho. destruct (Z.leb_spec (qlength t) (j + 1)).
    - eexists. split; [reflexivity|exact Ho].
    - destruct (IH (j + 1) g o) as (e & E & He); [lia|lia|].
      exists e. split; [exact E|].
      eapply whileExit_ok_weaken; [| |exact He]; [lia|exact Ho]. }
  assert (Hnext : forall g, i + 1 < qlength t ->
            exists e, whileNotLetter n t (i + 1) g out = Ok e /\
                      whileExit_ok t i out e).
  { intros g Hlt. destruct (IH (i + 1) g out) as (e & E & He); [lia|lia|].
    exists e. split; [exact E|].
    eapply whileExit_ok_weaken; [| |exact He]; [lia|apply extends_refl]. }
  cbn [whileNotLetter]. cbv zeta.
  destruct (at_in_range t i Hi) as [c ->].
  destruct (isLetter c).
  { eexists. split; [reflexivity|]. simpl. split; [lia|apply extends_refl]. }
  destruct (qchar_eqb c "/"%char).
  { destruct (Z.ltb_spec (i + 1) (qlength t)).
    - destruct (at_in_range t (i + 1)) as [d ->]; [lia|].
      destruct (qchar_eqb d "/"%char).
      { eexists. split; [reflexivity|]. simpl. auto with frame. }
      destruct (qchar_eqb d "*"%char).
      { destruct (indexOf t (qs "*/") =? -1);
          (eexists; split; [reflexivity|]; simpl; auto with frame). }
      eexists. split; [reflexivity|]. simpl. auto with frame.
    - eexists. split; [reflexivity|]. simpl. auto with frame. }
  destruct (isNumber c).
  { destruct (Z.ltb_spec (i + 1) (qlength t)); simpl andb.
    - destruct (0 <? i - 1) eqn:Ei.
      + apply Z.ltb_lt in Ei.
        destruct (at_in_range t (i + 1)) as [a ->]; [lia|].
        destruct (isLetter a); [now apply Hnext|].
        destruct (at_in_range t (i - 1)) as [b ->]; [lia|].
        destruct (isLetter b); [now apply Hnext|].
        apply Hrest; [lia|auto with frame].
      + apply Hrest; [lia|auto with frame].
    - apply Hrest; [lia|auto with frame]. }
  destruct (qchar_eqb c dquote).
  { destruct (Z.leb_spec (qlength t) (i + 1 + 1)).
    - eexists. split; [reflexivity|]. simpl. auto with frame.
    - destruct (dquoteLoop_ok (length t) t (i + 1) 1) as (i' & cnt' & -> & Hr);
        [lia|unfold qlength; lia|].
      destruct (Z.eq_dec i' (qlength t)) as [->|Hne].
      + destruct (Z.leb_spec (qlength t) (qlength t + 1)); [|lia].
        eexists. split; [reflexivity|]. simpl. auto with frame.
      + apply Hrest; [lia|auto with frame]. }
  destruct (qchar_eqb c squote).
  { destruct (Z.leb_spec (qlength t) (i + 1 + 1)).
    - eexists. split; [reflexivity|]. simpl. auto with frame.
    - destruct (squoteLoop_ok (length t) t (i + 1) 1) as (i' & cnt' & -> & Hr);
        [lia|unfold qlength; lia|].
      destruct (Z.eq_dec i' (qlength t)) as [->|Hne].
      + destruct (Z.leb_spec (qlength t) (qlength t + 1)); [|lia].
        eexists. split; [reflexivity|]. simpl. auto with frame.
      + apply Hrest; [lia|auto with frame]. }
  apply Hrest; [lia|auto with frame].
Qed.

Lemma tokenLoop_ok (toks : list QString) (color : QColor) (t : QString) :
  forall i f out,
    0 <= i ->
    exists i' f' out',
      tokenLoop toks color t i f out = Ok (i', f', out') /\
      i <= i' /\ extends out out'.
Proof.
  induction toks as [|tk toks IH]; intros i f out Hi.
  - eexists _, _, _. split; [reflexivity|]. split; [lia|apply extends_refl].
  - assert (Hpaint : forall g,
              exists i' f' out',
                tokenLoop toks color t (i + qlength tk) g
                          (emit out i (qlength tk) g) = Ok (i', f', out') /\
                i <= i' /\ extends out out').
    { intros g. pose proof (qlength_nonneg tk).
      destruct (IH (i + qlength tk) g (emit out i (qlength tk) g))
        as (i' & f' & out' & E & Hle & Hx); [lia|].
      exists i', f', out'. split; [exact E|]. split; [lia|].
      eapply extends_trans; [apply extends_emit|exact Hx]. }
    cbn [tokenLoop]. cbv zeta.
    destruct (qstring_eqb tk (midRef t i (qlength tk))); [|now apply IH].
    destruct (Z.ltb_spec (i + qlength tk) (qlength t)); simpl andb;
      [|apply Hpaint].
    destruct (0 <? i) eqn:Ei; [|apply Hpaint].
    apply Z.ltb_lt in Ei. pose proof (qlength_nonneg tk).
    destruct (at_in_range t (i + qlength tk)) as [a ->]; [lia|].
    destruct (isLetter a); [now apply IH|].
    destruct (at_in_range t (i - 1)) as [b ->]; [lia|].
    destruct (isLetter b); [now apply IH|apply Hpaint].
Qed.

Lemma forLoop_ok (types keywords preproc : list QString) (t : QString)
      (fuel : nat) :
  forall i f out,
    0 <= i -> Z.max 0 (qlength t - i) < Z.of_nat fuel ->
    exists out',
      forLoop fuel types keywords preproc t i f out = Ok out' /\
      extends out out'.
Proof.
  induction fuel as [|n IH]; intros i f out Hi Hf; [lia|].
  cbn [forLoop].
  destruct (Z.ltb_spec i (qlength t)).
  - destruct (whileNotLetter_ok (length t) t i f out) as (e & -> & He);
      [lia|unfold qlength; lia|].
    cbn [bindO]. destruct e as [i1 f1 out1|out1]; simpl in He.
    + destruct He as [Hi1 Hx1].
      destruct (tokenLoop_ok types darkBlue t i1 f1 out1)
        as (i2 & f2 & out2 & -> & Hi2 & Hx2); [lia|].
      cbn [bindO].
      destruct (tokenLoop_ok keywords cyan t i2 f2 out2)
        as (i3 & f3 & out3 & -> & Hi3 & Hx3); [lia|].
      cbn [bindO].
      destruct (tokenLoop_ok preproc magenta t i3 f3 out3)
        as (i4 & f4 & out4 & -> & Hi4 & Hx4); [lia|].
      cbn [bindO].
      destruct (IH (i4 + 1) f4 out4) as (out' & E & Hx); [lia|lia|].
      exists out'. split; [exact E|].
      repeat (eapply extends_trans; [eassumption|]). apply extends_refl.
    + exists out1. split; [reflexivity|exact He].
  - exists out. split; [reflexivity|apply extends_refl].
Qed.

(** The scanner succeeds on every text: no access outside of the text, and
    the loops end within the rounds they were given.  It only adds calls of
    [setFormat]. *)
Lemma highlightSyntaxChecked_ok (hl : MarkdownHighlighter) (t : QString) :
  exists l,
    highlightSyntaxChecked hl t =
    Ok (withFormatChanges hl (formatChanges hl ++ l)).
Proof.
  unfold highlightSyntaxChecked. destruct t as [|c t'].
  - exists []. rewrite app_nil_r. now destruct hl.
  - generalize (c :: t'). intros t.
    destruct (currentBlockState hl =? CodeCpp); cbv zeta;
      match goal with
      | |- context [forLoop ?n ?a ?b ?c ?t ?i ?f ?o] =>
          destruct (forLoop_ok a b c t n i f o) as (out' & -> & [l ->]);
            [lia|unfold qlength; lia|]
      end;
      cbn [bindO]; unfold emit; rewrite <- app_assoc; now eexists.
Qed.

Lemma highlightSyntax_spec (hl : MarkdownHighlighter) (t : QString) :
  highlightSyntaxChecked hl t = Ok (highlightSyntax hl t).
Proof.
  unfold highlightSyntax.
  destruct (highlightSyntaxChecked_ok hl t) as [l E]. now rewrite E.
Qed.

Lemma highlightSyntax_eq (hl : MarkdownHighlighter) (t : QString) :
  exists l, highlightSyntax hl t = withFormatChanges hl (formatChanges hl ++ l).
Proof.
  destruct (highlightSyntaxChecked_ok hl t) as [l E]. exists l.
  unfold highlightSyntax. now rewrite E.
Qed.

Lemma frame_highlightSyntax hl t : frame hl (highlightSyntax hl t).
Proof.
  destruct (highlightSyntax_eq hl t) as [l ->].
  apply frame_withFormatChanges_app.
Qed.

Lemma frame_highlightCodeBlock hl t : frame hl (highlightCodeBlock hl t).
Proof.
  unfold highlightCodeBlock. cbv zeta.
  destruct (startsWith t fence).
  - frame_auto.
  - destruct (_ || _); [|apply frame_refl].
    destruct (previousBlockState hl =? CodeCpp).
    + eapply frame_trans; [|apply frame_highlightSyntax]. frame_auto.
    + destruct (previousBlockState hl =? CodeJs).
      * eapply frame_trans; [|apply frame_highlightSyntax]. frame_auto.
      * frame_auto.
Qed.

(** ** String literals in the scanner (C5) *)

Lemma dquoteLoop_unterminated (fuel : nat) (t : QString) :
  forall i cnt,
    0 <= i -> i + 1 < qlength t -> qlength t - i <= Z.of_nat fuel ->
    (forall j, i <= j < qlength t - 1 -> at_ t j <> Some dquote) ->
    dquoteLoop fuel t i cnt = Ok (qlength t - 1, cnt + (qlength t - i)).
Proof.
  induction fuel as [|n IH]; intros i cnt Hi Hlt Hf Hno; [lia|].
  cbn [dquoteLoop].
  destruct (Z.ltb_spec i (qlength t)); [|lia].
  destruct (at_in_range t i) as [c Ec]; [lia|]. rewrite Ec.
  destruct (qchar_eqb c dquote) eqn:Eq.
  - apply qchar_eqb_eq in Eq. subst c. exfalso. apply (Hno i); [lia|exact Ec].
  - destruct (Z.leb_spec (qlength t) (i + 1 + 1)).
    + do 2 f_equal; lia.
    + rewrite (IH (i + 1) (cnt + 1)); [do 2 f_equal; lia|lia|lia|lia|].
      intros j Hj. apply Hno. lia.
Qed.

Lemma dquote_not_special :
  isLetter dquote = false /\ qchar_eqb dquote "/"%char = false /\
  isNumber dquote = false /\ qchar_eqb dquote dquote = true.
Proof. repeat split. Qed.

(** The string branch of the [while] loop at an opening quote with at least
    two characters after it and no further quote before the last character:
    one span from the quote to the end of the line, then [return]. *)
Lemma whileNotLetter_unterminated (fuel : nat) (t : QString) (p : Z)
      (f : QTextCharFormat) (out : list Span) :
  at_ t p = Some dquote ->
  p + 2 < qlength t ->
  (forall j, p < j < qlength t - 1 -> at_ t j <> Some dquote) ->
  whileNotLetter (S fuel) t p f out =
  Ok (Returned (emit out p (qlength t - p) (setForeground f darkGreen))).
Proof.
  intros Hq Hlen Hno. pose proof (at_Some_range _ _ _ Hq) as Hp.
  destruct dquote_not_special as (L & S & N & Q).
  cbn [whileNotLetter]. cbv zeta. rewrite Hq, L, S, N, Q.
  destruct (Z.leb_spec (qlength t) (p + 1 + 1)); [lia|].
  rewrite (dquoteLoop_unterminated (length t) t (p + 1) 1);
    [|lia|lia|unfold qlength; lia|intros j Hj; apply Hno; lia].
  destruct (Z.leb_spec (qlength t) (qlength t - 1 + 1)); [|lia].
  do 3 f_equal. lia.
Qed.

(** At an opening quote with fewer than two characters after it the scan of
    the line stops, and nothing is painted for the quote. *)
Lemma whileNotLetter_short_string (fuel : nat) (t : QString) (p : Z)
      (f : QTextCharFormat) (out : list Span) :
  at_ t p = Some dquote ->
  qlength t <= p + 2 ->
  whileNotLetter (S fuel) t p f out = Ok (Returned out).
Proof.
  intros Hq Hlen. destruct dquote_not_special as (L & S & N & Q).
  cbn [whileNotLetter]. cbv zeta. rewrite Hq, L, S, N, Q.
  destruct (Z.leb_spec (qlength t) (p + 1 + 1)); [reflexivity|lia].
Qed.

(** C5, as the code has it.  The example line of a cpp block gets the
    string-literal span from its opening quote (offset 8) to the end of the
    line (13 characters).  In general the string branch, entered at an opening
    quote at [p] with at least two characters after it and no other quote
    before the last character, paints from [p] to the end of the line and
    ends the scan; and for every line of every highlighter the scan succeeds:
    no character is read outside of the text and the loops end. *)
Theorem scanner_unterminated_string :
  formatChanges (cppLine unterminatedExample) =
    [ mkSpan 0 21 (_formats (cppLine unterminatedExample) CodeBlock);
      mkSpan 0 3 (setForeground (_formats (cppLine unterminatedExample) CodeBlock)
                                darkBlue);
      mkSpan 8 13 (stringFormat (cppLine unterminatedExample)) ] /\
  (forall (fuel : nat) (t : QString) (p : Z) (f : QTextCharFormat)
          (out : list Span),
      at_ t p = Some dquote ->
      p + 2 < qlength t ->
      (forall j, p < j < qlength t - 1 -> at_ t j <> Some dquote) ->
      whileNotLetter (S fuel) t p f out =
      Ok (Returned (emit out p (qlength t - p) (setForeground f darkGreen)))) /\
  (forall (hl : MarkdownHighlighter) (t : QString),
      exists l,
        highlightSyntaxChecked hl t =
        Ok (withFormatChanges hl (formatChanges hl ++ l))).
Proof.
  split; [vm_compute; reflexivity|]. split.
  - intros. now apply whileNotLetter_unterminated.
  - apply highlightSyntaxChecked_ok.
Qed.

(** The general case of [scanner_unterminated_string] at the quote of the
    example line. *)
Lemma scanner_unterminated_string_witness :
  whileNotLetter 1 unterminatedExample 8 emptyFormat [] =
  Ok (Returned [mkSpan 8 13 (setForeground emptyFormat darkGreen)]).
Proof.
  destruct scanner_unterminated_string as (_ & H & _).
  apply (H 0%nat unterminatedExample 8 emptyFormat []).
  - reflexivity.
  - vm_compute. reflexivity.
  - intros j Hj. change (qlength unterminatedExample) with 21 in Hj.
    assert (E : j = 9 \/ j = 10 \/ j = 11 \/ j = 12 \/ j = 13 \/ j = 14 \/
                j = 15 \/ j = 16 \/ j = 17 \/ j = 18 \/ j = 19) by lia.
    repeat (destruct E as [->|E]; [discriminate|]). subst j. discriminate.
Defined.

(** C5 as stated fails on a line of a cpp block whose opening quote is the
    last character but one: the scan stops at the quote and the line gets the
    code-block span only, no string-literal span. *)
Lemma short_unterminated_string_counterexample :
  at_ shortUnterminated 4 = Some dquote /\
  contains (skipn 5 shortUnterminated) [dquote] = false /\
  currentBlockState (cppLine shortUnterminated) = CodeCpp /\
  formatChanges (cppLine shortUnterminated) =
    [ mkSpan 0 6 (_formats (cppLine shortUnterminated) CodeBlock) ].
Proof. vm_compute. repeat split. Qed.

(** ** ATX headlines (C1) *)

Lemma countHashes_beyond (t : QString) :
  forall k, (length t <= k)%nat -> countHashes t k = countHashes t (length t).
Proof.
  induction t as [|c t IH]; intros [|k] H; simpl in *; try reflexivity; try lia.
  f_equal. apply IH. lia.
Qed.

(** Counting over [min 6 (length t)] characters is counting over six. *)
Lemma countHashes_first_six (t : QString) :
  countHashes t (Z.to_nat (if 6 <? qlength t then 6 else qlength t)) =
  countHashes t 6.
Proof.
  destruct (Z.ltb_spec 6 (qlength t)) as [H|H]; [reflexivity|].
  unfold qlength in *. rewrite Nat2Z.id.
  symmetry. apply countHashes_beyond. lia.
Qed.

(** C1, as the code has it.  For a line of [n] hashes (1 to 6), a space and a
    rest that has no further hash among the first six characters of the line:
    the headline step paints the whole line masked (in the heading's point
    size), then the line from offset [n] on, separator included, in the
    format of heading level [n], and the state of the line is that level.
    For ["# Title"] the whole classification paints (0, 7) masked and (1, 6)
    as H1, and the state is H1. *)
Theorem atx_heading_spans (hl : MarkdownHighlighter) (n : nat) (rest : QString) :
  (1 <= n <= 6)%nat ->
  countHashes rest (5 - n) = 0 ->
  (currentBlock hl < length (document hl))%nat ->
  let t := headingLine n rest in
  let level := H1 + Z.of_nat n - 1 in
  formatChanges (highlightHeadline hl t) =
    formatChanges hl ++
    [ mkSpan 0 (qlength t) (maskedFor hl level);
      mkSpan (Z.of_nat n) (qlength t - Z.of_nat n) (_formats hl level) ] /\
  currentBlockState (highlightHeadline hl t) = level /\
  formatChanges titleLine =
    [ mkSpan 0 7 (maskedFor titleLine H1); mkSpan 1 6 (_formats titleLine H1) ] /\
  currentBlockState titleLine = H1.
Proof.
  intros Hn Hrest Hcur t level.
  assert (Hfound : headingFound t = true).
  { subst t. unfold headingLine.
    destruct n as [|[|[|[|[|[|[|n]]]]]]]; try lia; reflexivity. }
  assert (Hcount : countHashes t 6 = Z.of_nat n).
  { subst t. unfold headingLine.
    destruct n as [|[|[|[|[|[|[|n]]]]]]]; try lia;
      cbn -[Z.add Z.of_nat]; cbn in Hrest; rewrite ?Hrest; reflexivity. }
  unfold highlightHeadline. rewrite Hfound. cbv zeta.
  rewrite countHashes_first_six, Hcount. fold level.
  split; [|split; [|split]].
  - unfold setCurrentBlockState. rewrite formatChanges_setUserState.
    unfold setFormat, emit, maskedFor. simpl. now rewrite <- app_assoc.
  - apply currentBlockState_set. exact Hcur.
  - vm_compute. reflexivity.
  - vm_compute. reflexivity.
Qed.

(** [atx_heading_spans] at ["# Title"] on a one-line document. *)
Lemma atx_heading_spans_witness :
  let hl := newHighlighter false 12 monospace10 [qs "# Title"] in
  formatChanges (highlightHeadline hl (qs "# Title")) =
    [ mkSpan 0 7 (maskedFor hl H1); mkSpan 1 6 (_formats hl H1) ] /\
  currentBlockState (highlightHeadline hl (qs "# Title")) = H1.
Proof.
  intros hl.
  destruct (atx_heading_spans hl 1 (qs "Title")) as (A & B & _);
    [lia|reflexivity|simpl; lia|].
  split; [exact A|exact B].
Defined.

(** C1 as stated fails on ["# Title"]: no call paints exactly the two
    characters of ["# "] or exactly the five of ["Title"]; the separator (the
    character at offset 1) ends up in the H1 format, which is not the masked
    one, and only the hash at offset 0 stays masked. *)
Lemma title_masked_span_counterexample :
  map (fun s => (sp_start s, sp_count s)) (formatChanges titleLine) =
    [(0, 7); (1, 6)] /\
  formatAt 7 (formatChanges titleLine) 0 = maskedFor titleLine H1 /\
  formatAt 7 (formatChanges titleLine) 1 = _formats titleLine H1 /\
  format_eqb (_formats titleLine H1) (maskedFor titleLine H1) = false.
Proof. vm_compute. repeat split. Qed.

(** ** The states a classification assigns *)

Lemma fold_left_invariant {A B} (P : A -> Prop) (g : A -> B -> A) (l : list B) :
  (forall a x, P a -> P (g a x)) -> forall a, P a -> P (fold_left g l a).
Proof. intros Hg. induction l as [|x l IH]; simpl; auto. Qed.

Lemma fold_left_invariant_in {A B} (P : A -> Prop) (g : A -> B -> A) (l : list B) :
  (forall a x, In x l -> P a -> P (g a x)) -> forall a, P a -> P (fold_left g l a).
Proof.
  induction l as [|x l IH]; simpl; intros Hg a Ha; [exact Ha|].
  apply IH; [intros; apply Hg; auto|apply Hg; auto].
Qed.

Lemma countHashes_le (t : QString) (k : nat) : 0 <= countHashes t k <= Z.of_nat k.
Proof.
  revert t; induction k as [|k IH]; intros [|c t]; simpl countHashes; try lia.
  specialize (IH t). destruct (qchar_eqb c hash); lia.
Qed.

Lemma startsWith_hash_count (t : QString) :
  startsWith t [hash] = true -> 1 <= countHashes t 6.
Proof.
  destruct t as [|c t]; cbn [startsWith]; [discriminate|].
  intros H. apply andb_true_iff in H as [H _]. apply qchar_eqb_eq in H.
  subst c. cbn [countHashes].
  replace (qchar_eqb hash hash) with true by reflexivity.
  pose proof (countHashes_le t 5). lia.
Qed.

(** A line that is found to be a headline has between one and six hashes
    among its first six characters. *)
Lemma headingFound_count (t : QString) :
  headingFound t = true -> 1 <= countHashes t 6 <= 6.
Proof.
  intros H. split; [|apply (countHashes_le t 6)].
  apply startsWith_hash_count. unfold headingFound in H.
  repeat (apply orb_true_iff in H as [H|H]);
    match type of H with
    | startsWith t (qs ?s) = true =>
        apply (startsWith_app t [hash] (tl (qs s))); exact H
    end.
Qed.

Lemma headingState_core (t : QString) :
  headingFound t = true -> In (H1 + countHashes t 6 - 1) coreStates.
Proof.
  intros H. apply headingFound_count in H.
  assert (E : countHashes t 6 = 1 \/ countHashes t 6 = 2 \/ countHashes t 6 = 3 \/
              countHashes t 6 = 4 \/ countHashes t 6 = 5 \/ countHashes t 6 = 6)
    by lia.
  repeat (destruct E as [E|E]; [rewrite E; simpl; tauto|]).
  rewrite E. simpl. tauto.
Qed.

Section States.

Variable Q : Z -> Prop.
Hypothesis Q_core : forall s, In s coreStates -> Q s.

Lemma statesIn_setUserState hl n s :
  Q s -> statesIn Q hl -> statesIn Q (setUserState hl n s).
Proof.
  intros Hs H. unfold setUserState. destruct n as [k|]; [|exact H].
  destruct (blockAt hl k) as [b|]; [|exact H].
  unfold statesIn. simpl. apply Forall_insert; [exact H|exact Hs].
Qed.

Lemma statesIn_document hl hl' :
  document hl' = document hl -> statesIn Q hl -> statesIn Q hl'.
Proof. unfold statesIn. now intros ->. Qed.

Ltac states_step :=
  lazymatch goal with
  | |- statesIn Q (if ?c then _ else _) => destruct c
  | |- statesIn Q (match ?c with _ => _ end) => destruct c
  | |- statesIn Q (setFormat ?b _ _ _) => change (statesIn Q b)
  | |- statesIn Q (addDirtyBlock ?b _) =>
      apply (statesIn_document b);
        [unfold addDirtyBlock; now destruct (negb _)|]
  | |- statesIn Q (withFormats ?b _) => change (statesIn Q b)
  | |- statesIn Q (setCurrentBlockState ?b _) =>
      apply statesIn_setUserState; [apply Q_core; simpl; tauto|]
  | |- statesIn Q (setUserState ?b _ _) =>
      apply statesIn_setUserState; [apply Q_core; simpl; tauto|]
  end.

Lemma statesIn_underline hl t (level : HighlighterState) :
  level = H1 \/ level = H2 ->
  statesIn Q hl -> statesIn Q (underline hl t level).
Proof.
  intros Hl H. unfold underline. cbv zeta.
  destruct Hl as [-> | ->]; repeat states_step; exact H.
Qed.

Lemma statesIn_highlightHeadline hl t :
  statesIn Q hl -> statesIn Q (highlightHeadline hl t).
Proof.
  intros H. unfold highlightHeadline. cbv zeta.
  destruct (headingFound t) eqn:Ef.
  - rewrite countHashes_first_six.
    apply statesIn_setUserState; [apply Q_core; now apply headingState_core|].
    exact H.
  - destruct (hasOnlyHeadChars t "="%char); [apply statesIn_underline; auto|].
    destruct (hasOnlyHeadChars t "-"%char); [apply statesIn_underline; auto|].
    repeat states_step; exact H.
Qed.

Lemma statesIn_highlightCommentBlock hl t :
  statesIn Q hl -> statesIn Q (highlightCommentBlock hl t).
Proof.
  intros H. unfold highlightCommentBlock. cbv zeta.
  destruct (_ && _); [exact H|].
  destruct (_ || _); [repeat states_step; exact H|].
  destruct (endsWith _ _); repeat states_step; exact H.
Qed.

Lemma statesIn_highlightSyntax hl t :
  statesIn Q hl -> statesIn Q (highlightSyntax hl t).
Proof.
  destruct (highlightSyntax_eq hl t) as [l ->]. exact (fun H => H).
Qed.

Lemma statesIn_highlightCodeBlock hl t :
  statesIn Q hl -> statesIn Q (highlightCodeBlock hl t).
Proof.
  intros H. unfold highlightCodeBlock. cbv zeta.
  destruct (startsWith t fence); [repeat states_step; exact H|].
  destruct (_ || _); [|exact H].
  destruct (previousBlockState hl =? CodeCpp).
  { apply statesIn_highlightSyntax. repeat states_step. exact H. }
  destruct (previousBlockState hl =? CodeJs).
  { apply statesIn_highlightSyntax. repeat states_step. exact H. }
  repeat states_step. exact H.
Qed.

End States.

(** ** The whole classification of a block, for any pattern matcher *)

Lemma listOnly_pre (b : bool) : listOnly (highlightingRulesPre b).
Proof. unfold listOnly. repeat constructor; simpl; congruence. Qed.

Lemma listOnly_after : listOnly highlightingRulesAfter.
Proof. unfold listOnly. repeat constructor; simpl; congruence. Qed.

Section EngineFacts.

Variable globalMatch : QRegularExpression -> QString -> list QRegularExpressionMatch.

Lemma frame_setHeadingStyles hl f m g : frame hl (setHeadingStyles hl f m g).
Proof. unfold setHeadingStyles. cbv zeta. frame_auto. Qed.

Lemma frame_highlightMatch r hl m : frame hl (highlightMatch r hl m).
Proof.
  unfold highlightMatch. cbv zeta.
  destruct (_ && _).
  - eapply frame_trans; [|apply frame_setHeadingStyles]. frame_auto.
  - frame_auto.
Qed.

Lemma frame_fold_left {B} (g : MarkdownHighlighter -> B -> MarkdownHighlighter)
      (l : list B) :
  (forall h x, frame h (g h x)) -> forall hl, frame hl (fold_left g l hl).
Proof.
  intros Hg. induction l as [|x l IH]; intros hl; simpl; [apply frame_refl|].
  eapply frame_trans; [apply Hg|apply IH].
Qed.

Lemma frame_highlightRule t hl r : frame hl (highlightRule globalMatch t hl r).
Proof.
  unfold highlightRule. destruct (_ && _); [apply frame_refl|]. cbv zeta.
  eapply frame_trans; [|apply frame_fold_left, frame_highlightMatch].
  frame_auto.
Qed.

Lemma frame_highlightAdditionalRules hl rules t :
  frame hl (highlightAdditionalRules globalMatch hl rules t).
Proof. apply frame_fold_left. intros. apply frame_highlightRule. Qed.

Lemma frame_highlightMarkdown hl t : frame hl (highlightMarkdown globalMatch hl t).
Proof.
  unfold highlightMarkdown. cbv zeta.
  eapply frame_trans; [|apply frame_highlightFrontmatterBlock].
  eapply frame_trans; [|apply frame_highlightCodeBlock].
  eapply frame_trans; [|apply frame_highlightCommentBlock].
  destruct t as [|c t]; [apply frame_refl|].
  eapply frame_trans; [|apply frame_highlightAdditionalRules].
  eapply frame_trans; [|apply frame_highlightHeadline].
  apply frame_highlightAdditionalRules.
Qed.

Section StatesOfRules.

Variable Q : Z -> Prop.
Hypothesis Q_core : forall s, In s coreStates -> Q s.

Lemma statesIn_highlightMatch r hl m :
  statesIn Q hl -> statesIn Q (highlightMatch r hl m).
Proof.
  apply statesIn_document. unfold highlightMatch, setHeadingStyles. cbv zeta.
  repeat match goal with
         | |- context [if ?c then _ else _] => destruct c
         end; reflexivity.
Qed.

Lemma statesIn_highlightRule t hl r :
  (useStateAsCurrentBlockState r = true -> state r = List) ->
  statesIn Q hl -> statesIn Q (highlightRule globalMatch t hl r).
Proof.
  intros Hr H. unfold highlightRule. destruct (_ && _); [exact H|]. cbv zeta.
  apply fold_left_invariant; [intros; now apply statesIn_highlightMatch|].
  destruct (globalMatch (pattern r) t); [exact H|].
  destruct (useStateAsCurrentBlockState r); [|exact H].
  rewrite Hr by reflexivity.
  apply statesIn_setUserState; [apply Q_core; simpl; tauto|exact H].
Qed.

Lemma statesIn_highlightAdditionalRules hl rules t :
  listOnly rules ->
  statesIn Q hl -> statesIn Q (highlightAdditionalRules globalMatch hl rules t).
Proof.
  intros Hr. unfold highlightAdditionalRules.
  apply fold_left_invariant_in. intros a r Hin.
  apply statesIn_highlightRule. exact (proj1 (List.Forall_forall _ _) Hr r Hin).
Qed.

(** Up to the front-matter step, a classification only writes states of
    [coreStates]. *)
Lemma statesIn_beforeFrontmatter hl t :
  listOnly (_highlightingRulesPre hl) ->
  listOnly (_highlightingRulesAfter hl) ->
  statesIn Q hl ->
  statesIn Q
    (highlightCodeBlock
       (highlightCommentBlock
          match t with
          | [] => hl
          | _ =>
              highlightAdditionalRules globalMatch
                (highlightHeadline
                   (highlightAdditionalRules globalMatch hl
                      (_highlightingRulesPre hl) t) t)
                (_highlightingRulesAfter
                   (highlightHeadline
                      (highlightAdditionalRules globalMatch hl
                         (_highlightingRulesPre hl) t) t)) t
          end t) t).
Proof.
  intros Hpre Hafter H.
  apply statesIn_highlightCodeBlock; [exact Q_core|].
  apply statesIn_highlightCommentBlock; [exact Q_core|].
  destruct t as [|c t]; [exact H|].
  apply statesIn_highlightAdditionalRules.
  - rewrite (fr_after _ _ (frame_highlightHeadline _ _)).
    rewrite (fr_after _ _ (frame_highlightAdditionalRules _ _ _)).
    exact Hafter.
  - apply statesIn_highlightHeadline; [exact Q_core|].
    now apply statesIn_highlightAdditionalRules.
Qed.

End StatesOfRules.

End EngineFacts.

(** ** Front matter needs a first block of three dashes (C7) *)

Lemma notFrontmatter_core (s : Z) : In s coreStates -> notFrontmatter s.
Proof.
  unfold coreStates, notFrontmatter. simpl.
  intros H. repeat (destruct H as [<-|H]; [split; discriminate|]). contradiction.
Qed.

Lemma highlightFrontmatterBlock_no_dashes (hl : MarkdownHighlighter) (t : QString) :
  firstBlockText hl <> dashes -> highlightFrontmatterBlock hl t = hl.
Proof.
  intros H. unfold highlightFrontmatterBlock.
  destruct (qstring_eqb (firstBlockText hl) dashes) eqn:E; [|reflexivity].
  apply qstring_eqb_eq in E. contradiction.
Qed.

Section Frontmatter.

Variable globalMatch : QRegularExpression -> QString -> list QRegularExpressionMatch.

Lemma sameSetup_of_frame hl hl' : frame hl hl' -> sameSetup hl hl'.
Proof. intros F. repeat split; apply F. Qed.

Lemma sameSetup_highlightBlock hl t :
  sameSetup hl (highlightBlock globalMatch hl t).
Proof.
  unfold highlightBlock. cbv zeta.
  match goal with
  | |- sameSetup _ (mkHL _ _ _ _ _ _ _ _ (_ ++ [currentBlock ?h])) =>
      assert (F : frame hl h)
  end.
  { eapply frame_trans; [|apply frame_highlightMarkdown].
    eapply frame_trans; [apply frame_setCurrentBlockState|apply frame_setUserState]. }
  repeat split; apply F.
Qed.

Lemma sameSetup_rehighlightBlock hl n :
  sameSetup hl (rehighlightBlock globalMatch hl n).
Proof.
  unfold rehighlightBlock. destruct (blockAt hl n) as [b|]; [|now repeat split].
  apply (sameSetup_highlightBlock
           (mkHL (_highlightingRulesPre hl) (_highlightingRulesAfter hl)
                 (_formats hl) (_dirtyTextBlocks hl) (_highlightingFinished hl)
                 (document hl) n [] (highlighted hl))).
Qed.

Lemma notFrontmatter_highlightMarkdown hl t :
  initialRules hl ->
  firstBlockText hl <> dashes ->
  statesIn notFrontmatter hl ->
  statesIn notFrontmatter (highlightMarkdown globalMatch hl t).
Proof.
  intros (b & Hpre & Hafter) Hfirst H. unfold highlightMarkdown. cbv zeta.
  rewrite highlightFrontmatterBlock_no_dashes.
  - apply statesIn_beforeFrontmatter; [exact notFrontmatter_core| | |exact H].
    + rewrite Hpre. apply listOnly_pre.
    + rewrite Hafter. apply listOnly_after.
  - unfold firstBlockText.
    erewrite frame_blockText; [exact Hfirst|].
    eapply frame_trans; [|apply frame_highlightCodeBlock].
    eapply frame_trans; [|apply frame_highlightCommentBlock].
    destruct t as [|c t]; [apply frame_refl|].
    eapply frame_trans; [|apply frame_highlightAdditionalRules].
    eapply frame_trans; [|apply frame_highlightHeadline].
    apply frame_highlightAdditionalRules.
Qed.

Lemma notFrontmatter_rehighlightBlock hl n :
  initialRules hl ->
  firstBlockText hl <> dashes ->
  statesIn notFrontmatter hl ->
  statesIn notFrontmatter (rehighlightBlock globalMatch hl n).
Proof.
  intros Hr Hfirst H. unfold rehighlightBlock.
  destruct (blockAt hl n) as [b|]; [|exact H].
  unfold highlightBlock. cbv zeta.
  match goal with
  | |- statesIn _ (mkHL _ _ _ _ _ (document ?h) _ _ _) => change (statesIn notFrontmatter h)
  end.
  match goal with
  | |- statesIn _ (highlightMarkdown _ ?h _) =>
      assert (F : frame
                    (mkHL (_highlightingRulesPre hl) (_highlightingRulesAfter hl)
                          (_formats hl) (_dirtyTextBlocks hl)
                          (_highlightingFinished hl) (document hl) n []
                          (highlighted hl)) h)
        by (eapply frame_trans;
            [apply frame_setCurrentBlockState|apply frame_setUserState])
  end.
  apply notFrontmatter_highlightMarkdown.
  - destruct Hr as (b0 & Hp & Ha). exists b0.
    rewrite (fr_pre _ _ F), (fr_after _ _ F). now split.
  - unfold firstBlockText. rewrite (frame_blockText _ _ _ F). exact Hfirst.
  - apply statesIn_setUserState; [split; discriminate|].
    apply statesIn_setUserState; [split; discriminate|]. exact H.
Qed.

(** C7.  In a document whose first block is not ["---"], and whose blocks
    carry no front-matter state to begin with, classifying any blocks in any
    order, any number of times, leaves every block without a front-matter
    state, whatever the pattern matcher finds; and the front-matter step is
    then the identity on every line: it paints nothing. *)
Theorem no_frontmatter_without_leading_dashes
        (hl : MarkdownHighlighter) (blocks : list nat) :
  initialRules hl ->
  firstBlockText hl <> dashes ->
  statesIn notFrontmatter hl ->
  let hl' := fold_left (rehighlightBlock globalMatch) blocks hl in
  statesIn notFrontmatter hl' /\
  forall t, highlightFrontmatterBlock hl' t = hl'.
Proof.
  intros Hr Hfirst H hl'.
  assert (Inv : initialRules hl' /\ firstBlockText hl' <> dashes /\
                statesIn notFrontmatter hl').
  { subst hl'.
    apply (fold_left_invariant
             (fun h => initialRules h /\ firstBlockText h <> dashes /\
                       statesIn notFrontmatter h)); [|auto].
    intros h n (Hr' & Hf' & H').
    destruct (sameSetup_rehighlightBlock h n) as (Ep & Ea & Et).
    split; [|split].
    - destruct Hr' as (b & Hp & Ha). exists b. rewrite Ep, Ea. now split.
    - unfold firstBlockText. now rewrite (blockText_of_texts _ _ _ Et).
    - now apply notFrontmatter_rehighlightBlock. }
  destruct Inv as (_ & Hf' & H'). split; [exact H'|].
  intros t. now apply highlightFrontmatterBlock_no_dashes.
Qed.

End Frontmatter.

(** [no_frontmatter_without_leading_dashes] on a document with two later
    lines of three dashes, classified from the top and then once more in
    another order. *)
Lemma no_frontmatter_without_leading_dashes_witness :
  let hl' :=
    fold_left (rehighlightBlock Matcher.globalMatch)
              [0; 1; 2; 3; 3; 1; 2]%nat laterDashes in
  statesIn notFrontmatter hl' /\
  forall t, highlightFrontmatterBlock hl' t = hl'.
Proof.
  apply (no_frontmatter_without_leading_dashes Matcher.globalMatch laterDashes).
  - exists false. split; reflexivity.
  - discriminate.
  - repeat constructor; discriminate.
Defined.

(** ** The queue of dirty blocks (C8) *)

Lemma NoDup_snoc (q : list nat) (n : nat) :
  List.NoDup q -> ~ In n q -> List.NoDup (q ++ [n]).
Proof.
  induction q as [|x q IH]; simpl; intros Hq Hn.
  - constructor; [intros []|constructor].
  - inversion Hq as [|? ? Hx Hq']; subst. constructor.
    + intros H. apply in_app_or in H as [H|[H|[]]]; [contradiction|].
      apply Hn. now left.
    + apply IH; [exact Hq'|]. intros H. apply Hn. now right.
Qed.

Lemma addDirtyBlock_queue (hl : MarkdownHighlighter) (n : nat) :
  _dirtyTextBlocks (addDirtyBlock hl n) =
  if containsBlock (_dirtyTextBlocks hl) n then _dirtyTextBlocks hl
  else _dirtyTextBlocks hl ++ [n].
Proof.
  unfold addDirtyBlock. now destruct (containsBlock (_dirtyTextBlocks hl) n).
Qed.

Lemma addDirtyBlock_NoDup (hl : MarkdownHighlighter) (n : nat) :
  List.NoDup (_dirtyTextBlocks hl) -> List.NoDup (_dirtyTextBlocks (addDirtyBlock hl n)).
Proof.
  intros H. rewrite addDirtyBlock_queue.
  destruct (containsBlock (_dirtyTextBlocks hl) n) eqn:E; [exact H|].
  apply NoDup_snoc; [exact H|]. intros Hin.
  apply containsBlock_In in Hin. congruence.
Qed.

Lemma addDirtyBlock_In (hl : MarkdownHighlighter) (n : nat) :
  In n (_dirtyTextBlocks (addDirtyBlock hl n)).
Proof.
  rewrite addDirtyBlock_queue.
  destruct (containsBlock (_dirtyTextBlocks hl) n) eqn:E.
  - now apply containsBlock_In.
  - apply in_or_app. right. now left.
Qed.

Lemma addDirtyBlock_present (hl : MarkdownHighlighter) (n : nat) :
  In n (_dirtyTextBlocks hl) -> addDirtyBlock hl n = hl.
Proof.
  intros H. apply containsBlock_In in H. unfold addDirtyBlock. now rewrite H.
Qed.

Lemma addDirtyBlock_idempotent (hl : MarkdownHighlighter) (n : nat) :
  addDirtyBlock (addDirtyBlock hl n) n = addDirtyBlock hl n.
Proof. apply addDirtyBlock_present, addDirtyBlock_In. Qed.

Section Drain.

Variable globalMatch : QRegularExpression -> QString -> list QRegularExpressionMatch.

(** What one call of [rehighlightBlock] does to the queue, to the record of
    calls and to the size of the document. *)
Lemma rehighlightBlock_effect (hl : MarkdownHighlighter) (n : nat) :
  let hl' := rehighlightBlock globalMatch hl n in
  length (document hl') = length (document hl) /\
  highlighted hl' =
    highlighted hl ++ (if decide (n < length (document hl))%nat then [n] else []) /\
  (_dirtyTextBlocks hl' = _dirtyTextBlocks hl \/
   exists p, n = S p /\ ~ In p (_dirtyTextBlocks hl) /\
             _dirtyTextBlocks hl' = _dirtyTextBlocks hl ++ [p]).
Proof.
  intros hl'. subst hl'. unfold rehighlightBlock, blockAt.
  destruct (document hl !! n) as [b|] eqn:E.
  - apply lookup_lt_Some in E.
    destruct (decide (n < length (document hl))%nat); [|lia].
    unfold highlightBlock. cbv zeta.
    match goal with
    | |- context [highlightMarkdown globalMatch ?h0 (text b)] =>
        set (hl1 := h0);
        pose proof (frame_highlightMarkdown globalMatch hl1 (text b)) as F
    end.
    set (hl0 := mkHL (_highlightingRulesPre hl) (_highlightingRulesAfter hl)
                     (_formats hl) (_dirtyTextBlocks hl)
                     (_highlightingFinished hl) (document hl) n []
                     (highlighted hl)) in *.
    assert (F0 : frame hl0 hl1).
    { subst hl1. eapply frame_trans;
        [apply frame_setCurrentBlockState|apply frame_setUserState]. }
    assert (Q0 : _dirtyTextBlocks hl1 = _dirtyTextBlocks hl).
    { subst hl1. unfold setCurrentBlockState. now rewrite !dirty_setUserState. }
    cbn [document highlighted _dirtyTextBlocks].
    split; [|split].
    + rewrite (frame_length _ _ F), (frame_length _ _ F0). reflexivity.
    + rewrite (fr_highlighted _ _ F), (fr_highlighted _ _ F0).
      rewrite (fr_current _ _ F), (fr_current _ _ F0). reflexivity.
    + destruct (fr_queue _ _ F) as [Hq|(p & Hp & Hn & Hq)].
      * left. now rewrite Hq.
      * right. exists p. rewrite Hq, Q0. repeat split; [|now rewrite <- Q0].
        unfold previousBlock in Hp. rewrite (fr_current _ _ F0) in Hp.
        simpl in Hp. destruct n; congruence.
  - apply lookup_ge_None in E.
    destruct (decide (n < length (document hl))%nat); [lia|].
    rewrite app_nil_r. auto.
Qed.

End Drain.

Lemma marks_NoDup (marks : list nat) :
  forall hl, List.NoDup (_dirtyTextBlocks hl) ->
             List.NoDup (_dirtyTextBlocks (fold_left addDirtyBlock marks hl)).
Proof.
  induction marks as [|m marks IH]; intros hl H; simpl; [exact H|].
  apply IH. now apply addDirtyBlock_NoDup.
Qed.

Lemma addDirtyBlock_keeps (hl : MarkdownHighlighter) (m n : nat) :
  In n (_dirtyTextBlocks hl) -> In n (_dirtyTextBlocks (addDirtyBlock hl m)).
Proof.
  intros H. rewrite addDirtyBlock_queue.
  destruct (containsBlock _ m); [exact H|]. apply in_or_app. now left.
Qed.

Lemma marks_In (marks : list nat) :
  forall hl n,
    In n marks \/ In n (_dirtyTextBlocks hl) ->
    In n (_dirtyTextBlocks (fold_left addDirtyBlock marks hl)).
Proof.
  induction marks as [|m marks IH]; intros hl n H; simpl.
  - destruct H as [[]|H]. exact H.
  - apply IH. destruct H as [[<-|H]|H].
    + right. apply addDirtyBlock_In.
    + now left.
    + right. now apply addDirtyBlock_keeps.
Qed.

Lemma count_occ_smaller (l : list nat) (n : nat) :
  Forall (fun k => k < n)%nat l -> count_occ Nat.eq_dec l n = O.
Proof.
  intros H. apply count_occ_not_In. intros Hin.
  pose proof (proj1 (List.Forall_forall _ _) H n Hin) as Hlt.
  simpl in Hlt. lia.
Qed.


(** ** Underlined headlines (C2) *)

Lemma hasOnlyHeadChars_cons (t : QString) (c : QChar) :
  hasOnlyHeadChars t c = true ->
  exists t', t = c :: t' /\ forallb (fun x => qchar_eqb x c) t' = true.
Proof.
  destruct t as [|d t']; simpl; [discriminate|].
  intros H. apply andb_true_iff in H as [H1 H2].
  apply qchar_eqb_eq in H1. subst d. now exists t'.
Qed.

Lemma underline_not_heading (t : QString) :
  hasOnlyHeadChars t "="%char = true -> headingFound t = false.
Proof. intros H. apply hasOnlyHeadChars_cons in H as (t' & -> & _). reflexivity. Qed.

Lemma underline_not_dashes (t : QString) :
  hasOnlyHeadChars t "="%char = true -> hasOnlyHeadChars t "-"%char = false.
Proof. intros H. apply hasOnlyHeadChars_cons in H as (t' & -> & _). reflexivity. Qed.

Lemma document_addDirtyBlock hl n : document (addDirtyBlock hl n) = document hl.
Proof. unfold addDirtyBlock. now destruct (negb _). Qed.

Lemma formatChanges_addDirtyBlock hl n :
  formatChanges (addDirtyBlock hl n) = formatChanges hl.
Proof. unfold addDirtyBlock. now destruct (negb _). Qed.

Lemma blockState_addDirtyBlock hl n k :
  blockState (addDirtyBlock hl n) k = blockState hl k.
Proof. unfold blockState, blockAt. now rewrite document_addDirtyBlock. Qed.

Lemma length_setUserState hl n s :
  length (document (setUserState hl n s)) = length (document hl).
Proof. apply frame_length, frame_setUserState. Qed.

(** The underline branch when it applies. *)
Lemma underline_applies (hl : MarkdownHighlighter) (t : QString)
      (level : HighlighterState) (p : nat) :
  currentBlock hl = S p ->
  (S p < length (document hl))%nat ->
  blockText hl (Some p) <> [] ->
  previousBlockState hl = level \/ previousBlockState hl = NoState ->
  let hl' := underline hl t level in
  currentBlockState hl' = HeadlineEnd /\
  formatChanges hl' =
    formatChanges hl ++ [mkSpan 0 (qlength t) (maskedFor hl level)] /\
  blockState hl' (Some p) = level /\
  In p (_dirtyTextBlocks hl').
Proof.
  intros Hcur Hlen Hprev Hst hl'. subst hl'. unfold underline.
  assert (Hp : previousBlock hl = Some p) by (unfold previousBlock; now rewrite Hcur).
  rewrite Hp.
  assert (Hc : ((previousBlockState hl =? level) ||
                (previousBlockState hl =? NoState)) &&
               (0 <? qlength (blockText hl (Some p))) = true).
  { apply andb_true_iff. split.
    - apply orb_true_iff. destruct Hst as [-> | ->];
        [left|right]; apply Z.eqb_refl.
    - apply Z.ltb_lt. unfold qlength.
      destruct (blockText hl (Some p)); [contradiction|simpl; lia]. }
  rewrite Hc. cbv zeta.
  set (hlA := setFormat hl 0 (qlength t) _).
  set (hlB := setCurrentBlockState hlA HeadlineEnd).
  assert (HpB : previousBlock hlB = Some p).
  { unfold hlB, setCurrentBlockState.
    rewrite (frame_previousBlock _ _ (frame_setUserState hlA _ _)). exact Hp. }
  rewrite HpB.
  set (hlC := setUserState hlB (Some p) level).
  assert (HpC : previousBlock hlC = Some p).
  { unfold hlC. rewrite (frame_previousBlock _ _ (frame_setUserState hlB _ _)).
    exact HpB. }
  rewrite HpC.
  assert (HcurB : currentBlock hlB = S p).
  { unfold hlB, setCurrentBlockState.
    rewrite (fr_current _ _ (frame_setUserState hlA _ _)). exact Hcur. }
  assert (HlenB : length (document hlB) = length (document hl)).
  { unfold hlB, setCurrentBlockState. now rewrite length_setUserState. }
  split; [|split; [|split]].
  - assert (HcurC : currentBlock hlC = S p).
    { unfold hlC. rewrite (fr_current _ _ (frame_setUserState hlB _ _)).
      exact HcurB. }
    unfold currentBlockState.
    rewrite (fr_current _ _ (frame_addDirtyBlock hlC p HpC)), HcurC.
    rewrite blockState_addDirtyBlock.
    unfold hlC. rewrite blockState_setUserState_ne by lia.
    rewrite <- HcurB. fold (currentBlockState hlB).
    unfold hlB. apply currentBlockState_set. simpl. lia.
  - rewrite formatChanges_addDirtyBlock. unfold hlC, hlB, setCurrentBlockState.
    rewrite !formatChanges_setUserState. reflexivity.
  - rewrite blockState_addDirtyBlock. unfold hlC.
    apply blockState_setUserState_eq. lia.
  - apply addDirtyBlock_In.
Qed.

Lemma in_extends (out out' : list Span) (s : Span) :
  extends out out' -> In s out -> In s out'.
Proof. intros [l ->] H. apply in_or_app. now left. Qed.

Lemma blockText_nonempty_valid hl n :
  blockText hl (Some n) <> [] -> (n < length (document hl))%nat.
Proof.
  unfold blockText, blockAt. destruct (document hl !! n) as [b|] eqn:E.
  - intros _. now apply lookup_lt_Some in E.
  - intros H. now contradiction H.
Qed.

Section Lookahead.

Variable globalMatch : QRegularExpression -> QString -> list QRegularExpressionMatch.

(** Highlighting a line that is no headline and no underline itself, and
    whose next line is an underline of [=]: the look-ahead paints the whole
    line as H1, and what follows only adds to that. *)
Lemma lookahead_H1 (h : MarkdownHighlighter) (p : nat) (t prev : QString) :
  blockText h (Some p) = prev ->
  blockText h (Some (S p)) = t ->
  prev <> [] ->
  headingFound prev = false ->
  hasOnlyHeadChars prev "="%char = false ->
  hasOnlyHeadChars prev "-"%char = false ->
  hasOnlyHeadChars t "="%char = true ->
  In (mkSpan 0 (qlength prev) (_formats h H1))
     (formatChanges (rehighlightBlock globalMatch h p)).
Proof.
  intros Hprev Ht Hne Hh He Hd Hu.
  assert (Hvalid : (S p < length (document h))%nat).
  { apply blockText_nonempty_valid. rewrite Ht.
    apply hasOnlyHeadChars_cons in Hu as (t' & -> & _). discriminate. }
  unfold rehighlightBlock.
  assert (Hb : exists b, blockAt h p = Some b /\ text b = prev).
  { unfold blockText in Hprev. destruct (blockAt h p) as [b|]; [now exists b|].
    now contradiction Hne. }
  destruct Hb as (b & -> & Hb). rewrite Hb.
  unfold highlightBlock. cbv zeta. cbn [formatChanges].
  set (h0 := mkHL (_highlightingRulesPre h) (_highlightingRulesAfter h)
                  (_formats h) (_dirtyTextBlocks h) (_highlightingFinished h)
                  (document h) p [] (highlighted h)).
  set (h1 := setUserState (setCurrentBlockState h0 NoState) _ NoState).
  assert (F1 : frame h0 h1).
  { unfold h1. eapply frame_trans;
      [apply frame_setCurrentBlockState|apply frame_setUserState]. }
  unfold highlightMarkdown. cbv zeta.
  destruct prev as [|c prev']; [now contradiction Hne|].
  set (prev := c :: prev') in *.
  set (x1 := highlightAdditionalRules globalMatch h1 (_highlightingRulesPre h1) prev).
  assert (Fx1 : frame h0 x1).
  { eapply frame_trans; [exact F1|apply frame_highlightAdditionalRules]. }
  set (x2 := highlightHeadline x1 prev).
  assert (Hx2 : In (mkSpan 0 (qlength prev) (_formats h H1)) (formatChanges x2)).
  { unfold x2, highlightHeadline. rewrite Hh, He, Hd. cbv zeta.
    assert (Hnext : blockText x1 (nextBlock x1) = t).
    { rewrite (frame_nextBlock _ _ Fx1), (frame_blockText _ _ _ Fx1).
      unfold nextBlock. simpl.
      destruct (decide (S p < length (document h))%nat); [exact Ht|lia]. }
    rewrite Hnext, Hu, (underline_not_dashes t Hu).
    unfold setCurrentBlockState. rewrite formatChanges_setUserState.
    simpl. apply in_or_app. right. left.
    rewrite (fr_formats _ _ Fx1) by discriminate. reflexivity. }
  eapply in_extends; [|exact Hx2].
  apply (fr_spans x2).
  eapply frame_trans; [|apply frame_highlightFrontmatterBlock].
  eapply frame_trans; [|apply frame_highlightCodeBlock].
  eapply frame_trans; [|apply frame_highlightCommentBlock].
  apply frame_highlightAdditionalRules.
Qed.

(** C2, as the code has it.  On a line of [=] only, after a line that is not
    empty and whose state is H1 or NoState, the headline step makes the state
    of the line HeadlineEnd, paints the whole line masked (in the point size
    of H1), makes the state of the line before H1 and puts that line into the
    queue.  When that line is highlighted again, and it is itself neither a
    headline with hashes nor a line of [=] or of [-] only, the H1 format is
    painted over its whole text.  For ["Title"; "==="] classified from the top
    and then drained, the second line is HeadlineEnd and masked, and the first
    is H1 with one H1 span over its five characters. *)
Theorem setext_underline_h1 (hl : MarkdownHighlighter) (t prev : QString) (p : nat) :
  currentBlock hl = S p ->
  blockText hl (Some (S p)) = t ->
  blockText hl (Some p) = prev ->
  hasOnlyHeadChars t "="%char = true ->
  prev <> [] ->
  previousBlockState hl = H1 \/ previousBlockState hl = NoState ->
  let hl' := highlightHeadline hl t in
  currentBlockState hl' = HeadlineEnd /\
  formatChanges hl' = formatChanges hl ++ [mkSpan 0 (qlength t) (maskedFor hl H1)] /\
  blockState hl' (Some p) = H1 /\
  In p (_dirtyTextBlocks hl') /\
  (headingFound prev = false ->
   hasOnlyHeadChars prev "="%char = false ->
   hasOnlyHeadChars prev "-"%char = false ->
   forall h, map text (document h) = map text (document hl) ->
             In (mkSpan 0 (qlength prev) (_formats h H1))
                (formatChanges (rehighlightBlock globalMatch h p))) /\
  (currentBlockState titleUnderlined = HeadlineEnd /\
   formatChanges titleUnderlined = [mkSpan 0 3 (maskedFor titleUnderlined H1)] /\
   _dirtyTextBlocks titleUnderlined = [0%nat] /\
   match reHighlightDirtyBlocks Matcher.globalMatch 1 titleUnderlined with
   | Ok h =>
       map userState (document h) = [(H1 : Z); (HeadlineEnd : Z)] /\
       formatChanges h = [mkSpan 0 5 (_formats h H1)]
   | _ => False
   end).
Proof.
  intros Hcur Ht Hprev Hu Hne Hst hl'.
  assert (Hvalid : (S p < length (document hl))%nat).
  { apply blockText_nonempty_valid. rewrite Ht.
    apply hasOnlyHeadChars_cons in Hu as (t' & -> & _). discriminate. }
  assert (E : hl' = underline hl t H1).
  { subst hl'. unfold highlightHeadline.
    now rewrite (underline_not_heading t Hu), Hu. }
  rewrite E.
  destruct (underline_applies hl t H1 p Hcur Hvalid) as (A & B & C & D);
    [now rewrite Hprev|exact Hst|].
  repeat (split; [assumption|]).
  split; [|vm_compute; repeat split].
  intros Hh He Hd h Htexts.
  apply (lookahead_H1 h p t prev); auto.
  - now rewrite (blockText_of_texts _ _ _ Htexts).
  - now rewrite (blockText_of_texts _ _ _ Htexts).
Qed.

End Lookahead.

(** [setext_underline_h1] on the second line of ["Title"; "==="]. *)
Lemma setext_underline_h1_witness :
  let hl' := highlightHeadline titleAtUnderline (qs "===") in
  currentBlockState hl' = HeadlineEnd /\
  formatChanges hl' =
    formatChanges titleAtUnderline ++
    [mkSpan 0 (qlength (qs "===")) (maskedFor titleAtUnderline H1)] /\
  blockState hl' (Some 0%nat) = H1 /\
  In 0%nat (_dirtyTextBlocks hl') /\
  (headingFound (qs "Title") = false ->
   hasOnlyHeadChars (qs "Title") "="%char = false ->
   hasOnlyHeadChars (qs "Title") "-"%char = false ->
   forall h, map text (document h) = map text (document titleAtUnderline) ->
             In (mkSpan 0 (qlength (qs "Title")) (_formats h H1))
                (formatChanges (rehighlightBlock Matcher.globalMatch h 0))).
Proof.
  intros hl'.
  destruct (setext_underline_h1 Matcher.globalMatch titleAtUnderline
              (qs "===") (qs "Title") 0%nat) as (A & B & C & D & E & _).
  - reflexivity.
  - reflexivity.
  - reflexivity.
  - reflexivity.
  - discriminate.
  - left. reflexivity.
  - exact (conj A (conj B (conj C (conj D E)))).
Defined.

(** C2 as stated fails when the line before is itself a line of [=] only:
    in ["==="; "==="] the first line is not empty and has no state, the second
    becomes HeadlineEnd and marks the first as H1 and dirty, yet the
    reclassification of the first line paints no span on it and leaves it
    without a state.  In the drain Qt goes on with the second line, because
    the state of the first has changed, and that line marks the first as H1
    again: the blocks 0 and 1 are highlighted once more each, the first line
    ends as H1, and no H1 span was painted on it. *)
Lemma underline_of_underline_counterexample :
  map userState (document twoUnderlines) = [(H1 : Z); (HeadlineEnd : Z)] /\
  _dirtyTextBlocks twoUnderlines = [0%nat] /\
  formatChanges (classify twoUnderlines 0) = [] /\
  blockState (classify twoUnderlines 0) (Some 0%nat) = NoState /\
  match reHighlightDirtyBlocks Matcher.globalMatch 1 twoUnderlines with
  | Ok hl' =>
      highlighted hl' = [0; 1; 0; 1]%nat /\
      map userState (document hl') = [(H1 : Z); (HeadlineEnd : Z)]
  | _ => False
  end.
Proof. vm_compute. repeat split. Qed.

(** ** Fences (C3, C4) *)

Lemma insideCode_open (s : Z) :
  negb (s =? CodeBlock) && (s <? 200) = negb (insideCode s).
Proof.
  unfold insideCode. destruct (s =? CodeBlock); simpl; [reflexivity|].
  destruct (Z.ltb_spec s 200), (Z.leb_spec 200 s); simpl; try reflexivity; lia.
Qed.

Lemma formatChanges_withFormats hl fs :
  formatChanges (withFormats hl fs) = formatChanges hl.
Proof. reflexivity. Qed.

Lemma currentBlockState_withFormats hl fs :
  currentBlockState (withFormats hl fs) = currentBlockState hl.
Proof. reflexivity. Qed.

Lemma currentBlockState_setFormat hl a b f :
  currentBlockState (setFormat hl a b f) = currentBlockState hl.
Proof. reflexivity. Qed.

(** The code-block step on a line that starts with a fence. *)
Lemma highlightCodeBlock_fence (hl : MarkdownHighlighter) (t : QString) :
  startsWith t fence = true ->
  (currentBlock hl < length (document hl))%nat ->
  currentBlockState (highlightCodeBlock hl t) =
    (if insideCode (previousBlockState hl) then (CodeBlockEnd : Z)
     else (fenceState t : Z)) /\
  formatChanges (highlightCodeBlock hl t) =
    formatChanges hl ++
    [mkSpan 0 (qlength t) (_formats (highlightCodeBlock hl t) MaskedSyntax)].
Proof.
  intros Hf Hcur. unfold highlightCodeBlock. rewrite Hf.
  rewrite insideCode_open. cbv zeta. split.
  - rewrite currentBlockState_setFormat, currentBlockState_withFormats.
    destruct (insideCode (previousBlockState hl)) eqn:Hin; cbn [negb].
    + unfold insideCode in Hin. rewrite Hin. now apply currentBlockState_set.
    + unfold fenceState. cbv zeta.
      destruct (qstring_eqb (midRef t 3 (qlength t)) (qs "cpp"));
        [now apply currentBlockState_set|].
      destruct (qstring_eqb (midRef t 3 (qlength t)) (qs "js"));
        [now apply currentBlockState_set|].
      destruct (qstring_eqb t fence); now apply currentBlockState_set.
  - match goal with
    | |- formatChanges (setFormat (withFormats ?h ?fs) _ _ ?m) = _ =>
        assert (E : formatChanges h = formatChanges hl)
    end.
    { repeat match goal with
             | |- context [if ?c then _ else _] => destruct c
             end;
        unfold setCurrentBlockState; rewrite ?formatChanges_setUserState;
        reflexivity. }
    unfold setFormat, emit. cbn [formatChanges withFormatChanges withFormats].
    rewrite E. reflexivity.
Qed.

Lemma fence_not_underline (t : QString) :
  startsWith t fence = true ->
  headingFound t = false /\
  hasOnlyHeadChars t "="%char = false /\ hasOnlyHeadChars t "-"%char = false.
Proof.
  intros H. apply (startsWith_app t (qs "`") (qs "``")) in H.
  apply startsWith_prefix in H as [r ->]. repeat split.
Qed.

Lemma previousBlockState_setFormat hl a b f :
  previousBlockState (setFormat hl a b f) = previousBlockState hl.
Proof. reflexivity. Qed.

(** On a line that is no underline the headline step leaves the state of the
    line before alone. *)
Lemma previous_highlightHeadline hl t :
  hasOnlyHeadChars t "="%char = false ->
  hasOnlyHeadChars t "-"%char = false ->
  previousBlockState (highlightHeadline hl t) = previousBlockState hl.
Proof.
  intros He Hd. unfold highlightHeadline. rewrite He, Hd. cbv zeta.
  repeat match goal with
         | |- context [if ?c then _ else _] => destruct c
         end;
    repeat first [ rewrite previousBlockState_setCurrent
                 | rewrite previousBlockState_setFormat ];
    reflexivity.
Qed.

Lemma previous_highlightCommentBlock hl t :
  previousBlockState (highlightCommentBlock hl t) = previousBlockState hl.
Proof.
  unfold highlightCommentBlock. cbv zeta.
  destruct (_ && _); [reflexivity|].
  destruct (_ || _);
    [rewrite previousBlockState_setFormat; apply previousBlockState_setCurrent|].
  destruct (endsWith _ _); reflexivity.
Qed.

Section Fences.

Variable globalMatch : QRegularExpression -> QString -> list QRegularExpressionMatch.

Lemma previous_highlightMatch r hl m :
  previousBlockState (highlightMatch r hl m) = previousBlockState hl.
Proof.
  unfold highlightMatch, setHeadingStyles. cbv zeta.
  repeat match goal with
         | |- context [if ?c then _ else _] => destruct c
         end; reflexivity.
Qed.

Lemma previous_highlightRule t hl r :
  previousBlockState (highlightRule globalMatch t hl r) = previousBlockState hl.
Proof.
  unfold highlightRule. destruct (_ && _); [reflexivity|]. cbv zeta.
  match goal with
  | |- previousBlockState (fold_left _ _ ?h) = _ =>
      transitivity (previousBlockState h);
        [|repeat match goal with
                 | |- context [match ?c with _ => _ end] => destruct c
                 end;
          rewrite ?previousBlockState_setCurrent; reflexivity]
  end.
  match goal with
  | |- previousBlockState (fold_left ?g ?l ?h) = _ =>
      apply (fold_left_invariant
               (fun x => previousBlockState x = previousBlockState h) g l);
        [|reflexivity]
  end.
  intros a x Ha. now rewrite previous_highlightMatch.
Qed.

Lemma previous_highlightAdditionalRules hl rules t :
  previousBlockState (highlightAdditionalRules globalMatch hl rules t) =
  previousBlockState hl.
Proof.
  unfold highlightAdditionalRules.
  apply (fold_left_invariant
           (fun x => previousBlockState x = previousBlockState hl));
    [|reflexivity].
  intros a x Ha. now rewrite previous_highlightRule.
Qed.

(** The state a block that starts with a fence has after its classification,
    in a document without front matter. *)
Lemma fence_classification (hl : MarkdownHighlighter) (n : nat) (b : QTextBlock) :
  blockAt hl n = Some b ->
  startsWith (text b) fence = true ->
  firstBlockText hl <> dashes ->
  blockState (rehighlightBlock globalMatch hl n) (Some n) =
    if insideCode (blockState hl (match n with O => None | S k => Some k end))
    then (CodeBlockEnd : Z) else (fenceState (text b) : Z).
Proof.
  intros Hb Hf Hfirst. unfold rehighlightBlock. rewrite Hb.
  unfold highlightBlock. cbv zeta.
  set (h0 := mkHL (_highlightingRulesPre hl) (_highlightingRulesAfter hl)
                  (_formats hl) (_dirtyTextBlocks hl) (_highlightingFinished hl)
                  (document hl) n [] (highlighted hl)).
  set (h1 := setUserState (setCurrentBlockState h0 NoState) _ NoState).
  assert (F1 : frame h0 h1).
  { unfold h1. eapply frame_trans;
      [apply frame_setCurrentBlockState|apply frame_setUserState]. }
  assert (Hp1 : previousBlockState h1 =
                blockState hl (match n with O => None | S k => Some k end)).
  { change h1 with (setCurrentBlockState (setCurrentBlockState h0 NoState) NoState).
    now rewrite !previousBlockState_setCurrent. }
  pose proof (frame_highlightMarkdown globalMatch h1 (text b)) as F2.
  set (h2 := highlightMarkdown globalMatch h1 (text b)) in *.
  match goal with
  | |- _ = ?rhs => change (blockState h2 (Some n) = rhs)
  end.
  assert (Hn : currentBlock h2 = n)
    by (now rewrite (fr_current _ _ F2), (fr_current _ _ F1)).
  rewrite <- Hn at 1. fold (currentBlockState h2). rewrite <- Hp1.
  destruct (fence_not_underline _ Hf) as (_ & He & Hd).
  unfold h2, highlightMarkdown. cbv zeta.
  set (x := match text b with
            | [] => h1
            | _ :: _ => highlightAdditionalRules globalMatch _ _ (text b)
            end).
  assert (Fx : frame h1 x).
  { unfold x. destruct (text b); [apply frame_refl|].
    eapply frame_trans; [|apply frame_highlightAdditionalRules].
    eapply frame_trans; [|apply frame_highlightHeadline].
    apply frame_highlightAdditionalRules. }
  assert (Hpx : previousBlockState x = previousBlockState h1).
  { unfold x. destruct (text b); [reflexivity|].
    rewrite previous_highlightAdditionalRules.
    rewrite previous_highlightHeadline by assumption.
    apply previous_highlightAdditionalRules. }
  set (y := highlightCommentBlock x (text b)).
  assert (Fy : frame h1 y).
  { eapply frame_trans; [exact Fx|apply frame_highlightCommentBlock]. }
  rewrite highlightFrontmatterBlock_no_dashes.
  - destruct (highlightCodeBlock_fence y (text b) Hf) as [E _].
    + rewrite (fr_current _ _ Fy), (frame_length _ _ Fy).
      rewrite (fr_current _ _ F1), (frame_length _ _ F1). simpl.
      unfold blockAt in Hb. now apply lookup_lt_Some in Hb.
    + rewrite E. unfold y. now rewrite previous_highlightCommentBlock, Hpx.
  - unfold firstBlockText.
    rewrite (frame_blockText _ _ _ (frame_highlightCodeBlock y (text b))).
    rewrite (frame_blockText _ _ _ Fy), (frame_blockText _ _ _ F1). exact Hfirst.
Qed.

(** C3.  The code-block step on a line that starts with a fence: when the
    line before is not inside code the line opens a block, in the category of
    its language tag if that is [cpp] or [js] and as a plain code block
    otherwise; when the line before is inside code the line is the end of the
    block; in both cases the line is painted masked.  In a document without
    front matter this is the state the line has after its classification,
    whatever the rules match.  And the three lines [```cpp], [int x = 1;],
    [```] classified from the top get the states CodeCpp, CodeCpp and
    CodeBlockEnd, the first with the masked span over the fence as its last
    span and the second with the type span over [int] and the number span
    over [1]. *)
Theorem fence_opens_and_closes (hl : MarkdownHighlighter) (t : QString) :
  startsWith t fence = true ->
  (currentBlock hl < length (document hl))%nat ->
  let hl' := highlightCodeBlock hl t in
  (insideCode (previousBlockState hl) = false ->
   currentBlockState hl' = fenceState t) /\
  (insideCode (previousBlockState hl) = true ->
   currentBlockState hl' = CodeBlockEnd) /\
  formatChanges hl' =
    formatChanges hl ++ [mkSpan 0 (qlength t) (_formats hl' MaskedSyntax)] /\
  (forall h n b,
      blockAt h n = Some b -> startsWith (text b) fence = true ->
      firstBlockText h <> dashes ->
      blockState (rehighlightBlock globalMatch h n) (Some n) =
        if insideCode (blockState h (match n with O => None | S k => Some k end))
        then (CodeBlockEnd : Z) else (fenceState (text b) : Z)) /\
  (let h1 := classifyFrom cppBlock 0 1 in
   let h2 := classifyFrom cppBlock 0 2 in
   let h3 := classifyFrom cppBlock 0 3 in
   currentBlockState h1 = CodeCpp /\
   last (formatChanges h1) = Some (mkSpan 0 6 (_formats h1 MaskedSyntax)) /\
   currentBlockState h2 = CodeCpp /\
   formatChanges h2 =
     [ mkSpan 0 10 (_formats h2 CodeBlock);
       mkSpan 0 3 (codeFormat h2 darkBlue);
       mkSpan 8 1 (codeFormat h2 darkYellow) ] /\
   currentBlockState h3 = CodeBlockEnd).
Proof.
  intros Hf Hcur hl'. subst hl'.
  destruct (highlightCodeBlock_fence hl t Hf Hcur) as [E S].
  split; [|split; [|split; [|split]]].
  - intros Hin. now rewrite E, Hin.
  - intros Hin. now rewrite E, Hin.
  - exact S.
  - intros h n b. apply fence_classification.
  - vm_compute. repeat split.
Qed.

End Fences.

(** [fence_opens_and_closes] at the fence that opens the cpp block. *)
Lemma fence_opens_and_closes_witness :
  currentBlockState (highlightCodeBlock cppBlock (qs "```cpp")) = CodeCpp.
Proof.
  destruct (fence_opens_and_closes Matcher.globalMatch cppBlock (qs "```cpp"))
    as (A & _);
    [reflexivity|simpl; lia|].
  apply A. reflexivity.
Defined.

(** What the code does on a line after a [```js] fence (C4).  The outer test
    of the code-block step names CodeBlock and CodeCpp only, so that on a line
    that is no fence and follows a CodeJs line the step does nothing: the line
    keeps no state and gets no span, the scanner is not run, and the fence
    that should close the block opens a plain code block.  The same lines
    after a [```cpp] fence inherit CodeCpp and end with CodeBlockEnd. *)
Theorem codejs_line_does_not_inherit :
  (forall hl t, startsWith t fence = false ->
                previousBlockState hl = CodeJs ->
                highlightCodeBlock hl t = hl) /\
  map userState (document (classifyFrom jsBlock 0 3)) =
    [(CodeJs : Z); (NoState : Z); (CodeBlock : Z)] /\
  formatChanges (classifyFrom jsBlock 0 2) = [] /\
  map userState (document (classifyFrom cppBlock 0 3)) =
    [(CodeCpp : Z); (CodeCpp : Z); (CodeBlockEnd : Z)].
Proof.
  split; [|vm_compute; repeat split].
  intros hl t Hf Hp. unfold highlightCodeBlock. now rewrite Hf, Hp.
Qed.

(** ** The state of the current block along a classification *)

Lemma currentBlockState_setUserState_previous hl s :
  currentBlockState (setUserState hl (previousBlock hl) s) = currentBlockState hl.
Proof.
  unfold currentBlockState.
  rewrite (fr_current _ _ (frame_setUserState hl _ s)).
  unfold previousBlock. destruct (currentBlock hl) as [|k]; [reflexivity|].
  apply blockState_setUserState_ne. lia.
Qed.

Lemma currentBlockState_addDirtyBlock hl n :
  currentBlockState (addDirtyBlock hl n) = currentBlockState hl.
Proof.
  unfold currentBlockState.
  rewrite blockState_addDirtyBlock. unfold addDirtyBlock. now destruct (negb _).
Qed.

Lemma currentBlockState_highlightSyntax hl t :
  currentBlockState (highlightSyntax hl t) = currentBlockState hl.
Proof. destruct (highlightSyntax_eq hl t) as [l ->]. reflexivity. Qed.

Section CurrentState.

Variable Q : Z -> Prop.

Lemma current_setCurrentBlockState hl s :
  Q s -> Q (currentBlockState hl) ->
  Q (currentBlockState (setCurrentBlockState hl s)).
Proof.
  intros Hs H. unfold currentBlockState, setCurrentBlockState.
  rewrite (fr_current _ _ (frame_setUserState hl _ s)).
  destruct (blockState_setUserState_cases hl (currentBlock hl)
              (Some (currentBlock hl)) s) as [-> | ->]; assumption.
Qed.

Hypothesis Q_headlines : forall s, In s [ (NoState : Z); (List : Z); (H1 : Z);
  (H2 : Z); (H3 : Z); (H4 : Z); (H5 : Z); (H6 : Z); (HeadlineEnd : Z) ] -> Q s.

Ltac current_step :=
  lazymatch goal with
  | |- Q (currentBlockState (if ?c then _ else _)) => destruct c
  | |- Q (currentBlockState (match ?c with _ => _ end)) => destruct c
  | |- Q (currentBlockState (setFormat ?b _ _ _)) =>
      change (Q (currentBlockState b))
  | |- Q (currentBlockState (withFormats ?b _)) =>
      change (Q (currentBlockState b))
  | |- Q (currentBlockState (addDirtyBlock ?b _)) =>
      rewrite currentBlockState_addDirtyBlock
  | |- Q (currentBlockState (highlightSyntax ?b _)) =>
      rewrite currentBlockState_highlightSyntax
  | |- Q (currentBlockState (setUserState ?b (previousBlock ?b) _)) =>
      rewrite currentBlockState_setUserState_previous
  | |- Q (currentBlockState (setCurrentBlockState ?b _)) =>
      apply current_setCurrentBlockState; [solve [auto 20 with datatypes]|]
  end.

Lemma current_underline hl t (level : HighlighterState) :
  Q (currentBlockState hl) -> Q (currentBlockState (underline hl t level)).
Proof.
  intros H. unfold underline. cbv zeta.
  destruct (_ && _); [|exact H].
  match goal with
  | |- Q (currentBlockState (match previousBlock ?h with _ => _ end)) =>
      set (hC := h)
  end.
  assert (Hh : Q (currentBlockState hC)).
  { unfold hC. rewrite currentBlockState_setUserState_previous.
    apply current_setCurrentBlockState; [apply Q_headlines; simpl; tauto|].
    exact H. }
  destruct (previousBlock hC); [|exact Hh].
  now rewrite currentBlockState_addDirtyBlock.
Qed.

Lemma current_highlightHeadline hl t :
  Q (currentBlockState hl) -> Q (currentBlockState (highlightHeadline hl t)).
Proof.
  intros H. unfold highlightHeadline. cbv zeta.
  destruct (headingFound t) eqn:Ef.
  - rewrite countHashes_first_six.
    apply current_setCurrentBlockState; [|exact H].
    apply Q_headlines. pose proof (headingState_core t Ef) as Hin.
    pose proof (headingFound_count t Ef) as Hc.
    assert (E : countHashes t 6 = 1 \/ countHashes t 6 = 2 \/
                countHashes t 6 = 3 \/ countHashes t 6 = 4 \/
                countHashes t 6 = 5 \/ countHashes t 6 = 6) by lia.
    repeat (destruct E as [E|E]; [rewrite E; simpl; tauto|]).
    rewrite E. simpl. tauto.
  - destruct (hasOnlyHeadChars t "="%char); [now apply current_underline|].
    destruct (hasOnlyHeadChars t "-"%char); [now apply current_underline|].
    repeat first [ exact H | current_step
                 | apply current_setCurrentBlockState;
                   [apply Q_headlines; simpl; tauto|] ].
Qed.

Variable globalMatch : QRegularExpression -> QString -> list QRegularExpressionMatch.

Lemma current_highlightMatch r hl m :
  currentBlockState (highlightMatch r hl m) = currentBlockState hl.
Proof.
  unfold highlightMatch, setHeadingStyles. cbv zeta.
  repeat match goal with
         | |- context [if ?c then _ else _] => destruct c
         end; reflexivity.
Qed.

Lemma current_highlightRule t hl r :
  (useStateAsCurrentBlockState r = true -> state r = List) ->
  Q (currentBlockState hl) ->
  Q (currentBlockState (highlightRule globalMatch t hl r)).
Proof.
  intros Hr H. unfold highlightRule. destruct (_ && _); [exact H|]. cbv zeta.
  apply (fold_left_invariant (fun h => Q (currentBlockState h)));
    [intros a x Ha; now rewrite current_highlightMatch|].
  destruct (globalMatch (pattern r) t); [exact H|].
  destruct (useStateAsCurrentBlockState r); [|exact H].
  rewrite Hr by reflexivity.
  apply current_setCurrentBlockState; [apply Q_headlines; simpl; tauto|exact H].
Qed.

Lemma current_highlightAdditionalRules hl rules t :
  listOnly rules ->
  Q (currentBlockState hl) ->
  Q (currentBlockState (highlightAdditionalRules globalMatch hl rules t)).
Proof.
  intros Hr. unfold highlightAdditionalRules.
  apply (fold_left_invariant_in (fun h => Q (currentBlockState h))).
  intros a r Hin. apply current_highlightRule.
  exact (proj1 (List.Forall_forall _ _) Hr r Hin).
Qed.

Hypothesis Q_code : forall s, In s [ (CodeBlock : Z); (CodeBlockEnd : Z);
  (CodeCpp : Z); (CodeJs : Z) ] -> Q s.

Lemma current_highlightCodeBlock hl t :
  Q (currentBlockState hl) -> Q (currentBlockState (highlightCodeBlock hl t)).
Proof.
  intros H. unfold highlightCodeBlock. cbv zeta.
  repeat first [ exact H | current_step
               | apply current_setCurrentBlockState;
                 [apply Q_code; simpl; tauto|] ].
Qed.

Hypothesis Q_frontmatter : Q FrontmatterBlock /\ Q FrontmatterBlockEnd.

Lemma current_highlightFrontmatterBlock hl t :
  Q (currentBlockState hl) ->
  Q (currentBlockState (highlightFrontmatterBlock hl t)).
Proof.
  intros H. unfold highlightFrontmatterBlock. cbv zeta.
  destruct Q_frontmatter as [Qf Qe].
  repeat first [ exact H | current_step
               | apply current_setCurrentBlockState;
                 [first [ assumption
                        | match goal with
                          | |- Q (if ?c then _ else _) =>
                              destruct c; assumption
                          end ]|] ].
Qed.

End CurrentState.

(** ** Comment blocks (C6) *)

(** The third branch of the step: a line that is not skipped and ends with
    the close marker is painted as a comment and keeps its state. *)
Lemma highlightCommentBlock_closing (hl : MarkdownHighlighter) (t0 : QString) :
  selfContained t0 = false ->
  endsWith (trimmed t0) commentClose = true ->
  currentBlockState (highlightCommentBlock hl t0) = currentBlockState hl /\
  formatChanges (highlightCommentBlock hl t0) =
    formatChanges hl ++
    [mkSpan 0 (qlength (trimmed t0)) (_formats hl Comment)].
Proof.
  intros Hs He. unfold highlightCommentBlock.
  fold commentOpen. fold commentClose. cbv zeta.
  unfold selfContained in Hs. rewrite Hs.
  assert (Hopen : startsWith (trimmed t0) commentOpen = false).
  { apply andb_false_iff in Hs as [Hs|Hs]; [exact Hs|].
    now rewrite (endsWith_contains _ _ He) in Hs. }
  rewrite Hopen, He. simpl. auto.
Qed.

Lemma not_comment_headlines (s : Z) :
  In s [ (NoState : Z); (List : Z); (H1 : Z); (H2 : Z); (H3 : Z); (H4 : Z);
         (H5 : Z); (H6 : Z); (HeadlineEnd : Z) ] -> s <> Comment.
Proof.
  simpl. intros H. repeat (destruct H as [<-|H]; [discriminate|]). contradiction.
Qed.

Lemma not_comment_code (s : Z) :
  In s [ (CodeBlock : Z); (CodeBlockEnd : Z); (CodeCpp : Z); (CodeJs : Z) ] ->
  s <> Comment.
Proof.
  simpl. intros H. repeat (destruct H as [<-|H]; [discriminate|]). contradiction.
Qed.

Section CommentBlocks.

Variable globalMatch : QRegularExpression -> QString -> list QRegularExpressionMatch.

(** A block whose text ends with the close marker, and is not skipped, does
    not have the state Comment after its classification. *)
Lemma closing_line_not_Comment (hl : MarkdownHighlighter) (n : nat) (b : QTextBlock) :
  initialRules hl ->
  blockAt hl n = Some b ->
  selfContained (text b) = false ->
  endsWith (trimmed (text b)) commentClose = true ->
  blockState (rehighlightBlock globalMatch hl n) (Some n) <> Comment.
Proof.
  intros (fq & Hpre & Hafter) Hb Hs He. unfold rehighlightBlock. rewrite Hb.
  unfold highlightBlock. cbv zeta.
  set (h0 := mkHL (_highlightingRulesPre hl) (_highlightingRulesAfter hl)
                  (_formats hl) (_dirtyTextBlocks hl) (_highlightingFinished hl)
                  (document hl) n [] (highlighted hl)).
  set (h1 := setUserState (setCurrentBlockState h0 NoState) _ NoState).
  assert (F1 : frame h0 h1).
  { unfold h1. eapply frame_trans;
      [apply frame_setCurrentBlockState|apply frame_setUserState]. }
  assert (Hcur1 : currentBlockState h1 = NoState).
  { unfold h1. apply (currentBlockState_set (setCurrentBlockState h0 NoState)).
    rewrite (fr_current _ _ (frame_setCurrentBlockState h0 NoState)).
    rewrite (frame_length _ _ (frame_setCurrentBlockState h0 NoState)).
    unfold blockAt in Hb. apply lookup_lt_Some in Hb. exact Hb. }
  pose proof (frame_highlightMarkdown globalMatch h1 (text b)) as F2.
  set (h2 := highlightMarkdown globalMatch h1 (text b)) in *.
  change (blockState h2 (Some n) <> Comment).
  assert (Hn : currentBlock h2 = n)
    by (now rewrite (fr_current _ _ F2), (fr_current _ _ F1)).
  cut (currentBlockState h2 <> Comment);
    [unfold currentBlockState; now rewrite Hn|].
  unfold h2, highlightMarkdown. cbv zeta.
  apply current_highlightFrontmatterBlock; [split; discriminate|].
  apply current_highlightCodeBlock; [exact not_comment_code|].
  rewrite (proj1 (highlightCommentBlock_closing _ (text b) Hs He)).
  destruct (text b) as [|c t]; [now rewrite Hcur1|].
  apply (current_highlightAdditionalRules _ not_comment_headlines).
  - rewrite (fr_after _ _ (frame_highlightHeadline _ _)).
    rewrite (fr_after _ _ (frame_highlightAdditionalRules _ _ _ _)).
    rewrite (fr_after _ _ F1). simpl. rewrite Hafter. apply listOnly_after.
  - apply (current_highlightHeadline _ not_comment_headlines).
    apply (current_highlightAdditionalRules _ not_comment_headlines).
    + rewrite (fr_pre _ _ F1). simpl. rewrite Hpre. apply listOnly_pre.
    + now rewrite Hcur1.
Qed.

(** C6, as the code has it; the three cases are the branches of the step in
    their order.  A line that opens and closes a comment is skipped: the
    highlighter is left as it is.  Any other line that starts with the open
    marker, or that follows a Comment line and does not end with the close
    marker, gets the state Comment and is painted as a comment.  Any other
    line that ends with the close marker is painted as a comment and keeps the
    state it had, and at the end of its classification its state is not
    Comment: the block ends.  The lines [<!-- a], [b], [c -->], [d],
    [<!-- e -->], [f] get Comment, Comment and then no state. *)
Theorem comment_block_resolution (hl : MarkdownHighlighter) (t0 : QString) :
  (currentBlock hl < length (document hl))%nat ->
  let t := trimmed t0 in
  let painted := formatChanges hl ++ [mkSpan 0 (qlength t) (_formats hl Comment)] in
  let hl' := highlightCommentBlock hl t0 in
  (selfContained t0 = true -> hl' = hl) /\
  (selfContained t0 = false ->
   startsWith t commentOpen = true \/
   (previousBlockState hl = Comment /\ endsWith t commentClose = false) ->
   currentBlockState hl' = Comment /\ formatChanges hl' = painted) /\
  (selfContained t0 = false ->
   endsWith t commentClose = true ->
   currentBlockState hl' = currentBlockState hl /\ formatChanges hl' = painted) /\
  (forall h n b,
      initialRules h -> blockAt h n = Some b ->
      selfContained (text b) = false ->
      endsWith (trimmed (text b)) commentClose = true ->
      blockState (rehighlightBlock globalMatch h n) (Some n) <> Comment) /\
  map userState (document commentLines) =
    [(Comment : Z); (Comment : Z); (NoState : Z); (NoState : Z); (NoState : Z);
     (NoState : Z)].
Proof.
  intros Hcur t painted hl'. subst hl' painted.
  split; [|split; [|split; [|split]]].
  - unfold highlightCommentBlock, selfContained.
    fold commentOpen. fold commentClose. cbv zeta. intros ->. reflexivity.
  - unfold highlightCommentBlock, selfContained.
    fold commentOpen. fold commentClose. fold t. cbv zeta. intros -> Hc.
    assert (E : startsWith t commentOpen ||
                negb (endsWith t commentClose) &&
                (previousBlockState hl =? Comment) = true).
    { destruct Hc as [-> | [-> ->]]; [reflexivity|].
      simpl. now rewrite orb_true_r. }
    rewrite E. split.
    + rewrite currentBlockState_setFormat. now apply currentBlockState_set.
    + unfold setFormat, emit, setCurrentBlockState.
      cbn [formatChanges withFormatChanges].
      now rewrite formatChanges_setUserState, formats_setUserState.
  - intros Hs He. now apply highlightCommentBlock_closing.
  - intros h n b. apply closing_line_not_Comment.
  - vm_compute. reflexivity.
Qed.

End CommentBlocks.

(** [comment_block_resolution] on the line that opens a comment. *)
Lemma comment_block_resolution_witness :
  let hl := newHighlighter false 12 monospace10 [qs "<!-- a"; qs "b"] in
  currentBlockState (highlightCommentBlock hl (qs "<!-- a")) = Comment /\
  formatChanges (highlightCommentBlock hl (qs "<!-- a")) =
    [mkSpan 0 6 (_formats hl Comment)].
Proof.
  intros hl.
  destruct (comment_block_resolution Matcher.globalMatch hl (qs "<!-- a"))
    as (_ & B & _);
    [simpl; lia|].
  apply B; [reflexivity|left; reflexivity].
Defined.

(** C6 as stated fails on a line that follows a Comment line, does not end
    with the close marker, and opens and closes a comment of its own: the step
    skips it, so that it does not get the state Comment. *)
Lemma inline_comment_inside_block_counterexample :
  blockState inlineInsideComment (Some 0%nat) = Comment /\
  endsWith (trimmed (qs "<!-- a --> b")) commentClose = false /\
  selfContained (qs "<!-- a --> b") = true /\
  blockState inlineInsideComment (Some 1%nat) = NoState.
Proof. vm_compute. repeat split. Qed.

(** ** The format table (C9, C10) *)

Lemma formats_addDirtyBlock hl n : _formats (addDirtyBlock hl n) = _formats hl.
Proof. unfold addDirtyBlock. now destruct (negb _). Qed.

Ltac formats_auto :=
  repeat first
    [ reflexivity
    | rewrite formats_addDirtyBlock
    | rewrite formats_setUserState
    | progress unfold setCurrentBlockState
    | progress cbn [_formats setFormat withFormatChanges]
    | match goal with
      | |- context [match ?c with _ => _ end] => destruct c
      end ].

Lemma formats_underline hl t level : _formats (underline hl t level) = _formats hl.
Proof. unfold underline. cbv zeta. formats_auto. Qed.

Lemma formats_highlightHeadline hl t : _formats (highlightHeadline hl t) = _formats hl.
Proof.
  unfold highlightHeadline. cbv zeta.
  destruct (headingFound t); [formats_auto|].
  destruct (hasOnlyHeadChars t "="%char); [apply formats_underline|].
  destruct (hasOnlyHeadChars t "-"%char); [apply formats_underline|].
  formats_auto.
Qed.

Lemma formats_highlightCommentBlock hl t :
  _formats (highlightCommentBlock hl t) = _formats hl.
Proof.
  unfold highlightCommentBlock. cbv zeta.
  destruct (_ && _); [reflexivity|].
  destruct (_ || _); [formats_auto|].
  destruct (endsWith _ _); formats_auto.
Qed.

Lemma formats_highlightFrontmatterBlock hl t :
  _formats (highlightFrontmatterBlock hl t) = _formats hl.
Proof. unfold highlightFrontmatterBlock. cbv zeta. formats_auto. Qed.

Lemma formats_highlightSyntax hl t : _formats (highlightSyntax hl t) = _formats hl.
Proof. destruct (highlightSyntax_eq hl t) as [l ->]. reflexivity. Qed.

Lemma formats_highlightCodeBlock hl t :
  _formats (highlightCodeBlock hl t) =
  if startsWith t fence then fenced (_formats hl) else _formats hl.
Proof.
  unfold highlightCodeBlock. cbv zeta. destruct (startsWith t fence).
  - cbn [_formats setFormat withFormatChanges withFormats]. unfold fenced.
    repeat match goal with
           | |- context [if ?c then _ else _] => destruct c
           end;
      unfold setCurrentBlockState; rewrite ?formats_setUserState; reflexivity.
  - destruct (_ || _); [|reflexivity].
    destruct (previousBlockState hl =? CodeCpp);
      [rewrite formats_highlightSyntax; formats_auto|].
    destruct (previousBlockState hl =? CodeJs);
      [rewrite formats_highlightSyntax; formats_auto|].
    formats_auto.
Qed.

Lemma fenced_twice (fs gs : Formats) :
  (forall k, gs k = fenced fs k) -> forall k, fenced gs k = fenced fs k.
Proof.
  intros H k. unfold fenced at 1. unfold setTextFormat.
  destruct (k =? MaskedSyntax) eqn:E; [|apply H].
  apply Z.eqb_eq in E. subst k.
  rewrite !H. unfold fenced, setTextFormat. simpl.
  destruct (fs 24), (fs 4). reflexivity.
Qed.

Section FormatsOfRules.

Variable globalMatch : QRegularExpression -> QString -> list QRegularExpressionMatch.

Lemma formats_highlightMatch r hl m : _formats (highlightMatch r hl m) = _formats hl.
Proof. unfold highlightMatch, setHeadingStyles. cbv zeta. formats_auto. Qed.

Lemma formats_highlightRule t hl r :
  _formats (highlightRule globalMatch t hl r) = _formats hl.
Proof.
  unfold highlightRule. destruct (_ && _); [reflexivity|]. cbv zeta.
  match goal with
  | |- _formats (fold_left _ _ ?h) = _ =>
      transitivity (_formats h); [|formats_auto]
  end.
  match goal with
  | |- _formats (fold_left ?g ?l ?h) = _ =>
      apply (fold_left_invariant (fun x => _formats x = _formats h) g l);
        [|reflexivity]
  end.
  intros a x Ha. now rewrite formats_highlightMatch.
Qed.

(** The rule path leaves the table alone. *)
Lemma formats_highlightAdditionalRules hl rules t :
  _formats (highlightAdditionalRules globalMatch hl rules t) = _formats hl.
Proof.
  unfold highlightAdditionalRules.
  apply (fold_left_invariant (fun x => _formats x = _formats hl)); [|reflexivity].
  intros a x Ha. now rewrite formats_highlightRule.
Qed.

Lemma formats_highlightMarkdown hl t :
  _formats (highlightMarkdown globalMatch hl t) =
  if startsWith t fence then fenced (_formats hl) else _formats hl.
Proof.
  unfold highlightMarkdown. cbv zeta.
  rewrite formats_highlightFrontmatterBlock, formats_highlightCodeBlock.
  rewrite formats_highlightCommentBlock.
  destruct t as [|c t]; [reflexivity|].
  rewrite formats_highlightAdditionalRules, formats_highlightHeadline.
  now rewrite formats_highlightAdditionalRules.
Qed.

Lemma formats_rehighlightBlock hl n :
  _formats (rehighlightBlock globalMatch hl n) = _formats hl \/
  _formats (rehighlightBlock globalMatch hl n) = fenced (_formats hl).
Proof.
  unfold rehighlightBlock. destruct (blockAt hl n) as [b|]; [|now left].
  unfold highlightBlock. cbv zeta. cbn [_formats].
  rewrite formats_highlightMarkdown.
  unfold setCurrentBlockState. rewrite !formats_setUserState. cbn [_formats].
  destruct (startsWith (text b) fence); auto.
Qed.

End FormatsOfRules.

(** C10.  The code-block step on a fence line writes into the table: the
    [MaskedSyntax] entry gets the point size of the [CodeBlock] entry, every
    other entry stays.  The change is there to stay: whatever blocks are
    highlighted afterwards, the table is the changed one.  The headline step
    and the rules only read the table, and what they paint masked is made
    from the entry they find: the headline step from a copy that gets the
    heading's point size, a rule whose category has no point size from the
    entry as it is.  So the masked spans of [~~a~~] have no point size before
    the fence below it is highlighted and the one of the code block (10)
    after. *)
Theorem fence_changes_masked_format
        (globalMatch : QRegularExpression -> QString -> list QRegularExpressionMatch)
        (hl : MarkdownHighlighter) (t : QString) :
  startsWith t fence = true ->
  let hl' := highlightCodeBlock hl t in
  _formats hl' MaskedSyntax =
    setFontPointSize (_formats hl MaskedSyntax) (fontPointSize (_formats hl CodeBlock)) /\
  (forall k : Z, k <> MaskedSyntax -> _formats hl' k = _formats hl k) /\
  (forall (blocks : list nat) (k : Z),
      _formats (fold_left (rehighlightBlock globalMatch) blocks hl') k =
      _formats hl' k) /\
  (forall h t2, _formats (highlightHeadline h t2) = _formats h) /\
  (forall h rules t2,
      _formats (highlightAdditionalRules globalMatch h rules t2) = _formats h) /\
  (forall h t2,
      headingFound t2 = true ->
      let level := H1 + countHashes t2 6 - 1 in
      formatChanges (highlightHeadline h t2) =
        formatChanges h ++
        [ mkSpan 0 (qlength t2)
                 (setFontPointSize (_formats h MaskedSyntax)
                                   (fontPointSize (_formats h level)));
          mkSpan (countHashes t2 6) (qlength t2 - countHashes t2 6)
                 (_formats h level) ]) /\
  (forall r h m,
      0 < capturingGroup r ->
      Qle_bool (fontPointSize (_formats h (state r))) 0 = true ->
      isHeadingState (currentBlockState h) = false ->
      formatChanges (highlightMatch r h m) =
        formatChanges h ++
        [ mkSpan (capturedStart m (maskedGroup r)) (capturedLength m (maskedGroup r))
                 (_formats h MaskedSyntax);
          mkSpan (capturedStart m (capturingGroup r))
                 (capturedLength m (capturingGroup r)) (_formats h (state r)) ]) /\
  pointSizes (classify strikeThenFence 0) = [None; None] /\
  pointSizes (classify (classify strikeThenFence 1) 0) =
    [Some (10 # 1); Some (10 # 1)].
Proof.
  intros Hf hl'.
  assert (Hfs : forall k, _formats hl' k = fenced (_formats hl) k).
  { intros k. subst hl'. now rewrite formats_highlightCodeBlock, Hf. }
  split; [|split; [|split; [|split; [|split; [|split; [|split]]]]]].
  - rewrite Hfs. unfold fenced, setTextFormat. now rewrite Z.eqb_refl.
  - intros k Hk. rewrite Hfs. unfold fenced, setTextFormat.
    destruct (Z.eqb_spec k MaskedSyntax); [contradiction|reflexivity].
  - intros blocks.
    apply (fold_left_invariant
             (fun h => forall k, _formats h k = _formats hl' k));
      [|reflexivity].
    intros h n Hh k.
    destruct (formats_rehighlightBlock globalMatch h n) as [-> | ->];
      [apply Hh|].
    rewrite (fenced_twice (_formats hl) (_formats h)).
    + symmetry. apply Hfs.
    + intros j. now rewrite Hh, Hfs.
  - apply formats_highlightHeadline.
  - apply formats_highlightAdditionalRules.
  - intros h t2 Hh level. unfold highlightHeadline. rewrite Hh. cbv zeta.
    rewrite countHashes_first_six. fold level.
    unfold setCurrentBlockState. rewrite formatChanges_setUserState.
    unfold setFormat, emit. simpl. now rewrite <- app_assoc.
  - intros r h m Hg Hz Hs. unfold highlightMatch. cbv zeta.
    rewrite Hs. cbn [andb]. rewrite Hz. cbn [negb].
    replace (0 <? capturingGroup r) with true by (symmetry; now apply Z.ltb_lt).
    unfold setFormat, emit. simpl. now rewrite <- app_assoc.
  - vm_compute. repeat split.
Qed.

(** [fence_changes_masked_format] at the fence of [strikeThenFence]: the
    entry of the fresh table has no point size, the code block has 10. *)
Lemma fence_changes_masked_format_witness :
  fontPointSizeP (_formats strikeThenFence MaskedSyntax) = None /\
  fontPointSizeP (_formats (highlightCodeBlock strikeThenFence (qs "```"))
                           MaskedSyntax) = Some (10 # 1).
Proof.
  split; [reflexivity|].
  destruct (fence_changes_masked_format Matcher.globalMatch strikeThenFence
              (qs "```")) as (A & _); [reflexivity|].
  rewrite A. reflexivity.
Defined.

(** What the code does when a fence line with a space after the fence is
    classified twice in succession (C9): the rule of the trailing spaces
    paints the space masked before the code-block step changes the table, so
    that the first span has no point size the first time and the one of the
    code block the second time.  The states are the same, and so is what the
    two lists of spans leave on each character of the line. *)
Theorem fence_line_twice_differs :
  let once := classify fenceWithSpace 0 in
  let twice := classify once 0 in
  pointSizes once =
    [None; None; Some (10 # 1); Some (10 # 1); Some (10 # 1)] /\
  pointSizes twice =
    [Some (10 # 1); None; Some (10 # 1); Some (10 # 1); Some (10 # 1)] /\
  map (fun s => (sp_start s, sp_count s)) (formatChanges once) =
    map (fun s => (sp_start s, sp_count s)) (formatChanges twice) /\
  currentBlockState once = CodeBlock /\
  currentBlockState twice = CodeBlock /\
  map (formatAt 4 (formatChanges once)) [0; 1; 2; 3] =
    map (formatAt 4 (formatChanges twice)) [0; 1; 2; 3].
Proof. vm_compute. repeat split. Qed.

(** * More of the highlighter *)

(** ** The steps of one classification *)

Lemma formatAt_last_full (len : Z) (l : list Span) (f : QTextCharFormat) :
  allPainted len (l ++ [mkSpan 0 len f]) f.
Proof.
  intros i Hi. unfold formatAt. rewrite fold_left_app. simpl.
  unfold covers. simpl.
  replace (0 <? len) with true by (symmetry; apply Z.ltb_lt; lia).
  replace (0 <=? i) with true by (symmetry; apply Z.leb_le; lia).
  replace (i <? 0 + len) with true by (symmetry; apply Z.ltb_lt; lia).
  replace (i <? len) with true by (symmetry; apply Z.ltb_lt; lia).
  reflexivity.
Qed.

Lemma blockState_valid hl n :
  blockState hl n <> NoState ->
  exists k, n = Some k /\ (k < length (document hl))%nat.
Proof.
  destruct n as [k|]; simpl; [|intros H; now contradiction H].
  unfold blockAt. destruct (document hl !! k) eqn:E.
  - intros _. exists k. split; [reflexivity|now apply lookup_lt_Some in E].
  - intros H. now contradiction H.
Qed.

Lemma previousBlockState_addDirtyBlock hl n :
  previousBlockState (addDirtyBlock hl n) = previousBlockState hl.
Proof.
  unfold previousBlockState.
  rewrite blockState_addDirtyBlock. unfold addDirtyBlock, previousBlock.
  now destruct (negb _).
Qed.

(** The headline step changes the state of the line before only when that
    line has no state. *)
Lemma previous_highlightHeadline_stated hl t :
  previousBlockState hl <> NoState ->
  previousBlockState (highlightHeadline hl t) = previousBlockState hl.
Proof.
  intros Hp.
  assert (Hu : forall level : HighlighterState,
             previousBlockState (underline hl t level) = previousBlockState hl).
  { intros level. unfold underline.
    destruct ((previousBlockState hl =? level) ||
              (previousBlockState hl =? NoState)) eqn:Ec; [|reflexivity].
    destruct (0 <? qlength (blockText hl (previousBlock hl))); [|reflexivity].
    cbn [andb]. cbv zeta.
    assert (El : previousBlockState hl = level).
    { apply orb_true_iff in Ec as [Ec|Ec]; apply Z.eqb_eq in Ec;
        [exact Ec|contradiction]. }
    destruct (blockState_valid hl (previousBlock hl) Hp) as (p & Ep & Hlt).
    set (hlA := setFormat hl 0 (qlength t) _).
    set (hlB := setCurrentBlockState hlA HeadlineEnd).
    assert (HpB : previousBlock hlB = Some p).
    { unfold hlB, setCurrentBlockState.
      rewrite (frame_previousBlock _ _ (frame_setUserState hlA _ _)). exact Ep. }
    rewrite HpB.
    set (hlC := setUserState hlB (Some p) level).
    assert (HpC : previousBlock hlC = Some p).
    { unfold hlC. rewrite (frame_previousBlock _ _ (frame_setUserState hlB _ _)).
      exact HpB. }
    rewrite HpC, previousBlockState_addDirtyBlock.
    unfold previousBlockState at 1. rewrite HpC. unfold hlC.
    rewrite blockState_setUserState_eq; [now rewrite El|].
    unfold hlB, setCurrentBlockState. now rewrite length_setUserState. }
  unfold highlightHeadline. cbv zeta.
  destruct (headingFound t);
    [now rewrite previousBlockState_setCurrent|].
  destruct (hasOnlyHeadChars t "="%char); [apply Hu|].
  destruct (hasOnlyHeadChars t "-"%char); [apply Hu|].
  repeat match goal with
         | |- context [if ?c then _ else _] => destruct c
         end;
    repeat first [ rewrite previousBlockState_setCurrent
                 | rewrite previousBlockState_setFormat ];
    reflexivity.
Qed.

Lemma previous_highlightSyntax hl t :
  previousBlockState (highlightSyntax hl t) = previousBlockState hl.
Proof. destruct (highlightSyntax_eq hl t) as [l ->]. reflexivity. Qed.

Lemma previous_highlightCodeBlock hl t :
  previousBlockState (highlightCodeBlock hl t) = previousBlockState hl.
Proof.
  unfold highlightCodeBlock. cbv zeta.
  repeat match goal with
         | |- context [if ?c then _ else _] => destruct c
         end;
    repeat first [ rewrite previous_highlightSyntax
                 | rewrite previousBlockState_setCurrent
                 | rewrite previousBlockState_setFormat
                 | progress change (previousBlockState (withFormats ?h ?fs))
                     with (previousBlockState h) ];
    reflexivity.
Qed.

Lemma resetBlock_frame hl n :
  frame (mkHL (_highlightingRulesPre hl) (_highlightingRulesAfter hl)
              (_formats hl) (_dirtyTextBlocks hl) (_highlightingFinished hl)
              (document hl) n [] (highlighted hl))
        (resetBlock hl n).
Proof.
  unfold resetBlock. cbv zeta.
  eapply frame_trans; [apply frame_setCurrentBlockState|apply frame_setUserState].
Qed.

(** What [resetBlock] sets up. *)
Lemma resetBlock_spec hl n :
  currentBlock (resetBlock hl n) = n /\
  formatChanges (resetBlock hl n) = [] /\
  _formats (resetBlock hl n) = _formats hl /\
  _dirtyTextBlocks (resetBlock hl n) = _dirtyTextBlocks hl /\
  length (document (resetBlock hl n)) = length (document hl) /\
  (forall k, blockText (resetBlock hl n) k = blockText hl k) /\
  previousBlockState (resetBlock hl n) = blockState hl (previousOf n) /\
  ((n < length (document hl))%nat -> currentBlockState (resetBlock hl n) = NoState).
Proof.
  pose proof (resetBlock_frame hl n) as F.
  split; [exact (fr_current _ _ F)|].
  split; [destruct (fr_spans _ _ F) as [l E]; unfold resetBlock; cbv zeta;
          unfold setCurrentBlockState; now rewrite !formatChanges_setUserState|].
  split; [unfold resetBlock; cbv zeta; unfold setCurrentBlockState;
          now rewrite !formats_setUserState|].
  split; [unfold resetBlock; cbv zeta; unfold setCurrentBlockState;
          now rewrite !dirty_setUserState|].
  split; [exact (frame_length _ _ F)|].
  split; [intros k; exact (frame_blockText _ _ k F)|].
  split.
  - unfold resetBlock. cbv zeta.
    match goal with
    | |- previousBlockState (setUserState ?h (Some (currentBlock ?h)) ?s) = _ =>
        change (previousBlockState (setCurrentBlockState h s) = blockState hl (previousOf n))
    end.
    now rewrite !previousBlockState_setCurrent.
  - intros Hn. unfold resetBlock. cbv zeta.
    match goal with
    | |- currentBlockState (setUserState ?h (Some (currentBlock ?h)) ?s) = _ =>
        apply (currentBlockState_set h)
    end.
    rewrite (fr_current _ _ (frame_setCurrentBlockState _ NoState)).
    rewrite (frame_length _ _ (frame_setCurrentBlockState _ NoState)).
    exact Hn.
Qed.

Section Stages.

Variable globalMatch : QRegularExpression -> QString -> list QRegularExpressionMatch.

Lemma frame_beforeComment hl t : frame hl (beforeComment globalMatch hl t).
Proof.
  unfold beforeComment. destruct t as [|c t]; [apply frame_refl|]. cbv zeta.
  eapply frame_trans; [|apply frame_highlightAdditionalRules].
  eapply frame_trans; [|apply frame_highlightHeadline].
  apply frame_highlightAdditionalRules.
Qed.

Lemma formats_beforeComment hl t :
  _formats (beforeComment globalMatch hl t) = _formats hl.
Proof.
  unfold beforeComment. destruct t as [|c t]; [reflexivity|]. cbv zeta.
  rewrite formats_highlightAdditionalRules, formats_highlightHeadline.
  apply formats_highlightAdditionalRules.
Qed.

Lemma previous_beforeComment hl t :
  previousBlockState hl <> NoState ->
  previousBlockState (beforeComment globalMatch hl t) = previousBlockState hl.
Proof.
  intros Hp. unfold beforeComment. destruct t as [|c t]; [reflexivity|]. cbv zeta.
  rewrite previous_highlightAdditionalRules.
  rewrite previous_highlightHeadline_stated;
    rewrite previous_highlightAdditionalRules; [reflexivity|exact Hp].
Qed.

(** One classification of a block of the document, step by step. *)
Lemma rehighlightBlock_steps hl n b :
  blockAt hl n = Some b ->
  let h := blockSteps (beforeComment globalMatch (resetBlock hl n) (text b)) (text b) in
  blockState (rehighlightBlock globalMatch hl n) (Some n) = currentBlockState h /\
  formatChanges (rehighlightBlock globalMatch hl n) = formatChanges h /\
  _formats (rehighlightBlock globalMatch hl n) = _formats h /\
  document (rehighlightBlock globalMatch hl n) = document h /\
  _dirtyTextBlocks (rehighlightBlock globalMatch hl n) = _dirtyTextBlocks h.
Proof.
  intros Hb h. unfold rehighlightBlock. rewrite Hb.
  assert (Hn : currentBlock h = n).
  { unfold h, blockSteps.
    rewrite (fr_current _ _ (frame_highlightFrontmatterBlock _ _)).
    rewrite (fr_current _ _ (frame_highlightCodeBlock _ _)).
    rewrite (fr_current _ _ (frame_highlightCommentBlock _ _)).
    rewrite (fr_current _ _ (frame_beforeComment _ _)).
    apply resetBlock_spec. }
  split; [|repeat split].
  unfold currentBlockState. rewrite Hn. reflexivity.
Qed.

End Stages.

(** ** Headlines *)

(** The lines the headline step takes for a headline with hashes are the
    lines that start with one to six hashes and a space. *)
Theorem atx_heading_recognised (t : QString) :
  headingFound t = true <->
  exists (n : nat) (rest : QString), (1 <= n <= 6)%nat /\ t = headingLine n rest.
Proof.
  split.
  - intros H. unfold headingFound in H.
    repeat (apply orb_true_iff in H as [H|H]);
      apply startsWith_prefix in H as [r ->].
    + exists 1%nat, r. split; [lia|reflexivity].
    + exists 2%nat, r. split; [lia|reflexivity].
    + exists 3%nat, r. split; [lia|reflexivity].
    + exists 4%nat, r. split; [lia|reflexivity].
    + exists 5%nat, r. split; [lia|reflexivity].
    + exists 6%nat, r. split; [lia|reflexivity].
  - intros (n & rest & Hn & ->). unfold headingLine.
    destruct n as [|[|[|[|[|[|[|n]]]]]]]; try lia; reflexivity.
Qed.

Lemma countHashes_headingLine (n : nat) (rest : QString) :
  (1 <= n <= 6)%nat ->
  countHashes (headingLine n rest) 6 = Z.of_nat n + countHashes rest (5 - n).
Proof.
  intros Hn. unfold headingLine.
  destruct n as [|[|[|[|[|[|[|n]]]]]]]; try lia;
    cbn -[Z.add Z.of_nat countHashes];
    cbn [countHashes];
    repeat (replace (qchar_eqb hash hash) with true by reflexivity);
    replace (qchar_eqb " "%char hash) with false by reflexivity;
    cbn [Nat.sub]; try lia.
  destruct rest; simpl; lia.
Qed.

(** The level of a headline with hashes is the number of hashes among the
    first six characters of the line, not the number of leading hashes: for
    [n] hashes, a space and a rest with [k] hashes among the characters of
    the rest that are among the first six of the line, the state is that of
    level [n + k], which is at most H6, the whole line is painted masked and
    the format of that level is painted from offset [n + k] on. *)
Theorem atx_heading_level (hl : MarkdownHighlighter) (n : nat) (rest : QString) :
  (1 <= n <= 6)%nat ->
  (currentBlock hl < length (document hl))%nat ->
  let t := headingLine n rest in
  let count := Z.of_nat n + countHashes rest (5 - n) in
  let level := H1 + count - 1 in
  H1 <= level <= H6 /\
  currentBlockState (highlightHeadline hl t) = level /\
  formatChanges (highlightHeadline hl t) =
    formatChanges hl ++
    [ mkSpan 0 (qlength t) (maskedFor hl level);
      mkSpan count (qlength t - count) (_formats hl level) ].
Proof.
  intros Hn Hcur t count level.
  assert (Hfound : headingFound t = true).
  { subst t. unfold headingLine.
    destruct n as [|[|[|[|[|[|[|n]]]]]]]; try lia; reflexivity. }
  assert (Hcount : countHashes t 6 = count)
    by (apply countHashes_headingLine; exact Hn).
  split.
  - pose proof (headingFound_count t Hfound) as Hc. rewrite Hcount in Hc.
    subst level. simpl. lia.
  - unfold highlightHeadline. rewrite Hfound. cbv zeta.
    rewrite countHashes_first_six, Hcount. fold level. split.
    + apply currentBlockState_set. exact Hcur.
    + unfold setCurrentBlockState. rewrite formatChanges_setUserState.
      unfold setFormat, emit, maskedFor. simpl. now rewrite <- app_assoc.
Qed.

(** [atx_heading_level] at ["# a#b"]: one leading hash, level H2. *)
Lemma atx_heading_level_witness :
  let hl := onBlock [mkBlock (qs "# a#b") NoState] 0 in
  let t := headingLine 1 (qs "a#b") in
  let count := Z.of_nat 1 + countHashes (qs "a#b") (5 - 1) in
  let level := H1 + count - 1 in
  H1 <= level <= H6 /\
  currentBlockState (highlightHeadline hl t) = level /\
  formatChanges (highlightHeadline hl t) =
    formatChanges hl ++
    [ mkSpan 0 (qlength t) (maskedFor hl level);
      mkSpan count (qlength t - count) (_formats hl level) ].
Proof.
  apply (atx_heading_level (onBlock [mkBlock (qs "# a#b") NoState] 0) 1 (qs "a#b")).
  - lia.
  - simpl. lia.
Defined.

Lemma underline_char_not_heading (t : QString) (c : QChar) (level : HighlighterState) :
  underlineOf c level ->
  hasOnlyHeadChars t c = true ->
  headingFound t = false /\
  forall hl, highlightHeadline hl t = underline hl t level.
Proof.
  intros Hc Hu.
  destruct (hasOnlyHeadChars_cons t c Hu) as (t' & -> & Ht').
  destruct Hc as [[-> ->]|[-> ->]].
  - split; [reflexivity|]. intros hl. unfold highlightHeadline.
    replace (headingFound ("="%char :: t')) with false by reflexivity.
    now rewrite Hu.
  - split; [reflexivity|]. intros hl. unfold highlightHeadline.
    replace (headingFound ("-"%char :: t')) with false by reflexivity.
    replace (hasOnlyHeadChars ("-"%char :: t') "="%char) with false by reflexivity.
    now rewrite Hu.
Qed.

(** A line of [=] only or of [-] only does nothing in the headline step when
    the line before is empty or missing, or has a state that is neither the
    level of the underline nor NoState: nothing is painted, no state is set,
    and the line after is not looked at either. *)
Theorem underline_without_title (hl : MarkdownHighlighter) (t : QString)
        (c : QChar) (level : HighlighterState) :
  underlineOf c level ->
  hasOnlyHeadChars t c = true ->
  blockText hl (previousBlock hl) = [] \/
  (previousBlockState hl <> level /\ previousBlockState hl <> NoState) ->
  highlightHeadline hl t = hl.
Proof.
  intros Hc Hu Hprev.
  destruct (underline_char_not_heading t c level Hc Hu) as [_ ->].
  unfold underline.
  destruct Hprev as [-> | [Hl Hn]].
  - now rewrite andb_false_r.
  - apply Z.eqb_neq in Hl, Hn. now rewrite Hl, Hn.
Qed.

(** [underline_without_title] on ["```"; "---"] with the fence line open. *)
Lemma underline_without_title_witness :
  let hl := onBlock [mkBlock (qs "```") CodeBlock; mkBlock (qs "---") NoState] 1 in
  highlightHeadline hl (qs "---") = hl.
Proof.
  apply (underline_without_title
           (onBlock [mkBlock (qs "```") CodeBlock; mkBlock (qs "---") NoState] 1)
           (qs "---") "-"%char H2).
  - right. split; reflexivity.
  - reflexivity.
  - right. split; discriminate.
Defined.

Section LookaheadH2.

Variable globalMatch : QRegularExpression -> QString -> list QRegularExpressionMatch.

(** Highlighting a line that is no headline and no underline itself, and
    whose next line is an underline of [-]: the look-ahead paints the whole
    line as H2, and what follows only adds to that. *)
Lemma lookahead_H2 (h : MarkdownHighlighter) (p : nat) (t prev : QString) :
  blockText h (Some p) = prev ->
  blockText h (Some (S p)) = t ->
  prev <> [] ->
  headingFound prev = false ->
  hasOnlyHeadChars prev "="%char = false ->
  hasOnlyHeadChars prev "-"%char = false ->
  hasOnlyHeadChars t "-"%char = true ->
  In (mkSpan 0 (qlength prev) (_formats h H2))
     (formatChanges (rehighlightBlock globalMatch h p)).
Proof.
  intros Hprev Ht Hne Hh He Hd Hu.
  assert (Hvalid : (S p < length (document h))%nat).
  { apply blockText_nonempty_valid. rewrite Ht.
    apply hasOnlyHeadChars_cons in Hu as (t' & -> & _). discriminate. }
  assert (Hb : exists b, blockAt h p = Some b /\ text b = prev).
  { unfold blockText in Hprev. destruct (blockAt h p) as [b|]; [now exists b|].
    now contradiction Hne. }
  destruct Hb as (b & Hb & Hb').
  destruct (rehighlightBlock_steps globalMatch h p b Hb) as (_ & -> & _).
  rewrite Hb'.
  destruct prev as [|c prev']; [now contradiction Hne|].
  set (prev := c :: prev') in *.
  unfold beforeComment. fold prev. cbv zeta.
  set (h1 := resetBlock h p).
  destruct (resetBlock_spec h p) as (Hc1 & _ & Hf1 & _ & Hl1 & Ht1 & _).
  fold h1 in Hc1, Hf1, Hl1, Ht1.
  set (x1 := highlightAdditionalRules globalMatch h1 (_highlightingRulesPre h1) prev).
  assert (Fx1 : frame h1 x1) by apply frame_highlightAdditionalRules.
  set (x2 := highlightHeadline x1 prev).
  assert (Hx2 : In (mkSpan 0 (qlength prev) (_formats h H2)) (formatChanges x2)).
  { unfold x2, highlightHeadline. rewrite Hh, He, Hd. cbv zeta.
    assert (Hnext : blockText x1 (nextBlock x1) = t).
    { rewrite (frame_nextBlock _ _ Fx1), (frame_blockText _ _ _ Fx1).
      unfold nextBlock. rewrite Hc1, Hl1.
      destruct (decide (S p < length (document h))%nat); [|lia].
      now rewrite Ht1. }
    rewrite Hnext, Hu.
    destruct (hasOnlyHeadChars_cons t _ Hu) as (t' & Et & _).
    replace (hasOnlyHeadChars t "="%char) with false by (now rewrite Et).
    unfold setCurrentBlockState. rewrite formatChanges_setUserState.
    simpl. apply in_or_app. right. left.
    rewrite (fr_formats _ _ Fx1) by discriminate. now rewrite Hf1. }
  eapply in_extends; [|exact Hx2].
  apply (fr_spans x2). unfold blockSteps.
  eapply frame_trans; [|apply frame_highlightFrontmatterBlock].
  eapply frame_trans; [|apply frame_highlightCodeBlock].
  eapply frame_trans; [|apply frame_highlightCommentBlock].
  apply frame_highlightAdditionalRules.
Qed.

(** On a line of [-] only, after a line that is not empty and whose state is
    H2 or NoState, the headline step makes the state of the line HeadlineEnd,
    paints the whole line masked (in the point size of H2), makes the state
    of the line before H2 and puts that line into the queue.  When that line
    is highlighted again, and it is itself neither a headline with hashes nor
    a line of [=] or of [-] only, the H2 format is painted over its whole
    text. *)
Theorem setext_underline_h2 (hl : MarkdownHighlighter) (t prev : QString) (p : nat) :
  currentBlock hl = S p ->
  blockText hl (Some (S p)) = t ->
  blockText hl (Some p) = prev ->
  hasOnlyHeadChars t "-"%char = true ->
  prev <> [] ->
  previousBlockState hl = H2 \/ previousBlockState hl = NoState ->
  let hl' := highlightHeadline hl t in
  currentBlockState hl' = HeadlineEnd /\
  formatChanges hl' = formatChanges hl ++ [mkSpan 0 (qlength t) (maskedFor hl H2)] /\
  blockState hl' (Some p) = H2 /\
  In p (_dirtyTextBlocks hl') /\
  (headingFound prev = false ->
   hasOnlyHeadChars prev "="%char = false ->
   hasOnlyHeadChars prev "-"%char = false ->
   forall h, map text (document h) = map text (document hl) ->
             In (mkSpan 0 (qlength prev) (_formats h H2))
                (formatChanges (rehighlightBlock globalMatch h p))).
Proof.
  intros Hcur Ht Hprev Hu Hne Hst hl'.
  assert (Hvalid : (S p < length (document hl))%nat).
  { apply blockText_nonempty_valid. rewrite Ht.
    apply hasOnlyHeadChars_cons in Hu as (t' & -> & _). discriminate. }
  assert (E : hl' = underline hl t H2).
  { subst hl'.
    apply (underline_char_not_heading t "-"%char H2); auto.
    right. now split. }
  rewrite E.
  destruct (underline_applies hl t H2 p Hcur Hvalid) as (A & B & C & D);
    [now rewrite Hprev|exact Hst|].
  repeat (split; [assumption|]).
  intros Hh He Hd h Htexts.
  apply (lookahead_H2 h p t prev); auto.
  - now rewrite (blockText_of_texts _ _ _ Htexts).
  - now rewrite (blockText_of_texts _ _ _ Htexts).
Qed.

End LookaheadH2.

(** [setext_underline_h2] on the second line of ["Title"; "---"]. *)
Lemma setext_underline_h2_witness :
  let hl := onBlock [mkBlock (qs "Title") NoState; mkBlock (qs "---") NoState] 1 in
  let hl' := highlightHeadline hl (qs "---") in
  currentBlockState hl' = HeadlineEnd /\
  formatChanges hl' =
    formatChanges hl ++ [mkSpan 0 (qlength (qs "---")) (maskedFor hl H2)] /\
  blockState hl' (Some 0%nat) = H2 /\
  In 0%nat (_dirtyTextBlocks hl') /\
  (headingFound (qs "Title") = false ->
   hasOnlyHeadChars (qs "Title") "="%char = false ->
   hasOnlyHeadChars (qs "Title") "-"%char = false ->
   forall h, map text (document h) = map text (document hl) ->
             In (mkSpan 0 (qlength (qs "Title")) (_formats h H2))
                (formatChanges (rehighlightBlock Matcher.globalMatch h 0))).
Proof.
  intros hl.
  apply (setext_underline_h2 Matcher.globalMatch hl (qs "---") (qs "Title") 0%nat).
  - reflexivity.
  - reflexivity.
  - reflexivity.
  - reflexivity.
  - discriminate.
  - right. reflexivity.
Defined.

(** ** Lines of blocks *)

Section Prepared.

Variable globalMatch : QRegularExpression -> QString -> list QRegularExpressionMatch.

Lemma previous_beforeComment_plain hl t :
  hasOnlyHeadChars t "="%char = false ->
  hasOnlyHeadChars t "-"%char = false ->
  previousBlockState (beforeComment globalMatch hl t) = previousBlockState hl.
Proof.
  intros He Hd. unfold beforeComment. destruct t as [|c t]; [reflexivity|].
  cbv zeta. rewrite previous_highlightAdditionalRules.
  rewrite previous_highlightHeadline by assumption.
  apply previous_highlightAdditionalRules.
Qed.

Lemma prepared_beforeComment hl n b :
  blockAt hl n = Some b ->
  prepared hl n (text b) (beforeComment globalMatch (resetBlock hl n) (text b)).
Proof.
  intros Hb.
  assert (Hn : (n < length (document hl))%nat)
    by (unfold blockAt in Hb; now apply lookup_lt_Some in Hb).
  pose proof (frame_beforeComment globalMatch (resetBlock hl n) (text b)) as F.
  destruct (resetBlock_spec hl n) as (Hc & Hs & Hf & Hq & Hl & Ht & Hp & Hst).
  constructor.
  - now rewrite (fr_current _ _ F).
  - rewrite (frame_length _ _ F), Hl. exact Hn.
  - now rewrite formats_beforeComment.
  - intros k. now rewrite (frame_blockText _ _ k F).
  - intros ->. cbn [beforeComment]. auto.
  - intros [H|[He Hd]].
    + rewrite previous_beforeComment; rewrite Hp; [reflexivity|exact H].
    + now rewrite previous_beforeComment_plain.
Qed.

End Prepared.

Lemma frame_blockSteps hl t : frame hl (blockSteps hl t).
Proof.
  unfold blockSteps.
  eapply frame_trans; [|apply frame_highlightFrontmatterBlock].
  eapply frame_trans; [|apply frame_highlightCodeBlock].
  apply frame_highlightCommentBlock.
Qed.

(** The front matter step does nothing on a line that is not the first one
    and does not follow a line of the front matter. *)
Lemma highlightFrontmatterBlock_idle hl t :
  previousBlockState hl <> FrontmatterBlock ->
  currentBlock hl <> 0%nat ->
  highlightFrontmatterBlock hl t = hl.
Proof.
  intros Hp Hc. unfold highlightFrontmatterBlock. cbv zeta.
  apply Z.eqb_neq in Hp. rewrite Hp.
  destruct (negb _); [reflexivity|].
  destruct (currentBlock hl) as [|k]; [now contradiction Hc|].
  destruct (qstring_eqb t dashes); reflexivity.
Qed.

Lemma previousOf_stated hl n :
  blockState hl (previousOf n) <> NoState -> n <> 0%nat.
Proof. intros H ->. now apply H. Qed.

Lemma highlightSyntax_empty hl : highlightSyntax hl [] = hl.
Proof. reflexivity. Qed.

Lemma forall_count_app (l : list Span) (s : Span) :
  Forall (fun sp => sp_count sp = 0) l -> sp_count s = 0 ->
  Forall (fun sp => sp_count sp = 0) (l ++ [s]).
Proof. intros Hl Hs. apply Forall_app. split; [exact Hl|]. now constructor. Qed.

Lemma validCurrent_frame hl hl' : frame hl hl' -> validCurrent hl -> validCurrent hl'.
Proof.
  unfold validCurrent. intros F H.
  now rewrite (fr_current _ _ F), (frame_length _ _ F).
Qed.

Lemma previousBlockState_first hl :
  currentBlock hl = 0%nat -> previousBlockState hl = NoState.
Proof. intros H. unfold previousBlockState, previousBlock. now rewrite H. Qed.

Lemma highlightCodeBlock_idle hl t :
  startsWith t fence = false ->
  previousBlockState hl <> CodeBlock ->
  previousBlockState hl <> CodeCpp ->
  highlightCodeBlock hl t = hl.
Proof.
  intros Hf H1 H2. unfold highlightCodeBlock. rewrite Hf.
  apply Z.eqb_neq in H1, H2. now rewrite H1, H2.
Qed.

Lemma highlightCodeBlock_plain hl t :
  startsWith t fence = false ->
  previousBlockState hl = CodeBlock ->
  highlightCodeBlock hl t =
  setCurrentBlockState (setFormat hl 0 (qlength t) (_formats hl CodeBlock)) CodeBlock.
Proof. intros Hf Hp. unfold highlightCodeBlock. now rewrite Hf, Hp. Qed.

Lemma highlightCodeBlock_cpp hl t :
  startsWith t fence = false ->
  previousBlockState hl = CodeCpp ->
  highlightCodeBlock hl t = highlightSyntax (setCurrentBlockState hl CodeCpp) t.
Proof. intros Hf Hp. unfold highlightCodeBlock. now rewrite Hf, Hp. Qed.

Lemma highlightCommentBlock_empty hl :
  highlightCommentBlock hl [] =
  if previousBlockState hl =? Comment
  then setFormat (setCurrentBlockState hl Comment) 0 0
                 (_formats (setCurrentBlockState hl Comment) Comment)
  else hl.
Proof.
  unfold highlightCommentBlock. simpl.
  now destruct (previousBlockState hl =? 11).
Qed.

Lemma highlightFrontmatterBlock_empty hl :
  highlightFrontmatterBlock hl [] =
  if qstring_eqb (firstBlockText hl) dashes && (previousBlockState hl =? FrontmatterBlock)
  then setFormat (setCurrentBlockState hl FrontmatterBlock) 0 0
                 (_formats (setCurrentBlockState hl FrontmatterBlock) MaskedSyntax)
  else hl.
Proof.
  unfold highlightFrontmatterBlock. simpl.
  destruct (qstring_eqb (firstBlockText hl) dashes); [|reflexivity].
  now destruct (previousBlockState hl =? 27).
Qed.

Lemma firstBlockText_frame hl hl' :
  frame hl hl' -> firstBlockText hl' = firstBlockText hl.
Proof. intros F. unfold firstBlockText. now rewrite (frame_blockText _ _ _ F). Qed.

Lemma formatChanges_setCurrentBlockState hl s :
  formatChanges (setCurrentBlockState hl s) = formatChanges hl.
Proof. unfold setCurrentBlockState. apply formatChanges_setUserState. Qed.

Lemma formats_setCurrentBlockState hl s :
  _formats (setCurrentBlockState hl s) = _formats hl.
Proof. unfold setCurrentBlockState. apply formats_setUserState. Qed.

Lemma dirty_setCurrentBlockState hl s :
  _dirtyTextBlocks (setCurrentBlockState hl s) = _dirtyTextBlocks hl.
Proof. unfold setCurrentBlockState. apply dirty_setUserState. Qed.

(** The block steps on an empty line that nothing is painted on yet. *)
Lemma blockSteps_empty x :
  validCurrent x ->
  currentBlockState x = NoState ->
  formatChanges x = [] ->
  let h := blockSteps x [] in
  currentBlockState h =
    blankLineState (qstring_eqb (firstBlockText x) dashes) (previousBlockState x) /\
  Forall (fun sp => sp_count sp = 0) (formatChanges h) /\
  _formats h = _formats x /\
  _dirtyTextBlocks h = _dirtyTextBlocks x.
Proof.
  intros Hv Hc Hs h. subst h. unfold blockSteps, blankLineState.
  rewrite highlightCommentBlock_empty.
  destruct (Z.eqb_spec (previousBlockState x) Comment) as [E|E].
  - set (y := setFormat _ 0 0 _).
    assert (Hp : previousBlockState y = Comment).
    { unfold y. now rewrite previousBlockState_setFormat, previousBlockState_setCurrent. }
    rewrite highlightCodeBlock_idle;
      [|reflexivity|rewrite Hp; discriminate|rewrite Hp; discriminate].
    rewrite highlightFrontmatterBlock_empty, Hp.
    replace ((Comment : Z) =? FrontmatterBlock) with false by reflexivity.
    rewrite andb_false_r. cbn [orb]. rewrite E. unfold y.
    rewrite currentBlockState_setFormat.
    split; [now apply currentBlockState_set|].
    split; [|split].
    + cbn [formatChanges setFormat withFormatChanges emit].
      rewrite formatChanges_setCurrentBlockState, Hs. now repeat constructor.
    + cbn [_formats setFormat withFormatChanges]. apply formats_setCurrentBlockState.
    + cbn [_dirtyTextBlocks setFormat withFormatChanges].
      apply dirty_setCurrentBlockState.
  - cbn [orb].
    destruct (Z.eqb_spec (previousBlockState x) CodeBlock) as [E4|E4].
    + rewrite highlightCodeBlock_plain by (reflexivity || exact E4).
      set (z := setCurrentBlockState _ CodeBlock).
      assert (Hp : previousBlockState z = CodeBlock).
      { unfold z. now rewrite previousBlockState_setCurrent, previousBlockState_setFormat. }
      rewrite highlightFrontmatterBlock_empty, Hp.
      replace ((CodeBlock : Z) =? FrontmatterBlock) with false by reflexivity.
      rewrite andb_false_r. cbn [orb]. rewrite E4. unfold z.
      split; [now apply currentBlockState_set|].
      split; [|split].
      * rewrite formatChanges_setCurrentBlockState.
        cbn [formatChanges setFormat withFormatChanges emit].
        rewrite Hs. now repeat constructor.
      * now rewrite formats_setCurrentBlockState.
      * now rewrite dirty_setCurrentBlockState.
    + destruct (Z.eqb_spec (previousBlockState x) CodeCpp) as [E2|E2].
      * rewrite highlightCodeBlock_cpp by (reflexivity || exact E2).
        rewrite highlightSyntax_empty.
        set (z := setCurrentBlockState _ CodeCpp).
        assert (Hp : previousBlockState z = CodeCpp).
        { unfold z. now rewrite previousBlockState_setCurrent. }
        rewrite highlightFrontmatterBlock_empty, Hp.
        replace ((CodeCpp : Z) =? FrontmatterBlock) with false by reflexivity.
        rewrite andb_false_r. cbn [orb]. rewrite E2. unfold z.
        split; [now apply currentBlockState_set|].
        split; [|split].
        -- rewrite formatChanges_setCurrentBlockState, Hs. constructor.
        -- now rewrite formats_setCurrentBlockState.
        -- now rewrite dirty_setCurrentBlockState.
      * rewrite highlightCodeBlock_idle by (reflexivity || assumption).
        cbn [orb]. rewrite highlightFrontmatterBlock_empty.
        rewrite (andb_comm (qstring_eqb _ _)).
        destruct (_ && _).
        -- rewrite currentBlockState_setFormat.
           split; [now apply currentBlockState_set|].
           split; [|split].
           ++ cbn [formatChanges setFormat withFormatChanges emit].
              rewrite formatChanges_setCurrentBlockState, Hs. now repeat constructor.
           ++ cbn [_formats setFormat withFormatChanges].
              apply formats_setCurrentBlockState.
           ++ cbn [_dirtyTextBlocks setFormat withFormatChanges].
              apply dirty_setCurrentBlockState.
        -- split; [exact Hc|]. split; [rewrite Hs; constructor|]. now split.
Qed.

Section BlockLines.

Variable globalMatch : QRegularExpression -> QString -> list QRegularExpressionMatch.

(** A blank line runs no rule and no headline step and takes its state from
    the line before, whatever the matcher: after a Comment, CodeBlock or
    CodeCpp line it gets that state; after a FrontmatterBlock line, in a
    document whose first line is ["---"], it gets FrontmatterBlock; in every
    other case it has no state.  What is painted on it has no length, and
    neither the format table nor the queue changes. *)
Theorem blank_line_state (hl : MarkdownHighlighter) (n : nat) (b : QTextBlock) :
  blockAt hl n = Some b ->
  text b = [] ->
  let hl' := rehighlightBlock globalMatch hl n in
  blockState hl' (Some n) =
    blankLineState (qstring_eqb (firstBlockText hl) dashes)
                   (blockState hl (previousOf n)) /\
  Forall (fun sp => sp_count sp = 0) (formatChanges hl') /\
  _formats hl' = _formats hl /\
  _dirtyTextBlocks hl' = _dirtyTextBlocks hl.
Proof.
  intros Hb Ht hl'. subst hl'.
  destruct (rehighlightBlock_steps globalMatch hl n b Hb) as (-> & -> & -> & _ & ->).
  pose proof (prepared_beforeComment globalMatch hl n b Hb) as P.
  rewrite Ht in *.
  set (x := beforeComment globalMatch (resetBlock hl n) []) in *.
  destruct (pr_empty _ _ _ _ P eq_refl) as (Hs & Hc & Hq).
  assert (Hv : validCurrent x).
  { unfold validCurrent. rewrite (pr_current _ _ _ _ P). apply (pr_valid _ _ _ _ P). }
  destruct (blockSteps_empty x Hv Hc Hs) as (A & B & C & D).
  rewrite A, C, D, (pr_formats _ _ _ _ P), Hq.
  rewrite (pr_previous _ _ _ _ P) by (right; split; reflexivity).
  unfold firstBlockText at 1. rewrite (pr_texts _ _ _ _ P).
  repeat split; assumption.
Qed.

End BlockLines.

(** [blank_line_state] on the blank line of an open code block. *)
Lemma blank_line_state_witness :
  let hl := onBlock [mkBlock (qs "```") CodeBlock; mkBlock [] NoState] 0 in
  let hl' := rehighlightBlock Matcher.globalMatch hl 1 in
  blockState hl' (Some 1%nat) =
    blankLineState (qstring_eqb (firstBlockText hl) dashes)
                   (blockState hl (previousOf 1)) /\
  Forall (fun sp => sp_count sp = 0) (formatChanges hl') /\
  _formats hl' = _formats hl /\
  _dirtyTextBlocks hl' = _dirtyTextBlocks hl.
Proof.
  apply (blank_line_state Matcher.globalMatch
           (onBlock [mkBlock (qs "```") CodeBlock; mkBlock [] NoState] 0)
           1 (mkBlock [] NoState)).
  - reflexivity.
  - reflexivity.
Defined.

(** ** Lines inside a code block, fence lines *)

Lemma valid_prepared hl n t x : prepared hl n t x -> validCurrent x.
Proof.
  intros P. unfold validCurrent. rewrite (pr_current _ _ _ _ P).
  apply (pr_valid _ _ _ _ P).
Qed.

Section CodeLines.

Variable globalMatch : QRegularExpression -> QString -> list QRegularExpressionMatch.

(** A line that does not start with a fence and follows a CodeBlock or
    CodeCpp line gets the state of that line, whatever the rules matched on
    it and whatever the headline and comment steps did, and the format table
    stays as it is.  After a CodeBlock line every character of the line ends
    up in the CodeBlock format: what the rules painted is painted over. *)
Theorem code_block_line (hl : MarkdownHighlighter) (n : nat) (b : QTextBlock) :
  blockAt hl n = Some b ->
  startsWith (text b) fence = false ->
  blockState hl (previousOf n) = CodeBlock \/
  blockState hl (previousOf n) = CodeCpp ->
  let hl' := rehighlightBlock globalMatch hl n in
  blockState hl' (Some n) = blockState hl (previousOf n) /\
  _formats hl' = _formats hl /\
  (blockState hl (previousOf n) = CodeBlock ->
   allPainted (qlength (text b)) (formatChanges hl') (_formats hl CodeBlock)).
Proof.
  intros Hb Hf Hs hl'. subst hl'.
  destruct (rehighlightBlock_steps globalMatch hl n b Hb) as (-> & -> & -> & _).
  pose proof (prepared_beforeComment globalMatch hl n b Hb) as P.
  set (t := text b) in *.
  set (x := beforeComment globalMatch (resetBlock hl n) t) in *.
  set (s := blockState hl (previousOf n)) in *.
  assert (Hne : s <> NoState) by (destruct Hs as [-> | ->]; discriminate).
  assert (Hn0 : n <> 0%nat) by (apply (previousOf_stated hl), Hne).
  unfold blockSteps.
  set (y := highlightCommentBlock x t).
  assert (Fy : frame x y) by apply frame_highlightCommentBlock.
  assert (Hpy : previousBlockState y = s).
  { unfold y. rewrite previous_highlightCommentBlock.
    apply (pr_previous _ _ _ _ P). now left. }
  assert (Hvy : validCurrent y)
    by (apply (validCurrent_frame x); [exact Fy|apply (valid_prepared _ _ _ _ P)]).
  assert (Hfy : _formats y = _formats hl).
  { unfold y. rewrite formats_highlightCommentBlock. apply (pr_formats _ _ _ _ P). }
  set (z := highlightCodeBlock y t).
  assert (Hz : highlightFrontmatterBlock z t = z).
  { apply highlightFrontmatterBlock_idle.
    - unfold z. rewrite previous_highlightCodeBlock, Hpy.
      destruct Hs as [-> | ->]; discriminate.
    - unfold z. rewrite (fr_current _ _ (frame_highlightCodeBlock y t)).
      rewrite (fr_current _ _ Fy), (pr_current _ _ _ _ P). exact Hn0. }
  rewrite Hz. unfold z.
  rewrite formats_highlightCodeBlock, Hf, Hfy.
  destruct Hs as [E|E].
  - rewrite highlightCodeBlock_plain by (rewrite ?Hpy; assumption).
    split; [rewrite E; now apply currentBlockState_set|].
    split; [reflexivity|]. intros _.
    rewrite formatChanges_setCurrentBlockState.
    cbn [formatChanges setFormat withFormatChanges emit]. rewrite Hfy.
    apply formatAt_last_full.
  - rewrite highlightCodeBlock_cpp by (rewrite ?Hpy; assumption).
    split; [|split; [reflexivity|]].
    + rewrite currentBlockState_highlightSyntax, E.
      now apply currentBlockState_set.
    + rewrite E. discriminate.
Qed.

(** A line that starts with a fence: after a FrontmatterBlock line of a
    document whose first line is ["---"] it stays FrontmatterBlock; else it
    closes the code block when the line before is inside one, and opens one
    in any other case.  Every character of the line ends up in the masked
    format of the table as the classification leaves it. *)
Theorem fence_line_masked (hl : MarkdownHighlighter) (n : nat) (b : QTextBlock) :
  blockAt hl n = Some b ->
  startsWith (text b) fence = true ->
  let hl' := rehighlightBlock globalMatch hl n in
  blockState hl' (Some n) =
    fenceLineState (qstring_eqb (firstBlockText hl) dashes)
                   (blockState hl (previousOf n)) (text b) /\
  allPainted (qlength (text b)) (formatChanges hl') (_formats hl' MaskedSyntax).
Proof.
  intros Hb Hf hl'. subst hl'.
  destruct (rehighlightBlock_steps globalMatch hl n b Hb) as (-> & -> & -> & _).
  pose proof (prepared_beforeComment globalMatch hl n b Hb) as P.
  set (t := text b) in *.
  set (x := beforeComment globalMatch (resetBlock hl n) t) in *.
  set (s := blockState hl (previousOf n)) in *.
  destruct (fence_not_underline t Hf) as (_ & He & Hd).
  unfold blockSteps.
  set (y := highlightCommentBlock x t).
  assert (Fy : frame x y) by apply frame_highlightCommentBlock.
  assert (Hpy : previousBlockState y = s).
  { unfold y. rewrite previous_highlightCommentBlock.
    apply (pr_previous _ _ _ _ P). right. now split. }
  assert (Hvy : validCurrent y)
    by (apply (validCurrent_frame x); [exact Fy|apply (valid_prepared _ _ _ _ P)]).
  destruct (highlightCodeBlock_fence y t Hf Hvy) as (Hcz & Hsz).
  set (z := highlightCodeBlock y t) in *.
  assert (Fz : frame y z) by apply frame_highlightCodeBlock.
  assert (Hvz : validCurrent z) by (apply (validCurrent_frame y); assumption).
  assert (Hpz : previousBlockState z = s).
  { unfold z. now rewrite previous_highlightCodeBlock. }
  assert (Hfirst : firstBlockText z = firstBlockText hl).
  { rewrite (firstBlockText_frame y z Fz), (firstBlockText_frame x y Fy).
    unfold firstBlockText. apply (pr_texts _ _ _ _ P). }
  assert (Hnd : qstring_eqb t dashes = false).
  { apply (startsWith_app t (qs "`") (qs "``")) in Hf.
    apply startsWith_prefix in Hf as [r ->]. reflexivity. }
  unfold highlightFrontmatterBlock, fenceLineState. cbv zeta.
  rewrite Hnd, Hpz, Hfirst, (andb_comm (s =? FrontmatterBlock)).
  destruct (qstring_eqb (firstBlockText hl) dashes); cbn [negb andb].
  - destruct (s =? FrontmatterBlock).
    + rewrite currentBlockState_setFormat.
      split; [now apply currentBlockState_set|].
      cbn [formatChanges _formats setFormat withFormatChanges emit].
      apply formatAt_last_full.
    + rewrite Hcz, Hpy. split; [reflexivity|].
      rewrite Hsz. apply formatAt_last_full.
  - rewrite Hcz, Hpy. split; [reflexivity|].
    rewrite Hsz. apply formatAt_last_full.
Qed.

End CodeLines.

(** [code_block_line] on the second line of ["```"; "# **a**"]. *)
Lemma code_block_line_witness :
  let hl := onBlock [mkBlock (qs "```") CodeBlock; mkBlock (qs "# **a**") NoState] 0 in
  let hl' := rehighlightBlock Matcher.globalMatch hl 1 in
  blockState hl' (Some 1%nat) = blockState hl (previousOf 1) /\
  _formats hl' = _formats hl /\
  (blockState hl (previousOf 1) = CodeBlock ->
   allPainted (qlength (text (mkBlock (qs "# **a**") NoState)))
              (formatChanges hl') (_formats hl CodeBlock)).
Proof.
  apply (code_block_line Matcher.globalMatch
           (onBlock [mkBlock (qs "```") CodeBlock; mkBlock (qs "# **a**") NoState] 0)
           1 (mkBlock (qs "# **a**") NoState)).
  - reflexivity.
  - reflexivity.
  - left. reflexivity.
Defined.

(** [fence_line_masked] on the line that closes ["```"; "```"]. *)
Lemma fence_line_masked_witness :
  let hl := onBlock [mkBlock (qs "```") CodeBlock; mkBlock (qs "```") NoState] 0 in
  let hl' := rehighlightBlock Matcher.globalMatch hl 1 in
  blockState hl' (Some 1%nat) =
    fenceLineState (qstring_eqb (firstBlockText hl) dashes)
                   (blockState hl (previousOf 1))
                   (text (mkBlock (qs "```") NoState)) /\
  allPainted (qlength (text (mkBlock (qs "```") NoState)))
             (formatChanges hl') (_formats hl' MaskedSyntax).
Proof.
  apply (fence_line_masked Matcher.globalMatch
           (onBlock [mkBlock (qs "```") CodeBlock; mkBlock (qs "```") NoState] 0)
           1 (mkBlock (qs "```") NoState)).
  - reflexivity.
  - reflexivity.
Defined.

(** ** Front matter and comment blocks *)

Lemma previous_underline_cases hl t (level : HighlighterState) :
  level = H1 \/ level = H2 ->
  orUnderlined (previousBlockState hl) (previousBlockState (underline hl t level)).
Proof.
  intros Hl. unfold underline. cbv zeta.
  destruct (_ && _); [|now left].
  set (hlA := setFormat hl 0 (qlength t) _).
  set (hlB := setCurrentBlockState hlA HeadlineEnd).
  set (hlC := setUserState hlB (previousBlock hlB) level).
  assert (HpB : previousBlock hlB = previousBlock hl).
  { unfold hlB, setCurrentBlockState.
    now rewrite (frame_previousBlock _ _ (frame_setUserState hlA _ _)). }
  assert (HpC : previousBlock hlC = previousBlock hl).
  { unfold hlC. now rewrite (frame_previousBlock _ _ (frame_setUserState hlB _ _)). }
  assert (HsB : previousBlockState hlB = previousBlockState hl).
  { unfold hlB. now rewrite previousBlockState_setCurrent. }
  assert (HsC : orUnderlined (previousBlockState hl) (previousBlockState hlC)).
  { unfold previousBlockState at 2. rewrite HpC, <- HpB. unfold hlC.
    destruct (previousBlock hlB) as [p|] eqn:Ep;
      [|left; unfold previousBlockState; now rewrite <- HpB].
    destruct (blockState_setUserState_cases hlB p (Some p) level) as [E|E];
      rewrite E.
    - left. rewrite <- HsB. unfold previousBlockState. now rewrite Ep.
    - right. destruct Hl as [-> | ->]; auto. }
  destruct (previousBlock hlC) as [p|]; [|exact HsC].
  now rewrite previousBlockState_addDirtyBlock.
Qed.

Lemma previous_highlightHeadline_cases hl t :
  orUnderlined (previousBlockState hl) (previousBlockState (highlightHeadline hl t)).
Proof.
  destruct (hasOnlyHeadChars t "="%char) eqn:He;
    [|destruct (hasOnlyHeadChars t "-"%char) eqn:Hd].
  - rewrite (proj2 (underline_char_not_heading t "="%char H1
                      (or_introl (conj eq_refl eq_refl)) He)).
    apply previous_underline_cases. now left.
  - rewrite (proj2 (underline_char_not_heading t "-"%char H2
                      (or_intror (conj eq_refl eq_refl)) Hd)).
    apply previous_underline_cases. now right.
  - left. now apply previous_highlightHeadline.
Qed.

Lemma highlightFrontmatterBlock_other hl t :
  qstring_eqb t dashes = false ->
  previousBlockState hl <> FrontmatterBlock ->
  highlightFrontmatterBlock hl t = hl.
Proof.
  intros Ht Hp. unfold highlightFrontmatterBlock. rewrite Ht.
  apply Z.eqb_neq in Hp. rewrite Hp. now destruct (negb _).
Qed.

Section CurrentComment.

Variable Q : Z -> Prop.
Hypothesis Q_comment : Q Comment.

Lemma current_highlightCommentBlock hl t :
  Q (currentBlockState hl) -> Q (currentBlockState (highlightCommentBlock hl t)).
Proof.
  intros H. unfold highlightCommentBlock. cbv zeta.
  destruct (_ && _); [exact H|].
  destruct (_ || _).
  - rewrite currentBlockState_setFormat.
    now apply current_setCurrentBlockState.
  - destruct (endsWith _ _); exact H.
Qed.

End CurrentComment.

Lemma notFrontmatter_headlines (s : Z) :
  In s [ (NoState : Z); (List : Z); (H1 : Z); (H2 : Z); (H3 : Z); (H4 : Z);
         (H5 : Z); (H6 : Z); (HeadlineEnd : Z) ] -> notFrontmatter s.
Proof.
  simpl. intros H.
  repeat (destruct H as [<-|H]; [split; discriminate|]). contradiction.
Qed.

Lemma notFrontmatter_code (s : Z) :
  In s [ (CodeBlock : Z); (CodeBlockEnd : Z); (CodeCpp : Z); (CodeJs : Z) ] ->
  notFrontmatter s.
Proof.
  simpl. intros H.
  repeat (destruct H as [<-|H]; [split; discriminate|]). contradiction.
Qed.

Section FrontmatterLines.

Variable globalMatch : QRegularExpression -> QString -> list QRegularExpressionMatch.

Lemma previous_beforeComment_cases hl t :
  orUnderlined (previousBlockState hl)
               (previousBlockState (beforeComment globalMatch hl t)).
Proof.
  unfold beforeComment. destruct t as [|c t]; [now left|]. cbv zeta.
  rewrite previous_highlightAdditionalRules.
  pose proof (previous_highlightHeadline_cases
                (highlightAdditionalRules globalMatch hl (_highlightingRulesPre hl)
                                          (c :: t)) (c :: t)) as H.
  now rewrite previous_highlightAdditionalRules in H.
Qed.

(** In a document whose first line is ["---"], the first line and every line
    after a FrontmatterBlock line belong to the front matter, whatever the
    rules and the other steps made of them: a line ["---"] after a
    FrontmatterBlock line gets FrontmatterBlockEnd, any other of these lines
    FrontmatterBlock, and every character of the line ends up in the masked
    format. *)
Theorem front_matter_lines (hl : MarkdownHighlighter) (n : nat) (b : QTextBlock) :
  firstBlockText hl = dashes ->
  blockAt hl n = Some b ->
  n = 0%nat \/ blockState hl (previousOf n) = FrontmatterBlock ->
  let hl' := rehighlightBlock globalMatch hl n in
  blockState hl' (Some n) =
    frontmatterLineState (text b) (blockState hl (previousOf n)) /\
  allPainted (qlength (text b)) (formatChanges hl') (_formats hl' MaskedSyntax).
Proof.
  intros Hfirst Hb Hn hl'. subst hl'.
  destruct (rehighlightBlock_steps globalMatch hl n b Hb) as (-> & -> & -> & _).
  pose proof (prepared_beforeComment globalMatch hl n b Hb) as P.
  set (t := text b) in *.
  set (x := beforeComment globalMatch (resetBlock hl n) t) in *.
  set (s := blockState hl (previousOf n)) in *.
  unfold blockSteps.
  set (z := highlightCodeBlock (highlightCommentBlock x t) t).
  assert (Fz : frame x z).
  { eapply frame_trans; [apply frame_highlightCommentBlock|].
    apply frame_highlightCodeBlock. }
  assert (Hvz : validCurrent z)
    by (apply (validCurrent_frame x); [exact Fz|apply (valid_prepared _ _ _ _ P)]).
  assert (Hcz : currentBlock z = n)
    by (rewrite (fr_current _ _ Fz); apply (pr_current _ _ _ _ P)).
  assert (Hpz : previousBlockState z = s).
  { unfold z. rewrite previous_highlightCodeBlock, previous_highlightCommentBlock.
    destruct Hn as [Hn|Hn].
    - rewrite previousBlockState_first by (rewrite (pr_current _ _ _ _ P); exact Hn).
      unfold s. now rewrite Hn.
    - apply (pr_previous _ _ _ _ P). left. fold s. rewrite Hn. discriminate. }
  assert (Hfz : firstBlockText z = dashes).
  { rewrite (firstBlockText_frame x z Fz). unfold firstBlockText.
    rewrite (pr_texts _ _ _ _ P). exact Hfirst. }
  assert (Hcase : (s =? FrontmatterBlock) = false -> n = 0%nat /\ t = dashes).
  { intros E. destruct Hn as [Hn|Hn]; [|rewrite Hn in E; discriminate].
    split; [exact Hn|]. subst n. unfold firstBlockText, blockText in Hfirst.
    rewrite Hb in Hfirst. exact Hfirst. }
  unfold highlightFrontmatterBlock, frontmatterLineState. cbv zeta.
  rewrite Hfz, Hpz, Hcz.
  replace (qstring_eqb dashes dashes) with true by reflexivity. cbn [negb].
  destruct (s =? FrontmatterBlock) eqn:E.
  - cbn [negb andb]. rewrite andb_true_r.
    destruct (qstring_eqb t dashes); rewrite currentBlockState_setFormat;
      (split; [now apply currentBlockState_set|]);
      cbn [formatChanges _formats setFormat withFormatChanges emit];
      apply formatAt_last_full.
  - destruct (Hcase eq_refl) as [-> Et]. rewrite Et.
    replace (qstring_eqb dashes dashes) with true by reflexivity.
    cbn [negb andb Nat.eqb]. rewrite currentBlockState_setFormat.
    split; [now apply currentBlockState_set|].
    cbn [formatChanges _formats setFormat withFormatChanges emit].
    apply formatAt_last_full.
Qed.

(** There is one front matter block only: with the rules of the constructor,
    a line that is not the first line and does not follow a FrontmatterBlock
    line never gets a front matter state, not even a line ["---"] of a
    document that starts with ["---"]. *)
Theorem front_matter_single (hl : MarkdownHighlighter) (n : nat) (b : QTextBlock) :
  initialRules hl ->
  blockAt hl n = Some b ->
  n <> 0%nat ->
  blockState hl (previousOf n) <> FrontmatterBlock ->
  notFrontmatter (blockState (rehighlightBlock globalMatch hl n) (Some n)).
Proof.
  intros (fq & Hpre & Hafter) Hb Hn Hs.
  destruct (rehighlightBlock_steps globalMatch hl n b Hb) as (-> & _).
  pose proof (prepared_beforeComment globalMatch hl n b Hb) as P.
  set (t := text b) in *.
  pose proof (resetBlock_frame hl n) as F0.
  destruct (resetBlock_spec hl n) as (Hc1 & _ & _ & _ & Hl1 & _ & Hp1 & Hst1).
  assert (Hv : (n < length (document hl))%nat)
    by (unfold blockAt in Hb; now apply lookup_lt_Some in Hb).
  set (x := beforeComment globalMatch (resetBlock hl n) t) in *.
  unfold blockSteps.
  set (z := highlightCodeBlock (highlightCommentBlock x t) t).
  assert (Fz : frame x z).
  { eapply frame_trans; [apply frame_highlightCommentBlock|].
    apply frame_highlightCodeBlock. }
  assert (Hpz : previousBlockState z <> FrontmatterBlock).
  { unfold z. rewrite previous_highlightCodeBlock, previous_highlightCommentBlock.
    destruct (previous_beforeComment_cases (resetBlock hl n) t) as [E|[E|E]];
      fold x in E; rewrite E; [now rewrite Hp1|discriminate|discriminate]. }
  rewrite highlightFrontmatterBlock_idle;
    [|exact Hpz|rewrite (fr_current _ _ Fz), (pr_current _ _ _ _ P); exact Hn].
  unfold z.
  apply (current_highlightCodeBlock notFrontmatter notFrontmatter_code).
  apply (current_highlightCommentBlock notFrontmatter); [split; discriminate|].
  unfold x, beforeComment. destruct t as [|c t'].
  - rewrite (Hst1 Hv). split; discriminate.
  - cbv zeta.
    apply (current_highlightAdditionalRules _ notFrontmatter_headlines).
    + rewrite (fr_after _ _ (frame_highlightHeadline _ _)).
      rewrite (fr_after _ _ (frame_highlightAdditionalRules _ _ _ _)).
      rewrite (fr_after _ _ F0). simpl. rewrite Hafter. apply listOnly_after.
    + apply (current_highlightHeadline _ notFrontmatter_headlines).
      apply (current_highlightAdditionalRules _ notFrontmatter_headlines).
      * rewrite (fr_pre _ _ F0). simpl. rewrite Hpre. apply listOnly_pre.
      * rewrite (Hst1 Hv). split; discriminate.
Qed.

(** A comment block goes on over whole classifications.  A line that does
    not start with a fence and is not an inline comment gets the state
    Comment, and a comment span over its trimmed length is painted last, in
    two cases: it starts with the open marker and the line before is not a
    CodeBlock, CodeCpp or FrontmatterBlock line; or the line before is a
    Comment line and the line does not end with the close marker. *)
Theorem comment_block_goes_on (hl : MarkdownHighlighter) (n : nat) (b : QTextBlock) :
  blockAt hl n = Some b ->
  startsWith (text b) fence = false ->
  selfContained (text b) = false ->
  commentGoesOn (text b) (blockState hl (previousOf n)) ->
  let hl' := rehighlightBlock globalMatch hl n in
  blockState hl' (Some n) = Comment /\
  exists l, formatChanges hl' =
            l ++ [mkSpan 0 (qlength (trimmed (text b))) (_formats hl Comment)].
Proof.
  intros Hb Hf Hself Hgo hl'. subst hl'.
  destruct (rehighlightBlock_steps globalMatch hl n b Hb) as (-> & -> & _).
  pose proof (prepared_beforeComment globalMatch hl n b Hb) as P.
  set (t := text b) in *.
  destruct (resetBlock_spec hl n) as (_ & _ & _ & _ & _ & _ & Hp1 & _).
  pose proof (previous_beforeComment_cases (resetBlock hl n) t) as Hx.
  rewrite Hp1 in Hx.
  set (x := beforeComment globalMatch (resetBlock hl n) t) in *.
  set (s := blockState hl (previousOf n)) in *.
  unfold blockSteps.
  set (y := highlightCommentBlock x t).
  assert (Hpy : previousBlockState y = previousBlockState x)
    by apply previous_highlightCommentBlock.
  assert (Hcond : startsWith (trimmed t) commentOpen ||
                  negb (endsWith (trimmed t) commentClose) &&
                  (previousBlockState x =? Comment) = true).
  { destruct Hgo as [(Ho & _)|(Es & Ee)]; [now rewrite Ho|].
    rewrite Ee, (pr_previous _ _ _ _ P) by (left; fold s; rewrite Es; discriminate).
    fold s. rewrite Es. apply orb_true_r. }
  assert (Hy : y = setFormat (setCurrentBlockState x Comment) 0
                             (qlength (trimmed t))
                             (_formats (setCurrentBlockState x Comment) Comment)).
  { unfold y, highlightCommentBlock. fold commentOpen. fold commentClose.
    cbv zeta. unfold selfContained in Hself. fold t in Hself.
    now rewrite Hself, Hcond. }
  assert (Hidle : highlightFrontmatterBlock (highlightCodeBlock y t) t = y).
  { destruct Hgo as [(Ho & H4 & H200 & H27)|(Es & Ee)].
    - assert (Hk : previousBlockState x <> CodeBlock /\
                   previousBlockState x <> CodeCpp /\
                   previousBlockState x <> FrontmatterBlock).
      { destruct Hx as [E|[E|E]]; rewrite E; repeat split;
          first [assumption|discriminate]. }
      destruct Hk as (K4 & K200 & K27).
      rewrite highlightCodeBlock_idle by (rewrite ?Hpy; assumption).
      apply highlightFrontmatterBlock_other; [|now rewrite Hpy].
      destruct (qstring_eqb t dashes) eqn:Ed; [|reflexivity].
      apply qstring_eqb_eq in Ed. rewrite Ed in Ho. discriminate.
    - assert (Hk : previousBlockState x = Comment).
      { rewrite (pr_previous _ _ _ _ P); [exact Es|].
        left. fold s. rewrite Es. discriminate. }
      rewrite highlightCodeBlock_idle
        by (rewrite ?Hpy, ?Hk; first [assumption|discriminate]).
      apply highlightFrontmatterBlock_idle.
      + rewrite Hpy, Hk. discriminate.
      + unfold y. rewrite (fr_current _ _ (frame_highlightCommentBlock x t)).
        rewrite (pr_current _ _ _ _ P).
        apply (previousOf_stated hl). fold s. rewrite Es. discriminate. }
  rewrite Hidle, Hy. split.
  - rewrite currentBlockState_setFormat.
    apply currentBlockState_set. apply (valid_prepared _ _ _ _ P).
  - exists (formatChanges x).
    cbn [formatChanges setFormat withFormatChanges emit].
    rewrite formatChanges_setCurrentBlockState, formats_setCurrentBlockState.
    now rewrite (pr_formats _ _ _ _ P).
Qed.

End FrontmatterLines.

(** [front_matter_lines] on the line that closes the front matter. *)
Lemma front_matter_lines_witness :
  let b := mkBlock (qs "---") NoState in
  let hl := onBlock [mkBlock (qs "---") FrontmatterBlock;
                     mkBlock (qs "a: b") FrontmatterBlock; b] 0 in
  let hl' := rehighlightBlock Matcher.globalMatch hl 2 in
  blockState hl' (Some 2%nat) =
    frontmatterLineState (text b) (blockState hl (previousOf 2)) /\
  allPainted (qlength (text b)) (formatChanges hl') (_formats hl' MaskedSyntax).
Proof.
  apply (front_matter_lines Matcher.globalMatch
           (onBlock [mkBlock (qs "---") FrontmatterBlock;
                     mkBlock (qs "a: b") FrontmatterBlock;
                     mkBlock (qs "---") NoState] 0)
           2 (mkBlock (qs "---") NoState)).
  - reflexivity.
  - reflexivity.
  - right. reflexivity.
Defined.

(** [front_matter_single] on a second pair of ["---"] lines. *)
Lemma front_matter_single_witness :
  let hl := onBlock [mkBlock (qs "---") FrontmatterBlock;
                     mkBlock (qs "---") FrontmatterBlockEnd;
                     mkBlock (qs "---") NoState] 0 in
  notFrontmatter (blockState (rehighlightBlock Matcher.globalMatch hl 2) (Some 2%nat)).
Proof.
  apply (front_matter_single Matcher.globalMatch
           (onBlock [mkBlock (qs "---") FrontmatterBlock;
                     mkBlock (qs "---") FrontmatterBlockEnd;
                     mkBlock (qs "---") NoState] 0)
           2 (mkBlock (qs "---") NoState)).
  - exists false. split; reflexivity.
  - reflexivity.
  - discriminate.
  - discriminate.
Defined.

(** [comment_block_goes_on] on the second line of ["<!-- a"; "# b"]. *)
Lemma comment_block_goes_on_witness :
  let b := mkBlock (qs "# b") NoState in
  let hl := onBlock [mkBlock (qs "<!-- a") Comment; b] 0 in
  let hl' := rehighlightBlock Matcher.globalMatch hl 1 in
  blockState hl' (Some 1%nat) = Comment /\
  exists l, formatChanges hl' =
            l ++ [mkSpan 0 (qlength (trimmed (text b))) (_formats hl Comment)].
Proof.
  apply (comment_block_goes_on Matcher.globalMatch
           (onBlock [mkBlock (qs "<!-- a") Comment; mkBlock (qs "# b") NoState] 0)
           1 (mkBlock (qs "# b") NoState)).
  - reflexivity.
  - reflexivity.
  - reflexivity.
  - right. split; reflexivity.
Defined.

(** ** The queue and the timer *)

Ltac dirty_auto :=
  repeat first
    [ reflexivity
    | rewrite dirty_setUserState
    | progress unfold setCurrentBlockState
    | progress cbn [_dirtyTextBlocks setFormat withFormatChanges withFormats]
    | match goal with
      | |- context [match ?c with _ => _ end] => destruct c
      end ].

Lemma dirty_highlightSyntax hl t :
  _dirtyTextBlocks (highlightSyntax hl t) = _dirtyTextBlocks hl.
Proof. destruct (highlightSyntax_eq hl t) as [l ->]. reflexivity. Qed.

Lemma dirty_highlightCommentBlock hl t :
  _dirtyTextBlocks (highlightCommentBlock hl t) = _dirtyTextBlocks hl.
Proof.
  unfold highlightCommentBlock. cbv zeta.
  destruct (_ && _); [reflexivity|].
  destruct (_ || _); [dirty_auto|].
  destruct (endsWith _ _); dirty_auto.
Qed.

Lemma dirty_highlightCodeBlock hl t :
  _dirtyTextBlocks (highlightCodeBlock hl t) = _dirtyTextBlocks hl.
Proof.
  unfold highlightCodeBlock. cbv zeta.
  destruct (startsWith t fence); [dirty_auto|].
  destruct (_ || _); [|reflexivity].
  destruct (previousBlockState hl =? CodeCpp);
    [rewrite dirty_highlightSyntax; dirty_auto|].
  destruct (previousBlockState hl =? CodeJs);
    [rewrite dirty_highlightSyntax; dirty_auto|].
  dirty_auto.
Qed.

Lemma dirty_highlightFrontmatterBlock hl t :
  _dirtyTextBlocks (highlightFrontmatterBlock hl t) = _dirtyTextBlocks hl.
Proof. unfold highlightFrontmatterBlock. cbv zeta. dirty_auto. Qed.

Lemma dirty_highlightHeadline hl t :
  isUnderline t = false ->
  _dirtyTextBlocks (highlightHeadline hl t) = _dirtyTextBlocks hl.
Proof.
  intros H. apply orb_false_iff in H as [He Hd].
  unfold highlightHeadline. rewrite He, Hd. cbv zeta. dirty_auto.
Qed.

Section Queue.

Variable globalMatch : QRegularExpression -> QString -> list QRegularExpressionMatch.

Lemma dirty_highlightMatch r hl m :
  _dirtyTextBlocks (highlightMatch r hl m) = _dirtyTextBlocks hl.
Proof. unfold highlightMatch, setHeadingStyles. cbv zeta. dirty_auto. Qed.

Lemma dirty_highlightRule t hl r :
  _dirtyTextBlocks (highlightRule globalMatch t hl r) = _dirtyTextBlocks hl.
Proof.
  unfold highlightRule. destruct (_ && _); [reflexivity|]. cbv zeta.
  match goal with
  | |- _dirtyTextBlocks (fold_left _ _ ?h) = _ =>
      transitivity (_dirtyTextBlocks h); [|dirty_auto]
  end.
  match goal with
  | |- _dirtyTextBlocks (fold_left ?g ?l ?h) = _ =>
      apply (fold_left_invariant
               (fun x => _dirtyTextBlocks x = _dirtyTextBlocks h) g l);
        [|reflexivity]
  end.
  intros a x Ha. now rewrite dirty_highlightMatch.
Qed.

Lemma dirty_highlightAdditionalRules hl rules t :
  _dirtyTextBlocks (highlightAdditionalRules globalMatch hl rules t) =
  _dirtyTextBlocks hl.
Proof.
  unfold highlightAdditionalRules.
  apply (fold_left_invariant
           (fun x => _dirtyTextBlocks x = _dirtyTextBlocks hl)); [|reflexivity].
  intros a x Ha. now rewrite dirty_highlightRule.
Qed.

(** The queue over classifications.  A classification never puts a block
    into the queue twice and puts only blocks of the document into it; the
    only block it can add is the one before the classified block, and that
    only when the classified line is a line of [=] only or of [-] only. *)
Theorem queue_over_classifications (hl : MarkdownHighlighter) (blocks : list nat) :
  queueOk hl ->
  queueOk (fold_left (rehighlightBlock globalMatch) blocks hl) /\
  forall n b,
    blockAt hl n = Some b ->
    (isUnderline (text b) = false ->
     _dirtyTextBlocks (rehighlightBlock globalMatch hl n) = _dirtyTextBlocks hl) /\
    forall p, In p (_dirtyTextBlocks (rehighlightBlock globalMatch hl n)) ->
              In p (_dirtyTextBlocks hl) \/ n = S p.
Proof.
  intros H. split.
  - apply (fold_left_invariant queueOk); [|exact H].
    intros h n [Hnd Hall].
    destruct (rehighlightBlock_effect globalMatch h n) as (Hlen & Hlog & Hq).
    unfold queueOk. rewrite Hlen.
    destruct Hq as [-> | (p & -> & Hnew & Hq)]; [now split|].
    assert (Hv : (S p < length (document h))%nat).
    { destruct (decide (S p < length (document h))%nat) as [Hv|Hv]; [exact Hv|].
      exfalso. unfold rehighlightBlock, blockAt in Hq.
      rewrite (proj2 (lookup_ge_None _ _)) in Hq by lia.
      pose proof (f_equal (@length nat) Hq) as Hl.
      rewrite length_app in Hl. simpl in Hl. lia. }
    rewrite Hq. split; [now apply NoDup_snoc|].
    apply Forall_app. split; [exact Hall|]. constructor; [lia|constructor].
  - intros n b Hb. split.
    + intros Hu.
      destruct (rehighlightBlock_steps globalMatch hl n b Hb) as (_ & _ & _ & _ & ->).
      unfold blockSteps.
      rewrite dirty_highlightFrontmatterBlock, dirty_highlightCodeBlock,
        dirty_highlightCommentBlock.
      destruct (resetBlock_spec hl n) as (_ & _ & _ & Hq & _).
      unfold beforeComment. destruct (text b) as [|c t] eqn:Et; [exact Hq|].
      cbv zeta. rewrite dirty_highlightAdditionalRules.
      rewrite dirty_highlightHeadline by exact Hu.
      now rewrite dirty_highlightAdditionalRules.
    + intros p Hp.
      destruct (rehighlightBlock_effect globalMatch hl n) as (_ & _ & Hq).
      destruct Hq as [Hq | (p' & -> & _ & Hq)]; rewrite Hq in Hp; [now left|].
      apply in_app_or in Hp as [Hp|[<-|[]]]; [now left|now right].
Qed.

Lemma finished_rehighlightBlock hl n :
  _highlightingFinished (rehighlightBlock globalMatch hl n) =
  (n <? length (document hl))%nat || _highlightingFinished hl.
Proof.
  unfold rehighlightBlock, blockAt.
  destruct (document hl !! n) as [b|] eqn:E.
  - apply lookup_lt_Some in E.
    now rewrite (proj2 (Nat.ltb_lt _ _) E).
  - apply lookup_ge_None in E.
    now rewrite (proj2 (Nat.ltb_ge _ _) E).
Qed.

End Queue.

(** [queue_over_classifications] on ["Title"; "==="] classified from the
    top. *)
Lemma queue_over_classifications_witness :
  let hl := newHighlighter false 12 monospace10 [qs "Title"; qs "==="] in
  queueOk (fold_left (rehighlightBlock Matcher.globalMatch) [0; 1]%nat hl) /\
  forall n b,
    blockAt hl n = Some b ->
    (isUnderline (text b) = false ->
     _dirtyTextBlocks (rehighlightBlock Matcher.globalMatch hl n) =
     _dirtyTextBlocks hl) /\
    forall p, In p (_dirtyTextBlocks (rehighlightBlock Matcher.globalMatch hl n)) ->
              In p (_dirtyTextBlocks hl) \/ n = S p.
Proof.
  apply (queue_over_classifications Matcher.globalMatch
           (newHighlighter false 12 monospace10 [qs "Title"; qs "==="])
           [0; 1]%nat).
  split; constructor.
Defined.

(** ** The drain goes to its end *)

(** *** States that a classification leaves alone *)

Lemma keeps_refl k hl : keeps k hl hl.
Proof. now split. Qed.

Lemma keeps_trans k a b c : keeps k a b -> keeps k b c -> keeps k a c.
Proof. intros [A1 A2] [B1 B2]. split; congruence. Qed.

Lemma keeps_same k hl x y :
  currentBlock y = currentBlock x -> document y = document x ->
  keeps k hl x -> keeps k hl y.
Proof.
  intros Hc Hd [A B]. split; [congruence|].
  rewrite <- B. unfold blockState, blockAt. now rewrite Hd.
Qed.

Lemma keeps_setFormat k hl x a b f : keeps k hl x -> keeps k hl (setFormat x a b f).
Proof. apply keeps_same; reflexivity. Qed.

Lemma keeps_withFormats k hl x fs : keeps k hl x -> keeps k hl (withFormats x fs).
Proof. apply keeps_same; reflexivity. Qed.

Lemma keeps_addDirtyBlock k hl x p : keeps k hl x -> keeps k hl (addDirtyBlock x p).
Proof.
  apply keeps_same; [|apply document_addDirtyBlock].
  unfold addDirtyBlock. now destruct (negb _).
Qed.

Lemma keeps_highlightSyntax k hl x t : keeps k hl x -> keeps k hl (highlightSyntax x t).
Proof.
  destruct (highlightSyntax_eq x t) as [l ->]. apply keeps_same; reflexivity.
Qed.

Lemma keeps_setUserState k hl x j s :
  k <> j -> keeps k hl x -> keeps k hl (setUserState x (Some j) s).
Proof.
  intros Hne [A B]. split.
  - now rewrite (fr_current _ _ (frame_setUserState x _ s)).
  - rewrite blockState_setUserState_ne by exact Hne. exact B.
Qed.

Lemma keeps_setCurrentBlockState k hl x s :
  k <> currentBlock hl -> keeps k hl x -> keeps k hl (setCurrentBlockState x s).
Proof.
  intros Hne H. unfold setCurrentBlockState.
  apply keeps_setUserState; [|exact H]. destruct H as [-> _]. exact Hne.
Qed.

Ltac keeps_step :=
  lazymatch goal with
  | |- keeps _ _ (if ?c then _ else _) => destruct c
  | |- keeps _ _ (match ?c with _ => _ end) => destruct c
  | |- keeps _ _ (setFormat _ _ _ _) => apply keeps_setFormat
  | |- keeps _ _ (withFormats _ _) => apply keeps_withFormats
  | |- keeps _ _ (addDirtyBlock _ _) => apply keeps_addDirtyBlock
  | |- keeps _ _ (highlightSyntax _ _) => apply keeps_highlightSyntax
  | |- keeps _ _ (setCurrentBlockState _ _) =>
      apply keeps_setCurrentBlockState; [assumption|]
  end.

Lemma keeps_highlightCommentBlock k hl x t :
  k <> currentBlock hl -> keeps k hl x -> keeps k hl (highlightCommentBlock x t).
Proof.
  intros Hne H. unfold highlightCommentBlock. cbv zeta.
  destruct (_ && _); [exact H|].
  destruct (_ || _); [repeat keeps_step; exact H|].
  destruct (endsWith _ _); repeat keeps_step; exact H.
Qed.

Lemma keeps_highlightCodeBlock k hl x t :
  k <> currentBlock hl -> keeps k hl x -> keeps k hl (highlightCodeBlock x t).
Proof.
  intros Hne H. unfold highlightCodeBlock. cbv zeta.
  repeat first [exact H | keeps_step].
Qed.

Lemma keeps_highlightFrontmatterBlock k hl x t :
  k <> currentBlock hl -> keeps k hl x -> keeps k hl (highlightFrontmatterBlock x t).
Proof.
  intros Hne H. unfold highlightFrontmatterBlock. cbv zeta.
  repeat first [exact H | keeps_step].
Qed.

Lemma keeps_underline k hl x t (level : HighlighterState) :
  k <> currentBlock hl -> S k <> currentBlock hl ->
  keeps k hl x -> keeps k hl (underline x t level).
Proof.
  intros Hne Hnp H. unfold underline. cbv zeta.
  destruct (_ && _); [|exact H].
  set (hB := setCurrentBlockState _ HeadlineEnd).
  assert (Hb : keeps k hl hB) by (unfold hB; repeat keeps_step; exact H).
  set (hC := setUserState hB (previousBlock hB) level).
  assert (Hc : keeps k hl hC).
  { unfold hC, previousBlock.
    destruct (currentBlock hB) as [|p] eqn:Ep; [exact Hb|].
    apply keeps_setUserState; [|exact Hb].
    destruct Hb as [E _]. rewrite E in Ep. congruence. }
  destruct (previousBlock hC); [apply keeps_addDirtyBlock|]; exact Hc.
Qed.

Lemma keeps_highlightHeadline k hl x t :
  k <> currentBlock hl -> S k <> currentBlock hl ->
  keeps k hl x -> keeps k hl (highlightHeadline x t).
Proof.
  intros Hne Hnp H. unfold highlightHeadline. cbv zeta.
  destruct (headingFound t); [repeat keeps_step; exact H|].
  destruct (hasOnlyHeadChars t "="%char); [now apply keeps_underline|].
  destruct (hasOnlyHeadChars t "-"%char); [now apply keeps_underline|].
  repeat first [exact H | keeps_step].
Qed.

Section KeepsRules.

Variable globalMatch : QRegularExpression -> QString -> list QRegularExpressionMatch.

Lemma keeps_highlightMatch k hl x r m :
  keeps k hl x -> keeps k hl (highlightMatch r x m).
Proof.
  apply keeps_same; unfold highlightMatch, setHeadingStyles; cbv zeta;
    repeat match goal with
           | |- context [if ?c then _ else _] => destruct c
           end; reflexivity.
Qed.

Lemma keeps_highlightRule k hl x t r :
  k <> currentBlock hl -> keeps k hl x -> keeps k hl (highlightRule globalMatch t x r).
Proof.
  intros Hne H. unfold highlightRule. destruct (_ && _); [exact H|]. cbv zeta.
  apply (fold_left_invariant (keeps k hl));
    [intros a m Ha; now apply keeps_highlightMatch|].
  repeat first [exact H | keeps_step].
Qed.

Lemma keeps_highlightAdditionalRules k hl x rules t :
  k <> currentBlock hl -> keeps k hl x ->
  keeps k hl (highlightAdditionalRules globalMatch x rules t).
Proof.
  intros Hne. unfold highlightAdditionalRules.
  apply (fold_left_invariant (keeps k hl)).
  intros a r Ha. now apply keeps_highlightRule.
Qed.

Lemma keeps_blockSteps k hl x t :
  k <> currentBlock hl -> keeps k hl x -> keeps k hl (blockSteps x t).
Proof.
  intros Hne H. unfold blockSteps.
  apply keeps_highlightFrontmatterBlock; [exact Hne|].
  apply keeps_highlightCodeBlock; [exact Hne|].
  now apply keeps_highlightCommentBlock.
Qed.

End KeepsRules.

(** *** The headline step and the line before *)

Lemma underlined_level hl j :
  underlined hl j =
  if 0 <? qlength (blockText hl (Some j))
  then underlineLevel (blockText hl (Some (S j))) else None.
Proof. reflexivity. Qed.

Lemma underlineLevel_cases t level :
  underlineLevel t = Some level ->
  (level = H1 \/ level = H2) /\
  forall hl, highlightHeadline hl t = underline hl t level.
Proof.
  unfold underlineLevel.
  destruct (hasOnlyHeadChars t "="%char) eqn:He;
    [|destruct (hasOnlyHeadChars t "-"%char) eqn:Hd; [|discriminate]];
    intros [= <-].
  - split; [now left|].
    apply (underline_char_not_heading t "="%char H1); [now left|exact He].
  - split; [now right|].
    apply (underline_char_not_heading t "-"%char H2); [now right|exact Hd].
Qed.

Lemma underlineLevel_none t :
  underlineLevel t = None -> isUnderline t = false.
Proof.
  unfold underlineLevel, isUnderline.
  destruct (hasOnlyHeadChars t "="%char); [discriminate|].
  now destruct (hasOnlyHeadChars t "-"%char).
Qed.

(** The queue after the underline branch, when it applies. *)
Lemma underline_queue (hl : MarkdownHighlighter) (t : QString)
      (level : HighlighterState) (p : nat) :
  currentBlock hl = S p ->
  takesUnderline level (previousBlockState hl) &&
    (0 <? qlength (blockText hl (Some p))) = true ->
  _dirtyTextBlocks (underline hl t level) = _dirtyTextBlocks (addDirtyBlock hl p).
Proof.
  intros Hcur Hc. unfold underline.
  assert (Hp : previousBlock hl = Some p) by (unfold previousBlock; now rewrite Hcur).
  rewrite Hp. unfold takesUnderline in Hc. rewrite Hc. cbv zeta.
  set (hlA := setFormat hl 0 (qlength t) _).
  set (hlB := setCurrentBlockState hlA HeadlineEnd).
  assert (HpB : previousBlock hlB = Some p).
  { unfold hlB, setCurrentBlockState.
    rewrite (frame_previousBlock _ _ (frame_setUserState hlA _ _)). exact Hp. }
  rewrite HpB.
  set (hlC := setUserState hlB (Some p) level).
  assert (HpC : previousBlock hlC = Some p).
  { unfold hlC. rewrite (frame_previousBlock _ _ (frame_setUserState hlB _ _)).
    exact HpB. }
  rewrite HpC, !addDirtyBlock_queue.
  assert (Hq : _dirtyTextBlocks hlC = _dirtyTextBlocks hl).
  { unfold hlC. rewrite dirty_setUserState. unfold hlB. now rewrite dirty_setCurrentBlockState. }
  now rewrite Hq.
Qed.

(** The headline step on block [S p], for the state and the queue of the
    block before. *)
Lemma headline_previous (x : MarkdownHighlighter) (t : QString) (p : nat) :
  currentBlock x = S p ->
  (S p < length (document x))%nat ->
  match underlineLevel t with
  | Some level =>
      if takesUnderline level (previousBlockState x) &&
         (0 <? qlength (blockText x (Some p)))
      then currentBlockState (highlightHeadline x t) = HeadlineEnd /\
           previousBlockState (highlightHeadline x t) = level /\
           _dirtyTextBlocks (highlightHeadline x t) =
             _dirtyTextBlocks (addDirtyBlock x p)
      else highlightHeadline x t = x
  | None =>
      previousBlockState (highlightHeadline x t) = previousBlockState x /\
      _dirtyTextBlocks (highlightHeadline x t) = _dirtyTextBlocks x
  end.
Proof.
  intros Hcur Hlen.
  assert (Hp : previousBlock x = Some p) by (unfold previousBlock; now rewrite Hcur).
  destruct (underlineLevel t) as [level|] eqn:El.
  - destruct (underlineLevel_cases t level El) as [Hl ->].
    destruct (_ && _) eqn:Hc.
    + apply andb_true_iff in Hc as [Hs Ht].
      destruct (underline_applies x t level p Hcur Hlen) as (A & _ & B & _).
      * intros E. rewrite E in Ht. discriminate.
      * unfold takesUnderline in Hs. apply orb_true_iff in Hs as [Hs|Hs];
          apply Z.eqb_eq in Hs; auto.
      * split; [exact A|]. split.
        -- unfold previousBlockState.
           rewrite (frame_previousBlock _ _ (frame_underline x t level)), Hp.
           exact B.
        -- apply underline_queue; [exact Hcur|].
           now rewrite Hs, Ht.
    + unfold underline. rewrite Hp. unfold takesUnderline in Hc. now rewrite Hc.
  - pose proof (underlineLevel_none t El) as Hu.
    split; [|now apply dirty_highlightHeadline].
    apply orb_false_iff in Hu as [He Hd]. now apply previous_highlightHeadline.
Qed.

(** On the first block the headline step leaves the queue alone. *)
Lemma headline_first (x : MarkdownHighlighter) (t : QString) :
  currentBlock x = 0%nat ->
  _dirtyTextBlocks (highlightHeadline x t) = _dirtyTextBlocks x.
Proof.
  intros Hcur.
  destruct (underlineLevel t) as [level|] eqn:El.
  - destruct (underlineLevel_cases t level El) as [_ ->].
    unfold underline, previousBlock. rewrite Hcur. simpl.
    now rewrite andb_false_r.
  - apply dirty_highlightHeadline. now apply underlineLevel_none.
Qed.

Lemma headlineOrNone_takes (level : HighlighterState) (s : Z) :
  level = H1 \/ level = H2 ->
  takesUnderline level s = true -> headlineOrNone s = true.
Proof.
  unfold takesUnderline, headlineOrNone.
  intros [-> | ->] H; apply orb_true_iff in H as [H|H]; rewrite H;
    rewrite ?orb_true_r; reflexivity.
Qed.

Section OneClassification.

Variable globalMatch : QRegularExpression -> QString -> list QRegularExpressionMatch.

Variable Q : Z -> Prop.
Hypothesis Q_list : Q List.

Lemma listed_highlightRule t hl r :
  (useStateAsCurrentBlockState r = true -> state r = List) ->
  Q (currentBlockState hl) ->
  Q (currentBlockState (highlightRule globalMatch t hl r)).
Proof.
  intros Hr H. unfold highlightRule. destruct (_ && _); [exact H|]. cbv zeta.
  apply (fold_left_invariant (fun h => Q (currentBlockState h)));
    [intros a x Ha; now rewrite current_highlightMatch|].
  destruct (globalMatch (pattern r) t); [exact H|].
  destruct (useStateAsCurrentBlockState r); [|exact H].
  rewrite Hr by reflexivity.
  apply current_setCurrentBlockState; [exact Q_list|exact H].
Qed.

Lemma listed_highlightAdditionalRules hl rules t :
  listOnly rules ->
  Q (currentBlockState hl) ->
  Q (currentBlockState (highlightAdditionalRules globalMatch hl rules t)).
Proof.
  intros Hr. unfold highlightAdditionalRules.
  apply (fold_left_invariant_in (fun h => Q (currentBlockState h))).
  intros a r Hin. apply listed_highlightRule.
  exact (proj1 (List.Forall_forall _ _) Hr r Hin).
Qed.

End OneClassification.

(** *** One classification *)

Lemma blockState_document hl hl' k :
  document hl' = document hl -> blockState hl' k = blockState hl k.
Proof. intros H. unfold blockState, blockAt. now rewrite H. Qed.

Lemma keeps_resetBlock hl n k :
  k <> n -> blockState (resetBlock hl n) (Some k) = blockState hl (Some k).
Proof.
  intros Hne. unfold resetBlock. cbv zeta.
  set (h0 := mkHL _ _ _ _ _ _ n [] _).
  assert (H : keeps k h0 (setUserState (setCurrentBlockState h0 NoState)
                            (Some (currentBlock (setCurrentBlockState h0 NoState)))
                            NoState)).
  { change (keeps k h0 (setCurrentBlockState (setCurrentBlockState h0 NoState) NoState)).
    apply keeps_setCurrentBlockState; [exact Hne|].
    apply keeps_setCurrentBlockState; [exact Hne|apply keeps_refl]. }
  destruct H as [_ H]. exact H.
Qed.

Section Classification.

Variable globalMatch : QRegularExpression -> QString -> list QRegularExpressionMatch.

Lemma keeps_beforeComment k hl x t :
  k <> currentBlock hl -> S k <> currentBlock hl ->
  keeps k hl x -> keeps k hl (beforeComment globalMatch x t).
Proof.
  intros Hne Hnp H. unfold beforeComment. destruct t as [|c t]; [exact H|].
  cbv zeta.
  apply keeps_highlightAdditionalRules; [exact Hne|].
  apply keeps_highlightHeadline; [exact Hne|exact Hnp|].
  now apply keeps_highlightAdditionalRules.
Qed.

(** One classification leaves the states of the blocks alone, the classified
    one and the one before it apart. *)
Lemma classification_elsewhere hl m k :
  k <> m -> S k <> m ->
  blockState (rehighlightBlock globalMatch hl m) (Some k) = blockState hl (Some k).
Proof.
  intros Hne Hnp.
  destruct (blockAt hl m) as [b|] eqn:Hb;
    [|unfold rehighlightBlock; now rewrite Hb].
  destruct (rehighlightBlock_steps globalMatch hl m b Hb) as (_ & _ & _ & Hd & _).
  rewrite (blockState_document _ _ _ Hd).
  destruct (resetBlock_spec hl m) as (Hc & _).
  rewrite <- (keeps_resetBlock hl m k Hne).
  apply keeps_blockSteps; [now rewrite Hc|].
  apply keeps_beforeComment; [now rewrite Hc|now rewrite Hc|apply keeps_refl].
Qed.

Lemma dirty_blockSteps x t : _dirtyTextBlocks (blockSteps x t) = _dirtyTextBlocks x.
Proof.
  unfold blockSteps.
  now rewrite dirty_highlightFrontmatterBlock, dirty_highlightCodeBlock,
    dirty_highlightCommentBlock.
Qed.

(** The classification of the first block leaves the queue alone. *)
Lemma classification_first hl :
  _dirtyTextBlocks (rehighlightBlock globalMatch hl 0) = _dirtyTextBlocks hl.
Proof.
  destruct (blockAt hl 0) as [b|] eqn:Hb;
    [|unfold rehighlightBlock; now rewrite Hb].
  destruct (rehighlightBlock_steps globalMatch hl 0 b Hb) as (_ & _ & _ & _ & ->).
  destruct (resetBlock_spec hl 0) as (Hc & _ & _ & Hq & _).
  rewrite dirty_blockSteps. unfold beforeComment.
  destruct (text b) as [|c t]; [exact Hq|]. cbv zeta.
  rewrite dirty_highlightAdditionalRules, headline_first,
    dirty_highlightAdditionalRules; [exact Hq|].
  rewrite (fr_current _ _ (frame_highlightAdditionalRules globalMatch _ _ _)).
  exact Hc.
Qed.

(** The classification of block [S p], for block [p]: when the underline
    applies, block [p] gets its level and is put into the queue, and the
    state of block [S p] is none that takes an underline; in any other case
    the state of block [p] and the queue stay as they are. *)
Lemma classification_previous hl p b :
  listOnly (_highlightingRulesAfter hl) ->
  blockAt hl (S p) = Some b ->
  let hl' := rehighlightBlock globalMatch hl (S p) in
  if underlineApplies hl p
  then (exists level, underlined hl p = Some level /\
                      blockState hl' (Some p) = level) /\
       _dirtyTextBlocks hl' = _dirtyTextBlocks (addDirtyBlock hl p) /\
       headlineOrNone (blockState hl' (Some (S p))) = false
  else blockState hl' (Some p) = blockState hl (Some p) /\
       _dirtyTextBlocks hl' = _dirtyTextBlocks hl.
Proof.
  intros Hrules Hb hl'. subst hl'.
  assert (Hn : (S p < length (document hl))%nat)
    by (unfold blockAt in Hb; now apply lookup_lt_Some in Hb).
  destruct (rehighlightBlock_steps globalMatch hl (S p) b Hb)
    as (Hs & _ & _ & Hd & Hq).
  rewrite Hs, Hq, (blockState_document _ _ _ Hd). clear Hs Hq Hd.
  destruct (resetBlock_spec hl (S p)) as (Hc & _ & _ & Hq & Hl & Ht & Hp & _).
  set (r := resetBlock hl (S p)) in *. simpl in Hp.
  assert (Htext : blockText hl (Some (S p)) = text b)
    by (unfold blockText; now rewrite Hb).
  unfold underlineApplies. rewrite underlined_level, Htext.
  rewrite dirty_blockSteps.
  assert (Hk : forall x, keeps p r x ->
                         blockState (blockSteps x (text b)) (Some p) =
                         blockState x (Some p)).
  { intros x Hx. destruct Hx as [Hcx _].
    assert (K : keeps p x (blockSteps x (text b))).
    { apply keeps_blockSteps; [rewrite Hcx, Hc; lia|apply keeps_refl]. }
    apply K. }
  unfold beforeComment.
  destruct (text b) as [|c t'] eqn:Et.
  { (* an empty line is no underline *)
    replace (underlineLevel []) with (@None HighlighterState) by reflexivity.
    destruct (0 <? _); rewrite Hk by apply keeps_refl;
      (split; [|exact Hq]); apply keeps_resetBlock; lia. }
  cbv zeta. rewrite <- Et in *. clear Et c t'.
  set (x1 := highlightAdditionalRules globalMatch r (_highlightingRulesPre r) (text b)).
  pose proof (frame_highlightAdditionalRules globalMatch r
                (_highlightingRulesPre r) (text b)) as F1.
  fold x1 in F1.
  assert (Hc1 : currentBlock x1 = S p) by now rewrite (fr_current _ _ F1).
  assert (Hl1 : (S p < length (document x1))%nat)
    by now rewrite (frame_length _ _ F1), Hl.
  assert (Hp1 : previousBlockState x1 = blockState hl (Some p)).
  { unfold x1. now rewrite previous_highlightAdditionalRules. }
  assert (Ht1 : blockText x1 (Some p) = blockText hl (Some p))
    by now rewrite (frame_blockText _ _ _ F1), Ht.
  assert (Hq1 : _dirtyTextBlocks x1 = _dirtyTextBlocks hl).
  { unfold x1. now rewrite dirty_highlightAdditionalRules. }
  assert (K1 : keeps p r x1).
  { unfold x1. apply keeps_highlightAdditionalRules; [rewrite Hc; lia|].
    apply keeps_refl. }
  set (x2 := highlightHeadline x1 (text b)).
  set (x3 := highlightAdditionalRules globalMatch x2 (_highlightingRulesAfter x2)
                                      (text b)).
  assert (Hc2 : currentBlock x2 = S p).
  { unfold x2. now rewrite (fr_current _ _ (frame_highlightHeadline _ _)). }
  assert (E3 : blockState (blockSteps x3 (text b)) (Some p) = previousBlockState x2).
  { assert (K : keeps p x2 (blockSteps x3 (text b))).
    { apply keeps_blockSteps; [rewrite Hc2; lia|].
      unfold x3. apply keeps_highlightAdditionalRules; [rewrite Hc2; lia|].
      apply keeps_refl. }
    destruct K as [_ ->]. unfold previousBlockState, previousBlock.
    now rewrite Hc2. }
  assert (Q3 : _dirtyTextBlocks x3 = _dirtyTextBlocks x2).
  { unfold x3. now rewrite dirty_highlightAdditionalRules. }
  rewrite E3, Q3.
  pose proof (headline_previous x1 (text b) p Hc1 Hl1) as H.
  fold x2 in H. rewrite Hp1, Ht1 in H.
  destruct (underlineLevel (text b)) as [level|] eqn:El.
  - destruct (0 <? qlength (blockText hl (Some p))) eqn:Hlen.
    + rewrite andb_true_r in H.
      destruct (takesUnderline level (blockState hl (Some p))) eqn:Htk.
      * destruct H as (A & B & C).
        split; [exists level; split; [reflexivity|exact B]|].
        split; [rewrite C, !addDirtyBlock_queue, Hq1; reflexivity|].
        set (Q := fun s : Z => headlineOrNone s = false).
        change (Q (currentBlockState (blockSteps x3 (text b)))).
        unfold blockSteps.
        apply current_highlightFrontmatterBlock; [split; reflexivity|].
        apply current_highlightCodeBlock.
        { intros s Hin. simpl in Hin.
          repeat (destruct Hin as [<-|Hin]; [reflexivity|]). contradiction. }
        apply current_highlightCommentBlock; [reflexivity|].
        unfold x3. apply listed_highlightAdditionalRules; [reflexivity| |].
        -- unfold x2.
           rewrite (fr_after _ _ (frame_highlightHeadline _ _)), (fr_after _ _ F1).
           unfold r.
           pose proof (resetBlock_frame hl (S p)) as Fr.
           rewrite (fr_after _ _ Fr). exact Hrules.
        -- unfold Q. now rewrite A.
      * rewrite H. split; [exact Hp1|exact Hq1].
    + rewrite andb_false_r in H. rewrite H. split; [exact Hp1|exact Hq1].
  - destruct H as [A B].
    assert (G : previousBlockState x2 = blockState hl (Some p) /\
                _dirtyTextBlocks x2 = _dirtyTextBlocks hl)
      by (split; [now rewrite A|now rewrite B]).
    now destruct (0 <? _).
Qed.

End Classification.

(** *** The blocks that Qt goes on with *)

Lemma containsBlock_app (q a : list nat) (j : nat) :
  containsBlock (q ++ a) j = containsBlock q j || containsBlock a j.
Proof. unfold containsBlock. apply existsb_app. Qed.

Lemma containsBlock_none (a : list nat) (j : nat) :
  Forall (fun k => k <> j) a -> containsBlock a j = false.
Proof.
  intros H. destruct (containsBlock a j) eqn:E; [|reflexivity].
  apply containsBlock_In in E.
  exfalso. exact (proj1 (List.Forall_forall _ _) H j E eq_refl).
Qed.

Lemma inQueue_addDirtyBlock hl p j :
  inQueue (addDirtyBlock hl p) j = inQueue hl j || (j =? p)%nat.
Proof.
  unfold inQueue. rewrite addDirtyBlock_queue.
  destruct (containsBlock (_dirtyTextBlocks hl) p) eqn:E.
  - destruct (Nat.eqb_spec j p) as [->|]; [now rewrite E|now rewrite orb_false_r].
  - rewrite containsBlock_app. unfold containsBlock at 2. simpl.
    now rewrite orb_false_r.
Qed.

Lemma underlined_texts hl hl' j :
  map text (document hl') = map text (document hl) ->
  underlined hl' j = underlined hl j.
Proof. intros E. unfold underlined. now rewrite !(blockText_of_texts _ _ _ E). Qed.

Lemma underlineApplies_same hl hl' j :
  map text (document hl') = map text (document hl) ->
  blockState hl' (Some j) = blockState hl (Some j) ->
  underlineApplies hl' j = underlineApplies hl j.
Proof.
  intros E S. unfold underlineApplies. now rewrite (underlined_texts _ _ _ E), S.
Qed.

Lemma underlined_levels hl j level :
  underlined hl j = Some level -> level = H1 \/ level = H2.
Proof.
  unfold underlined, underlineLevel. destruct (0 <? _); [|discriminate].
  destruct (hasOnlyHeadChars _ "="%char); [intros [= <-]; now left|].
  destruct (hasOnlyHeadChars _ "-"%char); [intros [= <-]; now right|discriminate].
Qed.

Lemma underlineApplies_headline hl j :
  headlineOrNone (blockState hl (Some j)) = false -> underlineApplies hl j = false.
Proof.
  intros H. unfold underlineApplies.
  destruct (underlined hl j) as [level|] eqn:E; [|reflexivity].
  destruct (takesUnderline level _) eqn:T; [|reflexivity].
  rewrite (headlineOrNone_takes level _ (underlined_levels _ _ _ E) T) in H.
  discriminate.
Qed.

Section CascadeStates.

Variable globalMatch : QRegularExpression -> QString -> list QRegularExpressionMatch.

(** What one classification adds to the queue: nothing, or the block before
    the classified one. *)
Lemma classification_queue hl m :
  listOnly (_highlightingRulesAfter hl) ->
  let h1 := rehighlightBlock globalMatch hl m in
  (List.NoDup (_dirtyTextBlocks hl) -> List.NoDup (_dirtyTextBlocks h1)) /\
  exists added,
    _dirtyTextBlocks h1 = _dirtyTextBlocks hl ++ added /\
    Forall (fun k => S k = m /\ (m < length (document hl))%nat) added.
Proof.
  intros Hr h1. subst h1.
  destruct (blockAt hl m) as [b|] eqn:Hb.
  - assert (Hn : (m < length (document hl))%nat)
      by (unfold blockAt in Hb; now apply lookup_lt_Some in Hb).
    destruct m as [|p].
    + rewrite classification_first. split; [auto|].
      exists []. now rewrite app_nil_r.
    + pose proof (classification_previous globalMatch hl p b Hr Hb) as H.
      cbv zeta in H. destruct (underlineApplies hl p).
      * destruct H as (_ & -> & _). split; [apply addDirtyBlock_NoDup|].
        rewrite addDirtyBlock_queue.
        destruct (containsBlock (_dirtyTextBlocks hl) p).
        -- exists []. now rewrite app_nil_r.
        -- exists [p]. split; [reflexivity|]. now repeat constructor.
      * destruct H as (_ & ->). split; [auto|].
        exists []. now rewrite app_nil_r.
  - unfold rehighlightBlock. rewrite Hb. split; [auto|].
    exists []. now rewrite app_nil_r.
Qed.

Lemma classification_setup hl m :
  let h1 := rehighlightBlock globalMatch hl m in
  map text (document h1) = map text (document hl) /\
  _highlightingRulesAfter h1 = _highlightingRulesAfter hl /\
  length (document h1) = length (document hl).
Proof.
  intros h1. subst h1.
  destruct (sameSetup_rehighlightBlock globalMatch hl m) as (_ & A & B).
  destruct (rehighlightBlock_effect globalMatch hl m) as (C & _).
  auto.
Qed.

(** Qt's [rehighlightBlock] from block [m] on: the texts and the rules stay,
    the queue grows at its end by blocks from [m - 1] on, and the states of
    the blocks before [m - 1] stay. *)
Lemma cascade_frame (count : nat) :
  forall hl m,
    listOnly (_highlightingRulesAfter hl) ->
    let hl' := rehighlightFrom globalMatch count hl m in
    map text (document hl') = map text (document hl) /\
    _highlightingRulesAfter hl' = _highlightingRulesAfter hl /\
    (List.NoDup (_dirtyTextBlocks hl) -> List.NoDup (_dirtyTextBlocks hl')) /\
    (exists added,
        _dirtyTextBlocks hl' = _dirtyTextBlocks hl ++ added /\
        Forall (fun k => (m <= S k < length (document hl))%nat) added) /\
    (forall j, (S j < m)%nat -> blockState hl' (Some j) = blockState hl (Some j)).
Proof.
  assert (Hbase : forall hl m,
             map text (document hl) = map text (document hl) /\
             _highlightingRulesAfter hl = _highlightingRulesAfter hl /\
             (List.NoDup (_dirtyTextBlocks hl) -> List.NoDup (_dirtyTextBlocks hl)) /\
             (exists added,
                 _dirtyTextBlocks hl = _dirtyTextBlocks hl ++ added /\
                 Forall (fun k => (m <= S k < length (document hl))%nat) added) /\
             (forall j, (S j < m)%nat ->
                        blockState hl (Some j) = blockState hl (Some j))).
  { intros hl m. repeat split; auto. exists []. now rewrite app_nil_r. }
  induction count as [|c IH]; intros hl m Hr hl'; subst hl'.
  - apply Hbase.
  - cbn [rehighlightFrom]. destruct (blockAt hl m) as [b|] eqn:Hb; [|apply Hbase].
    cbv zeta.
    destruct (classification_setup hl m) as (Ht1 & Hr1 & Hl1).
    destruct (classification_queue hl m Hr) as (Hnd1 & added1 & Hq1 & Hall1).
    set (h1 := rehighlightBlock globalMatch hl m) in *.
    assert (Hs1 : forall j, (S j < m)%nat ->
                            blockState h1 (Some j) = blockState hl (Some j)).
    { intros j Hj. apply classification_elsewhere; lia. }
    assert (Hall1' : Forall (fun k => (m <= S k < length (document hl))%nat) added1).
    { eapply List.Forall_impl; [|exact Hall1]. simpl. intros k [<- Hk]. lia. }
    destruct (blockState h1 (Some m) =? userState b).
    + split; [exact Ht1|]. split; [exact Hr1|]. split; [exact Hnd1|].
      split; [now exists added1|exact Hs1].
    + assert (Hr' : listOnly (_highlightingRulesAfter h1)) by now rewrite Hr1.
      destruct (IH h1 (S m) Hr') as (Ht2 & Hr2 & Hnd2 & (added2 & Hq2 & Hall2) & Hs2).
      split; [now rewrite Ht2|]. split; [now rewrite Hr2|].
      split; [auto|]. split.
      * exists (added1 ++ added2). split; [now rewrite Hq2, Hq1, app_assoc|].
        apply Forall_app. split; [exact Hall1'|].
        eapply List.Forall_impl; [|exact Hall2]. simpl. intros k Hk.
        rewrite Hl1 in Hk. lia.
      * intros j Hj. rewrite Hs2 by lia. now apply Hs1.
Qed.

Lemma cascade_queue_below count hl m j :
  listOnly (_highlightingRulesAfter hl) ->
  (S j < m)%nat ->
  inQueue (rehighlightFrom globalMatch count hl m) j = inQueue hl j.
Proof.
  intros Hr Hj.
  destruct (cascade_frame count hl m Hr) as (_ & _ & _ & (added & Hq & Hall) & _).
  unfold inQueue. rewrite Hq, containsBlock_app, (containsBlock_none added);
    [apply orb_false_r|].
  eapply List.Forall_impl; [|exact Hall]. simpl. intros k Hk. lia.
Qed.

Lemma cascade_queue_stays count hl m j :
  listOnly (_highlightingRulesAfter hl) ->
  inQueue hl j = true ->
  inQueue (rehighlightFrom globalMatch count hl m) j = true.
Proof.
  intros Hr Hj.
  destruct (cascade_frame count hl m Hr) as (_ & _ & _ & (added & Hq & _) & _).
  unfold inQueue in *. now rewrite Hq, containsBlock_app, Hj.
Qed.

(** The block before the first block of the run, when the underline does not
    apply to it. *)
Lemma cascade_previous_idle count hl p :
  listOnly (_highlightingRulesAfter hl) ->
  underlineApplies hl p = false ->
  let hl' := rehighlightFrom globalMatch count hl (S p) in
  blockState hl' (Some p) = blockState hl (Some p) /\ inQueue hl' p = inQueue hl p.
Proof.
  intros Hr Hu hl'. subst hl'.
  destruct count as [|c]; [now split|].
  cbn [rehighlightFrom]. destruct (blockAt hl (S p)) as [b|] eqn:Hb; [|now split].
  cbv zeta.
  pose proof (classification_previous globalMatch hl p b Hr Hb) as H.
  cbv zeta in H. rewrite Hu in H. destruct H as [Hs Hq].
  destruct (classification_setup hl (S p)) as (_ & Hr1 & _).
  set (h1 := rehighlightBlock globalMatch hl (S p)) in *.
  assert (Hi : inQueue h1 p = inQueue hl p) by (unfold inQueue; now rewrite Hq).
  destruct (_ =? _); [now split|].
  assert (Hr' : listOnly (_highlightingRulesAfter h1)) by now rewrite Hr1.
  destruct (cascade_frame c h1 (S (S p)) Hr') as (_ & _ & _ & _ & Hs2).
  split; [rewrite Hs2 by lia; exact Hs|].
  rewrite cascade_queue_below by (auto; lia). exact Hi.
Qed.

(** The block before the first block of the run, when the underline applies
    to it: it gets its level and is in the queue, and the underline line
    ends with a state that takes no underline itself. *)
Lemma cascade_previous_underlined count hl p :
  listOnly (_highlightingRulesAfter hl) ->
  underlineApplies hl p = true ->
  (0 < count)%nat -> (S p < length (document hl))%nat ->
  let hl' := rehighlightFrom globalMatch count hl (S p) in
  (exists level, underlined hl p = Some level /\ blockState hl' (Some p) = level) /\
  inQueue hl' p = true /\
  headlineOrNone (blockState hl' (Some (S p))) = false /\
  inQueue hl' (S p) = inQueue hl (S p).
Proof.
  intros Hr Hu Hc Hn hl'. subst hl'.
  destruct count as [|c]; [lia|].
  cbn [rehighlightFrom].
  destruct (blockAt hl (S p)) as [b|] eqn:Hb;
    [|unfold blockAt in Hb; apply lookup_ge_None in Hb; lia].
  cbv zeta.
  pose proof (classification_previous globalMatch hl p b Hr Hb) as H.
  cbv zeta in H. rewrite Hu in H. destruct H as ((level & El & Hs) & Hq & Hh).
  destruct (classification_setup hl (S p)) as (Ht1 & Hr1 & _).
  set (h1 := rehighlightBlock globalMatch hl (S p)) in *.
  assert (Hi : inQueue h1 p = true).
  { unfold inQueue. rewrite Hq. fold (inQueue (addDirtyBlock hl p) p).
    rewrite inQueue_addDirtyBlock, Nat.eqb_refl. apply orb_true_r. }
  assert (Hi' : inQueue h1 (S p) = inQueue hl (S p)).
  { unfold inQueue. rewrite Hq. fold (inQueue (addDirtyBlock hl p) (S p)).
    rewrite inQueue_addDirtyBlock.
    replace (S p =? p)%nat with false by (symmetry; apply Nat.eqb_neq; lia).
    apply orb_false_r. }
  destruct (_ =? _).
  { split; [now exists level|]. auto. }
  assert (Hr' : listOnly (_highlightingRulesAfter h1)) by now rewrite Hr1.
  destruct (cascade_frame c h1 (S (S p)) Hr') as (_ & _ & _ & _ & Hs2).
  destruct (cascade_previous_idle c h1 (S p) Hr'
              (underlineApplies_headline h1 (S p) Hh)) as [Hs3 Hq3].
  split; [exists level; split; [exact El|rewrite Hs2 by lia; exact Hs]|].
  split; [now apply cascade_queue_stays|].
  split; [now rewrite Hs3|now rewrite Hq3].
Qed.

(** The first block of the run and the block after it: when that block was
    not pending and had a state that takes no underline, this is still so
    after the run, or no underline applies to the first block. *)
Lemma cascade_next count hl m :
  listOnly (_highlightingRulesAfter hl) ->
  inQueue hl (S m) = false ->
  headlineOrNone (blockState hl (Some (S m))) = false ->
  let hl' := rehighlightFrom globalMatch count hl m in
  (inQueue hl' (S m) = false /\
   headlineOrNone (blockState hl' (Some (S m))) = false) \/
  underlineApplies hl' m = false.
Proof.
  intros Hr Hq Hh hl'. subst hl'.
  destruct count as [|c]; [now left|].
  cbn [rehighlightFrom]. destruct (blockAt hl m) as [b|] eqn:Hb; [|now left].
  cbv zeta.
  destruct (classification_setup hl m) as (Ht1 & Hr1 & Hl1).
  destruct (classification_queue hl m Hr) as (_ & added1 & Hq1 & Hall1).
  pose proof (classification_elsewhere globalMatch hl m (S m)) as Hs1.
  set (h1 := rehighlightBlock globalMatch hl m) in *.
  assert (Hq' : inQueue h1 (S m) = false).
  { unfold inQueue in *. rewrite Hq1, containsBlock_app, Hq.
    apply containsBlock_none.
    eapply List.Forall_impl; [|exact Hall1]. simpl. intros k [Hk _]. lia. }
  assert (Hh' : headlineOrNone (blockState h1 (Some (S m))) = false).
  { rewrite Hs1 by lia. exact Hh. }
  destruct (_ =? _); [now left|].
  assert (Hr' : listOnly (_highlightingRulesAfter h1)) by now rewrite Hr1.
  destruct c as [|c]; [now left|].
  destruct (Nat.lt_ge_cases (S m) (length (document h1))) as [Hv|Hv].
  - destruct (underlineApplies h1 m) eqn:Hu.
    + destruct (cascade_previous_underlined (S c) h1 m Hr' Hu) as (_ & _ & A & B);
        [lia|exact Hv|].
      left. split; [now rewrite B|exact A].
    + destruct (cascade_previous_idle (S c) h1 m Hr' Hu) as [A _].
      destruct (cascade_frame (S c) h1 (S m) Hr') as (Ht2 & _).
      right. rewrite <- Hu. now apply underlineApplies_same.
  - left. cbn [rehighlightFrom]. unfold blockAt.
    rewrite (proj2 (lookup_ge_None _ _) Hv). now split.
Qed.

End CascadeStates.

(** *** The measure of the drain

    A round takes the head [n] of the queue out and can put in the block
    before [n] and blocks after [n]: the queue can grow.  The block before
    [n] is put in only by the underline in [n] when it applies, and then
    block [n] ends with a state that takes no underline itself, so that the
    line after [n] cannot put [n] back as long as this state stays.
    [pendingLevel] makes a digit of this for every block, and the digits read
    as one number, the first block first, go down with every round: the digit
    of [n] goes down, the digits before it do not go up, the digits after it
    may change as they like. *)

Lemma pendingLevel_le hl j : (pendingLevel hl j <= 3)%nat.
Proof.
  unfold pendingLevel.
  repeat match goal with
         | |- context [match ?c with _ => _ end] => destruct c
         end; lia.
Qed.

Lemma weightFrom_bound (g : nat -> nat) :
  (forall i, g i <= 3)%nat ->
  forall c j, (weightFrom g j c < 4 ^ S c)%nat.
Proof.
  intros Hg. induction c as [|c IH]; intros j; [simpl; lia|].
  cbn [weightFrom]. specialize (IH (S j)). specialize (Hg j).
  assert (E : (4 ^ S (S c) = 4 * 4 ^ S c)%nat) by (rewrite Nat.pow_succ_r'; lia).
  rewrite E. nia.
Qed.

Lemma weightFrom_ext (f g : nat -> nat) :
  forall c j, (forall i, j <= i < j + c -> g i = f i)%nat ->
              weightFrom g j c = weightFrom f j c.
Proof.
  induction c as [|c IH]; intros j H; [reflexivity|].
  cbn [weightFrom]. rewrite (H j) by lia. f_equal.
  apply IH. intros i Hi. apply H. lia.
Qed.

(** The order of the digits: lower at block [n] and not higher before it is
    lower as a number. *)
Lemma weightFrom_lex (f g : nat -> nat) (n : nat) :
  (forall i, g i <= 3)%nat ->
  (g n < f n)%nat ->
  forall c j, (j <= n < j + c)%nat ->
              (forall i, j <= i < n -> g i <= f i)%nat ->
              (weightFrom g j c < weightFrom f j c)%nat.
Proof.
  intros Hg Hn. induction c as [|c IH]; intros j Hj Hle; [lia|].
  cbn [weightFrom].
  destruct (Nat.eq_dec j n) as [->|Hne].
  - pose proof (weightFrom_bound g Hg c (S n)). nia.
  - assert (H1 : (g j <= f j)%nat) by (apply Hle; lia).
    assert (H2 : (weightFrom g (S j) c < weightFrom f (S j) c)%nat).
    { apply IH; [lia|]. intros i Hi. apply Hle. lia. }
    assert (H3 : (g j * 4 ^ S c <= f j * 4 ^ S c)%nat)
      by (apply Nat.mul_le_mono_r; exact H1).
    lia.
Qed.

Lemma containsBlock_cons (n : nat) (q : list nat) (j : nat) :
  containsBlock (n :: q) j = (j =? n)%nat || containsBlock q j.
Proof. reflexivity. Qed.

Lemma underlineApplies_takes hl j level :
  underlined hl j = Some level ->
  underlineApplies hl j = takesUnderline level (blockState hl (Some j)).
Proof. intros E. unfold underlineApplies. now rewrite E. Qed.

Lemma underlineApplies_none hl j :
  underlined hl j = None -> underlineApplies hl j = false.
Proof. intros E. unfold underlineApplies. now rewrite E. Qed.

Lemma underlineApplies_headlineOrNone hl j :
  underlineApplies hl j = true -> headlineOrNone (blockState hl (Some j)) = true.
Proof.
  intros H. destruct (headlineOrNone _) eqn:E; [reflexivity|].
  rewrite (underlineApplies_headline hl j E) in H. discriminate.
Qed.

Lemma underlined_last hl j :
  (length (document hl) <= S j)%nat -> underlined hl j = None.
Proof.
  intros H. unfold underlined.
  replace (blockText hl (Some (S j))) with (@nil QChar).
  - now destruct (0 <? _).
  - unfold blockText, blockAt. now rewrite (proj2 (lookup_ge_None _ _) H).
Qed.

Lemma strangers_none (L : nat) (added : list nat) :
  Forall (fun k => k < L)%nat added ->
  List.filter (fun k => negb (k <? L)%nat) added = [].
Proof.
  induction 1 as [|k added Hk _ IH]; [reflexivity|].
  cbn [List.filter].
  replace (k <? L)%nat with true by (symmetry; now apply Nat.ltb_lt).
  exact IH.
Qed.

Section Rounds.

Variable globalMatch : QRegularExpression -> QString -> list QRegularExpressionMatch.

(** One round of the drain on a block of the document, block by block. *)
Lemma round_blocks hl n q :
  listOnly (_highlightingRulesAfter hl) ->
  List.NoDup (_dirtyTextBlocks hl) ->
  _dirtyTextBlocks hl = n :: q ->
  (n < length (document hl))%nat ->
  let hl2 := removeFirst (rehighlightBlocks globalMatch hl n) in
  (map text (document hl2) = map text (document hl) /\
   _highlightingRulesAfter hl2 = _highlightingRulesAfter hl /\
   List.NoDup (_dirtyTextBlocks hl2) /\
   strangers hl2 = strangers hl) /\
  (forall j, (S j < n)%nat ->
             inQueue hl2 j = inQueue hl j /\
             blockState hl2 (Some j) = blockState hl (Some j)) /\
  (forall p, n = S p ->
             (underlineApplies hl p = false /\
              inQueue hl2 p = inQueue hl p /\
              blockState hl2 (Some p) = blockState hl (Some p)) \/
             (underlineApplies hl p = true /\
              inQueue hl2 p = true /\
              underlineApplies hl2 p = true /\
              headlineOrNone (blockState hl2 (Some n)) = false)) /\
  inQueue hl2 n = false /\
  (again hl n = false -> again hl2 n = false \/ underlineApplies hl2 n = false).
Proof.
  intros Hr Hnd Hq Hn hl2. subst hl2. unfold rehighlightBlocks.
  set (count := (length (document hl) - n)%nat).
  assert (Hc : (0 < count)%nat) by (unfold count; lia).
  destruct (cascade_frame globalMatch count hl n Hr)
    as (Ht & Hr1 & Hnd1 & (added & Hq1 & Hall) & Hs).
  specialize (Hnd1 Hnd).
  pose proof (cascade_queue_below globalMatch count hl n) as Hbelow.
  pose proof (cascade_previous_idle globalMatch count hl) as Hidle.
  pose proof (cascade_previous_underlined globalMatch count hl) as Hund.
  pose proof (cascade_next globalMatch count hl n Hr) as Hnext.
  set (hl1 := rehighlightFrom globalMatch count hl n) in *.
  assert (Hd2 : document (removeFirst hl1) = document hl1) by reflexivity.
  assert (Hq2 : _dirtyTextBlocks (removeFirst hl1) = q ++ added).
  { cbn [removeFirst withDirty _dirtyTextBlocks]. now rewrite Hq1, Hq. }
  assert (Hs2 : forall k, blockState (removeFirst hl1) k = blockState hl1 k)
    by (intros k; now apply blockState_document).
  assert (Hu2 : forall j, underlineApplies (removeFirst hl1) j = underlineApplies hl1 j).
  { intros j. apply underlineApplies_same; [now rewrite Hd2|apply Hs2]. }
  assert (Hi2 : forall j, j <> n -> inQueue (removeFirst hl1) j = inQueue hl1 j).
  { intros j Hj. unfold inQueue. rewrite Hq2, Hq1, Hq. cbn [app].
    rewrite containsBlock_cons.
    replace (j =? n)%nat with false by (symmetry; now apply Nat.eqb_neq).
    reflexivity. }
  assert (Hin : inQueue (removeFirst hl1) n = false).
  { unfold inQueue. rewrite Hq2.
    destruct (containsBlock (q ++ added) n) eqn:E; [|reflexivity].
    apply containsBlock_In in E. rewrite Hq1, Hq in Hnd1. cbn [app] in Hnd1.
    inversion Hnd1 as [|? ? Hnot _]. contradiction. }
  split; [|split; [|split; [|split]]].
  - split; [now rewrite Hd2|]. split; [exact Hr1|].
    split.
    + rewrite Hq2. rewrite Hq1, Hq in Hnd1. cbn [app] in Hnd1.
      now inversion Hnd1.
    + unfold strangers. rewrite Hq2, Hd2, Hq.
      assert (El : length (document hl1) = length (document hl)).
      { rewrite <- (length_map text (document hl1)), Ht. apply length_map. }
      rewrite El. cbn [List.filter].
      replace (n <? length (document hl))%nat with true
        by (symmetry; now apply Nat.ltb_lt).
      cbn [negb]. rewrite List.filter_app.
      rewrite (strangers_none _ added); [apply app_nil_r|].
      eapply List.Forall_impl; [|exact Hall]. simpl. intros k Hk. lia.
  - intros j Hj. split.
    + rewrite Hi2 by lia. now apply Hbelow.
    + rewrite Hs2. now apply Hs.
  - intros p ->.
    destruct (underlineApplies hl p) eqn:Hu.
    + right. destruct (Hund p Hr Hu Hc Hn) as ((level & El & A) & B & C & _).
      split; [reflexivity|]. split; [rewrite Hi2 by lia; exact B|].
      split; [|rewrite Hs2; exact C].
      rewrite Hu2. unfold underlineApplies.
      rewrite (underlined_texts _ _ _ Ht), El. unfold hl1. rewrite A.
      unfold takesUnderline.
      now rewrite Z.eqb_refl.
    + left. destruct (Hidle p Hr Hu) as [A B].
      split; [reflexivity|]. split; [rewrite Hi2 by lia; exact B|].
      rewrite Hs2. exact A.
  - exact Hin.
  - intros Ha. unfold again in Ha. apply orb_false_iff in Ha as [Ha1 Ha2].
    destruct (Hnext Ha1 Ha2) as [[A B]|A].
    + left. unfold again. rewrite Hi2 by lia. now rewrite A, Hs2, B.
    + right. now rewrite Hu2.
Qed.

End Rounds.

Section Termination.

Variable globalMatch : QRegularExpression -> QString -> list QRegularExpressionMatch.

(** The levels over one round of the drain on block [n] of the document:
    lower at [n], and not higher before it. *)
Lemma round_levels hl n q :
  listOnly (_highlightingRulesAfter hl) ->
  List.NoDup (_dirtyTextBlocks hl) ->
  _dirtyTextBlocks hl = n :: q ->
  (n < length (document hl))%nat ->
  let hl2 := removeFirst (rehighlightBlocks globalMatch hl n) in
  (forall j, (j < n)%nat -> (pendingLevel hl2 j <= pendingLevel hl j)%nat) /\
  (pendingLevel hl2 n < pendingLevel hl n)%nat.
Proof.
  intros Hr Hnd Hq Hn hl2.
  destruct (round_blocks globalMatch hl n q Hr Hnd Hq Hn)
    as ((Ht & _) & Hbelow & Hprev & Hin & Hnext).
  fold hl2 in Ht, Hbelow, Hprev, Hin, Hnext.
  assert (Hu : forall j, underlined hl2 j = underlined hl j)
    by (intros j; now apply underlined_texts).
  assert (Hqn : inQueue hl n = true).
  { unfold inQueue. rewrite Hq, containsBlock_cons, Nat.eqb_refl. reflexivity. }
  split.
  - intros j Hj. unfold pendingLevel. rewrite Hu.
    destruct (Nat.eq_dec (S j) n) as [E|E].
    + (* the block before the head of the queue *)
      destruct (Hprev j (eq_sym E)) as [(A & B & C)|(A & B & C & D)].
      * rewrite B, C.
        assert (Ha : again hl j = true) by (unfold again; now rewrite E, Hqn).
        rewrite Ha.
        destruct (underlined hl j) as [level|] eqn:El; [|lia].
        rewrite (underlineApplies_takes hl j level El) in A. rewrite A.
        rewrite andb_false_r.
        destruct (inQueue hl j); [destruct (again hl2 j); lia|lia].
      * destruct (underlined hl j) as [level|] eqn:El;
          [|rewrite (underlineApplies_none hl j El) in A; discriminate].
        rewrite (underlineApplies_takes hl j level El) in A. rewrite A, B.
        assert (Ha : again hl j = true) by (unfold again; now rewrite E, Hqn).
        assert (Ha2 : again hl2 j = false).
        { unfold again. now rewrite E, Hin, D. }
        rewrite Ha, Ha2. cbn [andb]. destruct (inQueue hl j); lia.
    + destruct (Hbelow j) as [A B]; [lia|]. rewrite A, B.
      assert (Ha : again hl2 j = again hl j).
      { unfold again.
        destruct (Nat.eq_dec (S (S j)) n) as [E'|E'].
        - destruct (Hprev (S j) (eq_sym E')) as [(_ & C & D)|(C & D & _)].
          + now rewrite C, D.
          + rewrite D, (underlineApplies_headlineOrNone hl (S j) C).
            now rewrite orb_true_r.
        - destruct (Hbelow (S j)) as [C D]; [lia|]. now rewrite C, D. }
      rewrite Ha. lia.
  - unfold pendingLevel. rewrite Hu, Hin, Hqn.
    destruct (underlined hl n) as [level|] eqn:El; [|lia].
    destruct (again hl n) eqn:Ha.
    + destruct (_ && _); lia.
    + destruct (Hnext eq_refl) as [A|A].
      * rewrite A. cbn [andb]. lia.
      * rewrite <- Hu in El.
        rewrite (underlineApplies_takes hl2 n level El) in A. rewrite A.
        rewrite andb_false_r. lia.
Qed.

(** The measure goes down with every round of the drain. *)
Lemma round_measure hl n q :
  listOnly (_highlightingRulesAfter hl) ->
  List.NoDup (_dirtyTextBlocks hl) ->
  _dirtyTextBlocks hl = n :: q ->
  let hl2 := removeFirst (rehighlightBlocks globalMatch hl n) in
  (drainMeasure hl2 < drainMeasure hl)%nat /\
  listOnly (_highlightingRulesAfter hl2) /\
  List.NoDup (_dirtyTextBlocks hl2).
Proof.
  intros Hr Hnd Hq hl2.
  destruct (Nat.lt_ge_cases n (length (document hl))) as [Hn|Hn].
  - destruct (round_blocks globalMatch hl n q Hr Hnd Hq Hn)
      as ((Ht & Hr2 & Hnd2 & Hst) & _).
    destruct (round_levels hl n q Hr Hnd Hq Hn) as [Hle Hlt].
    fold hl2 in Ht, Hr2, Hnd2, Hst, Hle, Hlt.
    split; [|split; [now rewrite Hr2|exact Hnd2]].
    unfold drainMeasure. rewrite Hst.
    assert (El : length (document hl2) = length (document hl)).
    { rewrite <- (length_map text (document hl2)), Ht. apply length_map. }
    rewrite El.
    apply Nat.add_lt_mono_r.
    apply (weightFrom_lex (pendingLevel hl) (pendingLevel hl2) n);
      [intros i; apply pendingLevel_le|exact Hlt|lia|].
    intros i Hi. apply Hle. lia.
  - assert (E : hl2 = removeFirst hl).
    { unfold hl2, rehighlightBlocks.
      replace (length (document hl) - n)%nat with 0%nat by lia. reflexivity. }
    rewrite E. clear E hl2.
    assert (Hq2 : _dirtyTextBlocks (removeFirst hl) = q)
      by (cbn [removeFirst withDirty _dirtyTextBlocks]; now rewrite Hq).
    split; [|split; [exact Hr|rewrite Hq2; rewrite Hq in Hnd; now inversion Hnd]].
    unfold drainMeasure.
    assert (Hst : strangers hl = n :: strangers (removeFirst hl)).
    { unfold strangers. rewrite Hq2, Hq. cbn [List.filter].
      replace (n <? length (document hl))%nat with false
        by (symmetry; now apply Nat.ltb_ge).
      reflexivity. }
    rewrite Hst.
    change (length (document (removeFirst hl))) with (length (document hl)).
    rewrite (weightFrom_ext (pendingLevel hl) (pendingLevel (removeFirst hl)));
      [simpl; lia|].
    intros i Hi.
    assert (Hi2 : forall j, j <> n -> inQueue (removeFirst hl) j = inQueue hl j).
    { intros j Hj. unfold inQueue. rewrite Hq2, Hq, containsBlock_cons.
      replace (j =? n)%nat with false by (symmetry; now apply Nat.eqb_neq).
      reflexivity. }
    unfold pendingLevel.
    change (underlined (removeFirst hl) i) with (underlined hl i).
    change (blockState (removeFirst hl) (Some i)) with (blockState hl (Some i)).
    rewrite Hi2 by lia.
    destruct (underlined hl i) as [level|] eqn:El; [|reflexivity].
    assert (Hs : (S i < length (document hl))%nat).
    { destruct (Nat.lt_ge_cases (S i) (length (document hl))) as [H|H]; [exact H|].
      rewrite (underlined_last hl i H) in El. discriminate. }
    unfold again.
    change (blockState (removeFirst hl) (Some (S i)))
      with (blockState hl (Some (S i))).
    rewrite Hi2 by lia. reflexivity.
Qed.

(** The drain comes to its end within as many rounds as its measure says. *)
Lemma reHighlightLoop_total (fuel : nat) :
  forall hl,
    listOnly (_highlightingRulesAfter hl) ->
    List.NoDup (_dirtyTextBlocks hl) ->
    (drainMeasure hl <= fuel)%nat ->
    exists hl', reHighlightLoop globalMatch fuel hl = Ok hl'.
Proof.
  induction fuel as [|fuel IH]; intros hl Hr Hnd Hm.
  - cbn [reHighlightLoop].
    destruct (_dirtyTextBlocks hl) as [|n q] eqn:Hq; [now exists hl|].
    rewrite <- Hq in Hnd.
    destruct (round_measure hl n q Hr Hnd Hq) as (H & _). lia.
  - cbn [reHighlightLoop].
    destruct (_dirtyTextBlocks hl) as [|n q] eqn:Hq; [now exists hl|].
    rewrite <- Hq in Hnd.
    destruct (round_measure hl n q Hr Hnd Hq) as (H & Hr2 & Hnd2).
    apply IH; [exact Hr2|exact Hnd2|lia].
Qed.

End Termination.

(** ** The drain of the queue (C8) and the timer *)

Lemma noUnderlines_texts hl hl' :
  map text (document hl') = map text (document hl) ->
  noUnderlines hl -> noUnderlines hl'.
Proof.
  unfold noUnderlines. intros E H.
  apply (proj1 (List.Forall_map text (fun t => isUnderline t = false) _)).
  rewrite E. apply List.Forall_map. exact H.
Qed.

Lemma noUnderlines_lookup hl n b :
  noUnderlines hl -> blockAt hl n = Some b -> isUnderline (text b) = false.
Proof.
  unfold noUnderlines, blockAt. intros H Hb.
  exact (Forall_lookup_1 _ _ _ _ H Hb).
Qed.

Lemma count_occ_run (n : nat) (l : list nat) :
  runFrom n l -> count_occ Nat.eq_dec l n = 1%nat.
Proof.
  intros (l' & -> & H). simpl. destruct (Nat.eq_dec n n); [|congruence].
  f_equal. apply count_occ_not_In. intros Hin.
  pose proof (proj1 (List.Forall_forall _ _) H n Hin) as Hlt.
  simpl in Hlt. lia.
Qed.

Section Cascade.

Variable globalMatch : QRegularExpression -> QString -> list QRegularExpressionMatch.

(** One classification of a line that is no underline leaves the queue as it
    is. *)
Lemma dirty_rehighlightBlock_plain hl n b :
  blockAt hl n = Some b ->
  isUnderline (text b) = false ->
  _dirtyTextBlocks (rehighlightBlock globalMatch hl n) = _dirtyTextBlocks hl.
Proof.
  intros Hb Hu.
  destruct (rehighlightBlock_steps globalMatch hl n b Hb) as (_ & _ & _ & _ & ->).
  unfold blockSteps.
  rewrite dirty_highlightFrontmatterBlock, dirty_highlightCodeBlock,
    dirty_highlightCommentBlock.
  destruct (resetBlock_spec hl n) as (_ & _ & _ & Hq & _).
  unfold beforeComment. destruct (text b) as [|c t] eqn:Et; [exact Hq|].
  cbv zeta. rewrite dirty_highlightAdditionalRules.
  rewrite dirty_highlightHeadline by exact Hu.
  now rewrite dirty_highlightAdditionalRules.
Qed.

(** What Qt's [rehighlightBlock] does to the document, to the record of the
    calls, to the queue and to the flag: it highlights the block and blocks
    after it, each once, and adds to the end of the queue only. *)
Lemma rehighlightFrom_effect (count : nat) :
  forall hl n,
    let hl' := rehighlightFrom globalMatch count hl n in
    length (document hl') = length (document hl) /\
    map text (document hl') = map text (document hl) /\
    exists l added,
      highlighted hl' = highlighted hl ++ l /\
      _dirtyTextBlocks hl' = _dirtyTextBlocks hl ++ added /\
      (noUnderlines hl -> added = []) /\
      ((0 < count)%nat -> (n < length (document hl))%nat ->
       runFrom n l /\ _highlightingFinished hl' = true) /\
      (count = 0%nat \/ (length (document hl) <= n)%nat -> hl' = hl /\ l = []).
Proof.
  induction count as [|c IH]; intros hl n hl'; subst hl'.
  - cbn [rehighlightFrom]. split; [reflexivity|]. split; [reflexivity|].
    exists [], []. rewrite !app_nil_r. repeat split; auto; lia.
  - cbn [rehighlightFrom]. destruct (blockAt hl n) as [b|] eqn:Hb.
    + assert (Hn : (n < length (document hl))%nat)
        by (unfold blockAt in Hb; now apply lookup_lt_Some in Hb).
      cbv zeta.
      destruct (rehighlightBlock_effect globalMatch hl n) as (Hlen & Hlog & Hq).
      destruct (sameSetup_rehighlightBlock globalMatch hl n) as (_ & _ & Htexts).
      pose proof (finished_rehighlightBlock globalMatch hl n) as Hfin.
      rewrite (proj2 (Nat.ltb_lt _ _) Hn) in Hfin. cbn [orb] in Hfin.
      destruct (decide (n < length (document hl))%nat) as [_|]; [|lia].
      set (hl1 := rehighlightBlock globalMatch hl n) in *.
      assert (Hadd : exists added1,
                 _dirtyTextBlocks hl1 = _dirtyTextBlocks hl ++ added1 /\
                 (noUnderlines hl -> added1 = [])).
      { destruct Hq as [Hq|(p & _ & _ & Hq)].
        - exists []. rewrite app_nil_r. auto.
        - exists [p]. split; [exact Hq|]. intros Hno.
          pose proof (dirty_rehighlightBlock_plain hl n b Hb
                        (noUnderlines_lookup hl n b Hno Hb)) as Hsame.
          fold hl1 in Hsame. rewrite Hsame in Hq.
          pose proof (f_equal (@length nat) Hq) as Hl.
          rewrite length_app in Hl. simpl in Hl. lia. }
      destruct Hadd as (added1 & Hq1 & Hno1).
      destruct (blockState hl1 (Some n) =? userState b).
      * split; [exact Hlen|]. split; [exact Htexts|].
        exists [n], added1. split; [exact Hlog|]. split; [exact Hq1|].
        split; [exact Hno1|]. split.
        -- intros _ _. split; [|exact Hfin]. exists []. split; [reflexivity|constructor].
        -- intros [H|H]; [discriminate|lia].
      * destruct (IH hl1 (S n)) as (Hlen2 & Htexts2 & l2 & added2 & Hlog2 & Hq2
                                    & Hno2 & Hrun2 & Hstop2).
        set (hl2 := rehighlightFrom globalMatch c hl1 (S n)) in *.
        split; [now rewrite Hlen2|]. split; [now rewrite Htexts2|].
        exists (n :: l2), (added1 ++ added2).
        split; [rewrite Hlog2, Hlog, <- app_assoc; reflexivity|].
        split; [rewrite Hq2, Hq1, <- app_assoc; reflexivity|].
        split.
        { intros Hno. rewrite (Hno1 Hno), Hno2; [reflexivity|].
          now apply (noUnderlines_texts hl). }
        split.
        -- intros _ _.
           destruct (Nat.eq_dec c 0%nat) as [Hc|Hc].
           { destruct (Hstop2 (or_introl Hc)) as [E2 ->].
             split; [exists []; split; [reflexivity|constructor]|].
             now rewrite E2. }
           destruct (Nat.lt_ge_cases (S n) (length (document hl1))) as [Hv|Hv].
           ++ destruct Hrun2 as [(l' & -> & Hall) Hf2]; [lia|exact Hv|].
              split; [|exact Hf2].
              exists (S n :: l'). split; [reflexivity|].
              constructor; [lia|].
              eapply List.Forall_impl; [|exact Hall]. simpl. intros k Hk. lia.
           ++ destruct (Hstop2 (or_intror Hv)) as [E2 ->].
              split; [exists []; split; [reflexivity|constructor]|].
              now rewrite E2.
        -- intros [H|H]; [discriminate|lia].
    + split; [reflexivity|]. split; [reflexivity|].
      exists [], []. rewrite !app_nil_r.
      split; [reflexivity|]. split; [reflexivity|]. split; [reflexivity|].
      split; [|auto].
      intros _ Hn. unfold blockAt in Hb. apply lookup_ge_None in Hb. lia.
Qed.

Lemma rehighlightBlocks_effect hl n :
  let hl' := rehighlightBlocks globalMatch hl n in
  length (document hl') = length (document hl) /\
  map text (document hl') = map text (document hl) /\
  exists l added,
    highlighted hl' = highlighted hl ++ l /\
    _dirtyTextBlocks hl' = _dirtyTextBlocks hl ++ added /\
    (noUnderlines hl -> added = []) /\
    ((n < length (document hl))%nat ->
     runFrom n l /\ _highlightingFinished hl' = true) /\
    ((length (document hl) <= n)%nat -> hl' = hl /\ l = []).
Proof.
  intros hl'. subst hl'. unfold rehighlightBlocks.
  destruct (rehighlightFrom_effect (length (document hl) - n) hl n)
    as (Hlen & Htexts & l & added & Hlog & Hq & Hno & Hrun & Hstop).
  split; [exact Hlen|]. split; [exact Htexts|].
  exists l, added. split; [exact Hlog|]. split; [exact Hq|].
  split; [exact Hno|]. split.
  - intros Hn. apply Hrun; [lia|exact Hn].
  - intros Hn. apply Hstop. now right.
Qed.

Ltac loop_done E Eq :=
  injection E as <-; unfold pendingValid; rewrite ?Eq; simpl;
  rewrite ?orb_false_r;
  split; [first [exact Eq|reflexivity]|]; split; [reflexivity|];
  split; [reflexivity|];
  exists []; rewrite app_nil_r; split; [reflexivity|]; intros ? [].

(** The loop of the drain, when it ends: the queue is empty, every pending
    block of the document was highlighted on the way, and the flag is up
    when it was up or such a block was pending. *)
Lemma reHighlightLoop_ended (fuel : nat) :
  forall hl hl',
    reHighlightLoop globalMatch fuel hl = Ok hl' ->
    _dirtyTextBlocks hl' = [] /\
    length (document hl') = length (document hl) /\
    _highlightingFinished hl' = _highlightingFinished hl || pendingValid hl /\
    exists l,
      highlighted hl' = highlighted hl ++ l /\
      forall n, In n (_dirtyTextBlocks hl) ->
                (n < length (document hl))%nat -> In n l.
Proof.
  induction fuel as [|fuel IH]; intros hl hl' E.
  - simpl in E. destruct (_dirtyTextBlocks hl) eqn:Eq; [|discriminate].
    loop_done E Eq.
  - cbn [reHighlightLoop] in E.
    destruct (_dirtyTextBlocks hl) as [|b q] eqn:Eq; [loop_done E Eq|].
    destruct (rehighlightBlocks_effect hl b)
      as (Hlen & _ & l1 & added & Hlog & Hq & _ & Hrun & Hstop).
    set (hl1 := rehighlightBlocks globalMatch hl b) in *.
    destruct (IH _ _ E) as (Hempty & Hlen' & Hfin & l2 & Hlog' & Hin).
    cbn [removeFirst withDirty document highlighted _dirtyTextBlocks
         _highlightingFinished] in Hlen', Hfin, Hlog', Hin.
    unfold pendingValid in Hfin.
    cbn [removeFirst withDirty document _dirtyTextBlocks] in Hfin.
    rewrite Hq, Eq in Hin, Hfin. cbn [app tail] in Hin, Hfin.
    split; [exact Hempty|]. split; [now rewrite Hlen'|]. split.
    + rewrite Hfin. unfold pendingValid. rewrite Eq. cbn [existsb].
      destruct (Nat.ltb_spec b (length (document hl))) as [Hv|Hv].
      * destruct (Hrun Hv) as [_ ->]. cbn [orb]. now rewrite orb_true_r.
      * destruct (Hstop Hv) as [E1 _]. rewrite E1 in Hq |- *.
        rewrite Eq in Hq.
        assert (added = []).
        { pose proof (f_equal (@length nat) Hq) as Hl.
          rewrite length_app in Hl. destruct added; [reflexivity|simpl in Hl; lia]. }
        subst added. now rewrite app_nil_r.
    + exists (l1 ++ l2). split; [rewrite Hlog', Hlog, <- app_assoc; reflexivity|].
      intros n [<-|Hn] Hv.
      * destruct (Hrun Hv) as [(l' & -> & _) _]. now left.
      * apply in_or_app. right. apply Hin; [|now rewrite Hlen].
        apply in_or_app. now left.
Qed.

(** In a document without underline lines the queue never grows: the loop
    ends within one round for each pending block. *)
Lemma reHighlightLoop_plain (fuel : nat) :
  forall hl,
    noUnderlines hl ->
    (length (_dirtyTextBlocks hl) <= fuel)%nat ->
    exists hl', reHighlightLoop globalMatch fuel hl = Ok hl'.
Proof.
  induction fuel as [|fuel IH]; intros hl Hno Hf.
  - destruct (_dirtyTextBlocks hl) eqn:Eq; [|simpl in Hf; lia].
    exists hl. simpl. now rewrite Eq.
  - cbn [reHighlightLoop].
    destruct (_dirtyTextBlocks hl) as [|b q] eqn:Eq; [now exists hl|].
    destruct (rehighlightBlocks_effect hl b)
      as (_ & Htexts & l1 & added & _ & Hq & Hadd & _).
    apply IH.
    + apply (noUnderlines_texts hl); [|exact Hno]. exact Htexts.
    + cbn [removeFirst withDirty _dirtyTextBlocks].
      rewrite Hq, (Hadd Hno), app_nil_r, Eq. simpl in *. lia.
Qed.

(** The same for a queue of one block: the blocks highlighted are that block
    and blocks after it, each once. *)
Lemma reHighlightLoop_plain_single hl n :
  noUnderlines hl ->
  _dirtyTextBlocks hl = [n] ->
  (n < length (document hl))%nat ->
  exists hl' l,
    reHighlightLoop globalMatch 1 hl = Ok hl' /\
    highlighted hl' = highlighted hl ++ l /\ runFrom n l.
Proof.
  intros Hno Eq Hv. cbn [reHighlightLoop]. rewrite Eq.
  destruct (rehighlightBlocks_effect hl n)
    as (_ & _ & l1 & added & Hlog & Hq & Hadd & Hrun & _).
  rewrite (Hadd Hno), app_nil_r, Eq in Hq.
  cbn [removeFirst withDirty _dirtyTextBlocks]. rewrite Hq. cbn [tail].
  eexists _, l1. split; [reflexivity|]. split; [exact Hlog|].
  now apply Hrun.
Qed.

(** The second rule list of the constructor records no state but that of
    the list rules. *)
Lemma initialRules_listOnly hl :
  initialRules hl -> listOnly (_highlightingRulesAfter hl).
Proof. intros (b & _ & ->). apply listOnly_after. Qed.

(** C8, as the code has it.  Marking never puts a block into the queue twice
    and marking a block again changes nothing.  A round of the drain is Qt's
    [rehighlightBlock] on the head of the queue, which highlights that block
    and goes on with the blocks after it while states change.  Whenever the
    drain ends, the queue is empty and every block of the document that was
    pending has been highlighted on the way, at least once.  With the rules
    of the constructor the drain does end, whatever the document and the
    states of its blocks are: within as many rounds as its measure says.  In a
    document without a line of [=] only or of [-] only the drain ends within
    one round for each pending block; there, when a block was marked three
    times and nothing else was pending, the drain highlights it exactly
    once. *)
Theorem dirty_queue_drain (hl : MarkdownHighlighter) (marks : list nat) :
  List.NoDup (_dirtyTextBlocks hl) ->
  let hl1 := fold_left addDirtyBlock marks hl in
  List.NoDup (_dirtyTextBlocks hl1) /\
  (forall n, addDirtyBlock (addDirtyBlock hl1 n) n = addDirtyBlock hl1 n) /\
  (forall n, In n marks -> In n (_dirtyTextBlocks hl1)) /\
  (forall fuel hl',
      reHighlightDirtyBlocks globalMatch fuel hl1 = Ok hl' ->
      _dirtyTextBlocks hl' = [] /\
      exists l,
        highlighted hl' = highlighted hl1 ++ l /\
        forall n, In n (_dirtyTextBlocks hl1) ->
                  (n < length (document hl1))%nat -> In n l) /\
  (initialRules hl ->
   forall fuel, (drainMeasure hl1 <= fuel)%nat ->
                exists hl', reHighlightDirtyBlocks globalMatch fuel hl1 = Ok hl') /\
  (noUnderlines hl ->
   exists hl' l,
     reHighlightDirtyBlocks globalMatch (length (_dirtyTextBlocks hl1)) hl1 =
       Ok hl' /\
     _dirtyTextBlocks hl' = [] /\
     highlighted hl' = highlighted hl1 ++ l /\
     (forall n, In n (_dirtyTextBlocks hl1) ->
                (n < length (document hl1))%nat -> In n l) /\
     (forall n, _dirtyTextBlocks hl = [] -> marks = [n; n; n] ->
                (n < length (document hl))%nat ->
                count_occ Nat.eq_dec l n = 1%nat)).
Proof.
  intros Hnd hl1.
  split; [now apply marks_NoDup|].
  split; [intros n; apply addDirtyBlock_idempotent|].
  split; [intros n Hn; apply marks_In; now left|].
  assert (Hd : document hl1 = document hl).
  { subst hl1. apply (fold_left_invariant (fun h => document h = document hl));
      [|reflexivity].
    intros h n Hh. now rewrite document_addDirtyBlock. }
  split; [|split].
  - intros fuel hl' E.
    destruct (reHighlightLoop_ended fuel hl1 hl' E) as (A & _ & _ & l & B & C).
    split; [exact A|]. now exists l.
  - intros Hrules fuel Hfuel.
    apply reHighlightLoop_total; [|now apply marks_NoDup|exact Hfuel].
    apply initialRules_listOnly. subst hl1.
    apply (fold_left_invariant initialRules); [|exact Hrules].
    intros h n Hh. unfold addDirtyBlock. now destruct (negb _).
  - intros Hno.
    assert (Hno1 : noUnderlines hl1).
    { apply (noUnderlines_texts hl); [now rewrite Hd|exact Hno]. }
    destruct (reHighlightLoop_plain (length (_dirtyTextBlocks hl1)) hl1 Hno1)
      as (hl' & E); [lia|].
    destruct (reHighlightLoop_ended _ hl1 hl' E) as (A & _ & _ & l & B & C).
    exists hl', l. split; [exact E|]. split; [exact A|].
    split; [exact B|]. split; [exact C|].
    intros n Hq Hm Hv.
    assert (Hone : hl1 = addDirtyBlock hl n).
    { subst hl1. rewrite Hm. simpl. now rewrite !addDirtyBlock_idempotent. }
    assert (Hq1 : _dirtyTextBlocks hl1 = [n]).
    { rewrite Hone, addDirtyBlock_queue, Hq. reflexivity. }
    destruct (reHighlightLoop_plain_single hl1 n Hno1 Hq1) as (h & l' & E' & B' & R);
      [now rewrite Hd|].
    rewrite Hq1 in E. cbn [length] in E.
    unfold reHighlightDirtyBlocks in E. rewrite E' in E. injection E as ->.
    rewrite B in B'. apply app_inv_head in B'. subst l'.
    now apply count_occ_run.
Qed.

(** A tick of the timer.  Whenever it ends, the queue is empty and the flag
    is down after it; the signal is emitted when the flag was up or a pending
    block was a block of the document; and a tick right after finds nothing
    to do and emits nothing.  With the rules of the constructor and a queue
    that holds no block twice, which is how [addDirtyBlock] keeps it, the tick
    does end, whatever the document and the states of its blocks are.  In a
    document without a line of [=] only or of [-] only it ends within one
    round of the drain for each pending block; and with nothing pending and
    the flag down a tick leaves the highlighter as it is. *)
Theorem timer_tick (hl : MarkdownHighlighter) :
  (forall fuel hl' emitted,
      timerTick globalMatch fuel hl = Ok (hl', emitted) ->
      _dirtyTextBlocks hl' = [] /\
      _highlightingFinished hl' = false /\
      emitted = _highlightingFinished hl || pendingValid hl /\
      forall fuel', timerTick globalMatch fuel' hl' = Ok (hl', false)) /\
  (initialRules hl -> List.NoDup (_dirtyTextBlocks hl) ->
   forall fuel, (drainMeasure hl <= fuel)%nat ->
   exists hl',
     timerTick globalMatch fuel hl =
       Ok (hl', _highlightingFinished hl || pendingValid hl)) /\
  (noUnderlines hl ->
   exists hl',
     timerTick globalMatch (length (_dirtyTextBlocks hl)) hl =
       Ok (hl', _highlightingFinished hl || pendingValid hl)) /\
  (_dirtyTextBlocks hl = [] -> _highlightingFinished hl = false ->
   forall fuel, timerTick globalMatch fuel hl = Ok (hl, false)).
Proof.
  assert (Hidle : forall h,
             _dirtyTextBlocks h = [] -> _highlightingFinished h = false ->
             forall fuel, timerTick globalMatch fuel h = Ok (h, false)).
  { intros h Hq Hf fuel. unfold timerTick, reHighlightDirtyBlocks.
    destruct fuel; cbn [reHighlightLoop]; rewrite Hq; cbn [bindO];
      now rewrite Hf. }
  assert (Hend : forall fuel h,
             reHighlightLoop globalMatch fuel hl = Ok h ->
             exists hl',
               timerTick globalMatch fuel hl =
                 Ok (hl', _highlightingFinished hl || pendingValid hl) /\
               _dirtyTextBlocks hl' = [] /\ _highlightingFinished hl' = false).
  { intros fuel h E.
    destruct (reHighlightLoop_ended fuel hl h E) as (A & _ & B & _).
    unfold timerTick, reHighlightDirtyBlocks. rewrite E. cbn [bindO].
    rewrite B. destruct (_highlightingFinished hl || pendingValid hl).
    - eexists. split; [reflexivity|]. split; [exact A|reflexivity].
    - exists h. split; [reflexivity|]. split; [exact A|exact B]. }
  split; [|split; [|split; [|apply Hidle]]].
  - intros fuel hl' emitted E.
    destruct (reHighlightLoop globalMatch fuel hl) as [h| |] eqn:El;
      try (unfold timerTick, reHighlightDirtyBlocks in E; rewrite El in E;
           discriminate).
    destruct (Hend fuel h El) as (h' & E' & A & B).
    rewrite E' in E. injection E as <- <-.
    split; [exact A|]. split; [exact B|]. split; [reflexivity|].
    now apply Hidle.
  - intros Hrules Hnd fuel Hfuel.
    destruct (reHighlightLoop_total globalMatch fuel hl
                (initialRules_listOnly hl Hrules) Hnd Hfuel) as (h & E).
    destruct (Hend _ h E) as (h' & E' & _). now exists h'.
  - intros Hno.
    destruct (reHighlightLoop_plain (length (_dirtyTextBlocks hl)) hl Hno)
      as (h & E); [lia|].
    destruct (Hend _ h E) as (h' & E' & _). now exists h'.
Qed.

End Cascade.

(** [dirty_queue_drain] for the second line of ["# T"; "text"; "more"],
    marked three times: the drain ends after one round and has highlighted
    the line once; and for the second line of ["==="; "==="], marked three
    times: the drain ends with the queue empty. *)
Lemma dirty_queue_drain_witness :
  (let hl1 := fold_left addDirtyBlock [1; 1; 1]%nat threeLines in
   List.NoDup (_dirtyTextBlocks hl1) /\
   exists hl' l,
     reHighlightDirtyBlocks Matcher.globalMatch (length (_dirtyTextBlocks hl1)) hl1 =
       Ok hl' /\
     _dirtyTextBlocks hl' = [] /\
     highlighted hl' = highlighted hl1 ++ l /\
     count_occ Nat.eq_dec l 1%nat = 1%nat) /\
  exists hl',
    reHighlightDirtyBlocks Matcher.globalMatch (drainMeasure freshUnderlinesMarked)
                           freshUnderlinesMarked = Ok hl' /\
    _dirtyTextBlocks hl' = [].
Proof.
  split.
  - intros hl1.
    destruct (dirty_queue_drain Matcher.globalMatch threeLines [1; 1; 1]%nat)
      as (A & _ & _ & _ & _ & T); [constructor|].
    destruct T as (hl' & l & E & Q & L & _ & C); [repeat constructor|].
    split; [exact A|]. exists hl', l.
    split; [exact E|]. split; [exact Q|]. split; [exact L|].
    apply (C 1%nat); [reflexivity|reflexivity|simpl; lia].
  - destruct (dirty_queue_drain Matcher.globalMatch
                (newHighlighter false 12 monospace10 [qs "==="; qs "==="])
                [1; 1; 1]%nat)
      as (_ & _ & _ & P & T & _); [constructor|].
    destruct (T (ex_intro _ false (conj eq_refl eq_refl))
                (drainMeasure freshUnderlinesMarked) (le_n _)) as (hl' & E).
    exists hl'. split; [exact E|]. exact (proj1 (P _ _ E)).
Defined.

(** [timer_tick] on ["# T"; "text"; "==="] with its first line pending: the
    tick ends and emits the signal; Qt has gone on from the first line to the
    underline, which made the second line pending, and the drain has
    highlighted that line again. *)
Lemma timer_tick_witness :
  (exists hl',
      timerTick Matcher.globalMatch (drainMeasure headlineTextUnderline)
                headlineTextUnderline = Ok (hl', true) /\
      _dirtyTextBlocks hl' = [] /\
      _highlightingFinished hl' = false) /\
  match timerTick Matcher.globalMatch (drainMeasure headlineTextUnderline)
                  headlineTextUnderline with
  | Ok (hl', _) => highlighted hl' = [0; 1; 2; 1]%nat
  | _ => False
  end.
Proof.
  split; [|vm_compute; reflexivity].
  destruct (timer_tick Matcher.globalMatch headlineTextUnderline)
    as (P & T & _).
  assert (R : initialRules headlineTextUnderline)
    by (exists false; split; reflexivity).
  assert (N : List.NoDup (_dirtyTextBlocks headlineTextUnderline))
    by (repeat constructor; intros []).
  destruct (T R N (drainMeasure headlineTextUnderline) (le_n _)) as (hl' & E).
  change (_highlightingFinished headlineTextUnderline ||
          pendingValid headlineTextUnderline) with true in E.
  exists hl'. split; [exact E|].
  destruct (P _ _ _ E) as (A & B & _). now split.
Defined.

(** C8 as stated fails in two ways.  When a block and the underline after it
    are both pending, a pending block is highlighted twice: after the first
    highlighting of ["Title"; "==="] the queue holds block 0; with block 1
    marked too, the drain highlights block 0, then block 1, which marks
    block 0 again, and then block 0 a second time.  And a block that was
    marked three times, with nothing else pending, is highlighted twice in
    the fresh document ["==="; "==="]: block 1 marks block 0, the state of
    block 0 changes when it is highlighted, and Qt goes on with block 1. *)
Lemma drain_twice_counterexample :
  _dirtyTextBlocks (addDirtyBlock titleUnderlined 1) = [0; 1]%nat /\
  highlighted (addDirtyBlock titleUnderlined 1) = [0; 1]%nat /\
  match reHighlightDirtyBlocks Matcher.globalMatch 3
          (addDirtyBlock titleUnderlined 1) with
  | Ok hl' =>
      highlighted hl' = [0; 1]%nat ++ [0; 1; 0]%nat /\
      count_occ Nat.eq_dec [0; 1; 0]%nat 0%nat = 2%nat
  | _ => False
  end /\
  _dirtyTextBlocks freshUnderlinesMarked = [1%nat] /\
  highlighted freshUnderlinesMarked = [] /\
  match reHighlightDirtyBlocks Matcher.globalMatch 2 freshUnderlinesMarked with
  | Ok hl' =>
      highlighted hl' = [1; 0; 1]%nat /\
      count_occ Nat.eq_dec [1; 0; 1]%nat 1%nat = 2%nat
  | _ => False
  end.
Proof. vm_compute. repeat split. Qed.

(** ** A block's own state, rules in headlines, the format table *)

Section OwnState.

Variable globalMatch : QRegularExpression -> QString -> list QRegularExpressionMatch.

(** The classification of a block of the document does not depend on the
    state the block had before, nor on what the call before left as the
    current block and as the painted spans: all three are reset first. *)
Theorem classification_forgets_own_state
        (hl : MarkdownHighlighter) (n : nat) (s : Z) (cur : nat) (spans : list Span) :
  (n < length (document hl))%nat ->
  rehighlightBlock globalMatch
    (setUserState
       (mkHL (_highlightingRulesPre hl) (_highlightingRulesAfter hl) (_formats hl)
             (_dirtyTextBlocks hl) (_highlightingFinished hl) (document hl)
             cur spans (highlighted hl))
       (Some n) s) n =
  rehighlightBlock globalMatch hl n.
Proof.
  intros Hn.
  destruct (lookup_lt_is_Some_2 (document hl) n Hn) as [b Hb].
  assert (Hs : setUserState
                 (mkHL (_highlightingRulesPre hl) (_highlightingRulesAfter hl)
                       (_formats hl) (_dirtyTextBlocks hl)
                       (_highlightingFinished hl) (document hl)
                       cur spans (highlighted hl)) (Some n) s =
               mkHL (_highlightingRulesPre hl) (_highlightingRulesAfter hl)
                    (_formats hl) (_dirtyTextBlocks hl)
                    (_highlightingFinished hl)
                    (<[n := mkBlock (text b) s]> (document hl))
                    cur spans (highlighted hl)).
  { unfold setUserState, blockAt. cbn [document]. now rewrite Hb. }
  rewrite Hs. unfold rehighlightBlock, blockAt. cbn [document].
  rewrite list_lookup_insert_eq by exact Hn. rewrite Hb.
  cbn [text _highlightingRulesPre _highlightingRulesAfter _formats
       _dirtyTextBlocks _highlightingFinished highlighted].
  match goal with
  | |- highlightBlock _ ?a _ = highlightBlock _ ?b _ =>
      set (h0' := a); set (h0 := b)
  end.
  assert (E : setCurrentBlockState h0' NoState = setCurrentBlockState h0 NoState).
  { unfold setCurrentBlockState, setUserState, blockAt, h0', h0.
    cbn [document currentBlock withDocument].
    rewrite list_lookup_insert_eq by exact Hn. rewrite Hb.
    cbn [text]. unfold withDocument.
    cbn [_highlightingRulesPre _highlightingRulesAfter _formats
         _dirtyTextBlocks _highlightingFinished highlighted currentBlock
         formatChanges].
    now rewrite list_insert_insert_eq. }
  unfold highlightBlock. cbv zeta. rewrite E. reflexivity.
Qed.

End OwnState.

(** [classification_forgets_own_state] on a line that was a headline. *)
Lemma classification_forgets_own_state_witness :
  let hl := onBlock [mkBlock (qs "text") NoState] 0 in
  rehighlightBlock Matcher.globalMatch
    (setUserState
       (mkHL (_highlightingRulesPre hl) (_highlightingRulesAfter hl) (_formats hl)
             (_dirtyTextBlocks hl) (_highlightingFinished hl) (document hl)
             5 [mkSpan 0 4 (_formats hl H1)] (highlighted hl))
       (Some 0%nat) H1) 0 =
  rehighlightBlock Matcher.globalMatch hl 0.
Proof.
  apply (classification_forgets_own_state Matcher.globalMatch
           (onBlock [mkBlock (qs "text") NoState] 0) 0 H1 5).
  simpl. lia.
Defined.

Lemma isHeadingState_format hl :
  isHeadingState (currentBlockState hl) = true ->
  (if currentBlockState hl =? H1 then _formats hl H1
   else if currentBlockState hl =? H2 then _formats hl H2
   else if currentBlockState hl =? H3 then _formats hl H3
   else if currentBlockState hl =? H4 then _formats hl H4
   else if currentBlockState hl =? H5 then _formats hl H5
   else _formats hl H6) = _formats hl (currentBlockState hl).
Proof.
  unfold isHeadingState. intros H.
  repeat match goal with
         | |- context [?a =? ?b] =>
             destruct (Z.eqb_spec a b) as [->|]; [reflexivity|]
         end.
  cbn [orb] in H. apply Z.eqb_eq in H. now rewrite H.
Qed.

(** Inside a headline, a match of a rule whose format is not the one of
    inline code paints no masked syntax; it paints at most one span, over the
    captured group, in the point size of the headline, and nothing at all
    when the format of the rule is not the italic, the bold or the link
    format.  The state of the line stays as it is. *)
Theorem rule_in_headline (r : HighlightingRule) (hl : MarkdownHighlighter)
        (m : QRegularExpressionMatch) :
  isHeadingState (currentBlockState hl) = true ->
  format_eqb (_formats hl (state r)) (_formats hl InlineCodeBlock) = false ->
  let hl' := highlightMatch r hl m in
  currentBlockState hl' = currentBlockState hl /\
  exists l, formatChanges hl' = formatChanges hl ++ l /\
            (length l <= 1)%nat /\
            Forall (headingStyled hl r m) l /\
            (format_eqb (_formats hl (state r)) (_formats hl Italic) = false ->
             format_eqb (_formats hl (state r)) (_formats hl Bold) = false ->
             format_eqb (_formats hl (state r)) (_formats hl Link) = false ->
             l = []).
Proof.
  intros Hh Hf hl'. subst hl'. split; [apply current_highlightMatch|].
  unfold highlightMatch. cbv zeta. rewrite Hh, Hf. cbn [negb andb].
  assert (E : (if 0 <? capturingGroup r then hl else hl) = hl)
    by (now destruct (0 <? capturingGroup r)).
  rewrite E. unfold setHeadingStyles. cbv zeta.
  rewrite (isHeadingState_format hl Hh).
  destruct (format_eqb (_formats hl (state r)) (_formats hl Italic)).
  { eexists. split; [reflexivity|]. split; [simpl; lia|]. split.
    - constructor; [|constructor]. repeat split.
    - discriminate. }
  destruct (format_eqb (_formats hl (state r)) (_formats hl Bold)).
  { eexists. split; [reflexivity|]. split; [simpl; lia|]. split.
    - constructor; [|constructor]. repeat split.
    - discriminate. }
  destruct (format_eqb (_formats hl (state r)) (_formats hl Link)).
  - destruct (capturingGroup r =? 1).
    + eexists. split; [reflexivity|]. split; [simpl; lia|]. split.
      * constructor; [|constructor]. repeat split.
      * discriminate.
    + exists []. rewrite app_nil_r. split; [reflexivity|].
      split; [simpl; lia|]. split; [constructor|discriminate].
  - exists []. rewrite app_nil_r. split; [reflexivity|].
    split; [simpl; lia|]. split; [constructor|reflexivity].
Qed.

(** [rule_in_headline] for the rule of [**bold**] in ["# **a**"]. *)
Lemma rule_in_headline_witness :
  let hl := onBlock [mkBlock (qs "# **a**") H1] 0 in
  let m := mkMatch (2, 7) [(1%nat, (4, 5))] in
  let hl' := highlightMatch strongRule hl m in
  currentBlockState hl' = currentBlockState hl /\
  exists l, formatChanges hl' = formatChanges hl ++ l /\
            (length l <= 1)%nat /\
            Forall (headingStyled hl strongRule m) l /\
            (format_eqb (_formats hl (state strongRule)) (_formats hl Italic) = false ->
             format_eqb (_formats hl (state strongRule)) (_formats hl Bold) = false ->
             format_eqb (_formats hl (state strongRule)) (_formats hl Link) = false ->
             l = []).
Proof.
  apply (rule_in_headline strongRule
           (onBlock [mkBlock (qs "# **a**") H1] 0)
           (mkMatch (2, 7) [(1%nat, (4, 5))])).
  - reflexivity.
  - reflexivity.
Defined.

(** *** Sizes as doubles *)

Lemma roundHalfEven_near (a b : Z) :
  0 < b -> - b <= 2 * (roundHalfEven a b * b - a) <= b.
Proof.
  intros Hb. unfold roundHalfEven.
  pose proof (Z.div_mod a b) as Hdm.
  pose proof (Z.mod_pos_bound a b Hb) as Hr.
  assert (E : a = b * (a / b) + a mod b) by (apply Hdm; lia).
  set (q := a / b) in *. set (r := a mod b) in *.
  destruct (Z.ltb_spec (2 * r) b); [nia|].
  destruct (Z.ltb_spec b (2 * r)); [nia|].
  destruct (Z.even q); nia.
Qed.

Lemma pow2_split (x y : Z) : 0 <= x -> 0 <= y -> 2 ^ (x + y) = 2 ^ x * 2 ^ y.
Proof. intros. now apply Z.pow_add_r. Qed.

(** The fraction that [exponentOf] settles on has its numerator at least
    [2 ^ 52] times its denominator. *)
Lemma exponentOf_range (n d : Z) :
  0 < n -> 0 < d ->
  let e := exponentOf n d in
  0 < fst (scaleBy n d e) /\ 0 < snd (scaleBy n d e) /\
  2 ^ 52 * snd (scaleBy n d e) <= fst (scaleBy n d e).
Proof.
  intros Hn Hd e. subst e. unfold exponentOf.
  destruct (Z.log2_spec n Hn) as [Hn1 Hn2].
  destruct (Z.log2_spec d Hd) as [Hd1 Hd2].
  pose proof (Z.log2_nonneg n) as Ha. pose proof (Z.log2_nonneg d) as Hb.
  set (la := Z.log2 n) in *. set (lb := Z.log2 d) in *.
  set (e0 := la - lb - 53).
  assert (H0 : 2 ^ 52 * snd (scaleBy n d e0) < fst (scaleBy n d e0)).
  { unfold scaleBy. destruct (Z.leb_spec 0 e0) as [He|He]; cbn [fst snd].
    - assert (E : 2 ^ la = 2 ^ 52 * (2 ^ Z.succ lb * 2 ^ e0)).
      { rewrite <- !pow2_split by lia. f_equal. unfold e0. lia. }
      assert (0 < 2 ^ e0) by (apply Z.pow_pos_nonneg; lia).
      nia.
    - assert (E : 2 ^ la * 2 ^ (- e0) = 2 ^ 52 * 2 ^ Z.succ lb).
      { rewrite <- !pow2_split by lia. f_equal. unfold e0. lia. }
      assert (0 < 2 ^ (- e0)) by (apply Z.pow_pos_nonneg; lia).
      nia. }
  assert (P0 : 0 < fst (scaleBy n d e0) /\ 0 < snd (scaleBy n d e0)).
  { unfold scaleBy. destruct (Z.leb_spec 0 e0) as [He|He]; cbn [fst snd].
    - assert (0 < 2 ^ e0) by (apply Z.pow_pos_nonneg; lia). nia.
    - assert (0 < 2 ^ (- e0)) by (apply Z.pow_pos_nonneg; lia). nia. }
  destruct (scaleBy n d e0) as [a0 b0] eqn:E0. cbn [fst snd] in H0, P0.
  destruct (Z.ltb_spec a0 (2 ^ 53 * b0)) as [Hlt|Hge].
  - rewrite E0. cbn [fst snd]. lia.
  - unfold scaleBy in E0 |- *.
    destruct (Z.leb_spec 0 e0) as [He|He].
    + injection E0 as <- <-.
      destruct (Z.leb_spec 0 (e0 + 1)); [|lia]. cbn [fst snd].
      rewrite pow2_split by lia. change (2 ^ 1) with 2.
      assert (0 < 2 ^ e0) by (apply Z.pow_pos_nonneg; lia).
      change (2 ^ 53) with (2 * 2 ^ 52) in Hge. nia.
    + injection E0 as <- <-.
      assert (E : 2 ^ (- e0) = 2 * 2 ^ (- (e0 + 1))).
      { replace (- e0) with (1 + - (e0 + 1)) by lia.
        rewrite pow2_split by lia. reflexivity. }
      rewrite E in Hge, P0.
      change (2 ^ 53) with (2 * 2 ^ 52) in Hge.
      destruct (Z.leb_spec 0 (e0 + 1)) as [He1|He1]; cbn [fst snd].
      * assert (e0 = -1) by lia. subst e0.
        replace (la - lb - 53 + 1) with 0 in * by lia.
        change (2 ^ (- 0)) with 1 in *. change (2 ^ 0) with 1. lia.
      * assert (0 < 2 ^ (- (e0 + 1))) by (apply Z.pow_pos_nonneg; lia). nia.
Qed.

Lemma toDouble_error (x : Q) :
  (0 < Qnum x) ->
  (x * roundLow <= toDouble x /\ toDouble x <= x * roundHigh)%Q.
Proof.
  destruct x as [n d]. cbn [Qnum]. intros Hn.
  unfold toDouble. cbn [Qnum Qden].
  rewrite (Z.abs_eq n) by lia. rewrite (Z.sgn_pos n) by lia.
  destruct (Z.eqb_spec n 0) as [|_]; [lia|].
  destruct (exponentOf_range n (Zpos d) Hn (Pos2Z.is_pos d)) as (Ha & Hb & Hr).
  set (e := exponentOf n (Zpos d)) in *.
  destruct (scaleBy n (Zpos d) e) as [a b] eqn:Es. cbn [fst snd] in Ha, Hb, Hr.
  pose proof (roundHalfEven_near a b Hb) as Hm.
  set (m := roundHalfEven a b) in *.
  change (2 ^ 52) with 4503599627370496 in Hr.
  unfold scaleBy, pow2 in *.
  destruct (Z.leb_spec 0 e) as [He|He]; injection Es as <- <-.
  - assert (HE : 0 < 2 ^ e) by (apply Z.pow_pos_nonneg; lia).
    set (E := 2 ^ e) in *.
    unfold Qle, Qmult, inject_Z, roundLow, roundHigh. cbn [Qnum Qden].
    rewrite !Pos2Z.inj_mul.
    change (Z.pos (2 ^ 53)) with 9007199254740992.
    change (2 ^ 53 - 1) with 9007199254740991.
    change (2 ^ 53 + 1) with 9007199254740993.
    split; nia.
  - assert (HE : 0 < 2 ^ (- e)) by (apply Z.pow_pos_nonneg; lia).
    set (E := 2 ^ (- e)) in *.
    unfold Qle, Qmult, inject_Z, roundLow, roundHigh. cbn [Qnum Qden].
    rewrite !Pos2Z.inj_mul. rewrite (Z2Pos.id E) by lia.
    change (Z.pos (2 ^ 53)) with 9007199254740992.
    change (2 ^ 53 - 1) with 9007199254740991.
    change (2 ^ 53 + 1) with 9007199254740993.
    split; nia.
Qed.

Lemma Qnum_pos (q : Q) : (0 < q)%Q -> 0 < Qnum q.
Proof. destruct q as [n d]. unfold Qlt. simpl. lia. Qed.

Lemma toDouble_lt (x y : Q) :
  (0 < x)%Q -> (x * roundHigh < y * roundLow)%Q -> (toDouble x < toDouble y)%Q.
Proof.
  intros Hx Hxy.
  assert (Hy : (0 < y)%Q).
  { destruct (Qlt_le_dec 0 y) as [H|H]; [exact H|]. exfalso.
    assert (H1 : (y * roundLow <= 0)%Q).
    { apply Qle_trans with (0 * roundLow)%Q; [|discriminate].
      apply Qmult_le_compat_r; [exact H|discriminate]. }
    assert (H2 : (0 < x * roundHigh)%Q) by (apply Qmult_lt_0_compat; [exact Hx|reflexivity]).
    apply (Qlt_irrefl 0). eapply Qlt_le_trans; [exact H2|].
    eapply Qle_trans; [apply Qlt_le_weak; exact Hxy|exact H1]. }
  pose proof (Qnum_pos x Hx) as Nx. pose proof (Qnum_pos y Hy) as Ny.
  destruct (toDouble_error x Nx) as [_ Hhi].
  destruct (toDouble_error y Ny) as [Hlo _].
  eapply Qle_lt_trans; [exact Hhi|].
  eapply Qlt_le_trans; [exact Hxy|exact Hlo].
Qed.

(** The order of two sizes: the tenths are far enough apart for the two
    roundings. *)
Lemma scaled_lt (d t1 t2 : Z) :
  0 < d ->
  (0 < toDouble (t1 # 10))%Q ->
  (toDouble (t1 # 10) * roundHigh < toDouble (t2 # 10) * roundLow)%Q ->
  (scaled d t1 < scaled d t2)%Q.
Proof.
  intros Hd Hpos Hsep. unfold scaled.
  assert (HD : (0 < inject_Z d)%Q) by (unfold Qlt; simpl; lia).
  apply toDouble_lt.
  - now apply Qmult_lt_0_compat.
  - rewrite <- !Qmult_assoc. apply Qmult_lt_l; assumption.
Qed.

Lemma scaled_above (d t : Z) :
  0 < d ->
  (1 < toDouble (t # 10) * roundLow)%Q ->
  (inject_Z d < scaled d t)%Q.
Proof.
  intros Hd Hsep. unfold scaled.
  assert (HD : (0 < inject_Z d)%Q) by (unfold Qlt; simpl; lia).
  assert (Hc : (0 < toDouble (t # 10))%Q).
  { destruct (Qlt_le_dec 0 (toDouble (t # 10))) as [H|H]; [exact H|]. exfalso.
    apply (Qlt_irrefl 1). eapply Qlt_le_trans; [exact Hsep|].
    apply Qle_trans with (0 * roundLow)%Q; [|discriminate].
    apply Qmult_le_compat_r; [exact H|discriminate]. }
  assert (Nx : 0 < Qnum (inject_Z d * toDouble (t # 10)))
    by (apply Qnum_pos; now apply Qmult_lt_0_compat).
  destruct (toDouble_error _ Nx) as [Hlo _].
  eapply Qlt_le_trans; [|exact Hlo].
  rewrite <- Qmult_assoc.
  apply Qle_lt_trans with (inject_Z d * 1)%Q;
    [rewrite Qmult_1_r; apply Qle_refl|].
  apply Qmult_lt_l; assumption.
Qed.

(** The format table of the constructor, for a default font size that is an
    [int] above zero and whatever the table held before.  The sizes are the
    doubles the code stores, each the rounded product of the size and the
    double of the literal: they go down from H1 to H6 and stay above the
    default size.  The code block and the inline code have one and the same
    format, and the masked format has no point size of its own. *)
Theorem heading_sizes_decrease (fs : Formats) (defaultFontSize : Z) (fixedFont : QFont) :
  0 < defaultFontSize <= INT_MAX ->
  let fs' := initTextFormats fs defaultFontSize fixedFont in
  decreasing (headingSizes fs' ++ [inject_Z defaultFontSize]) /\
  fs' InlineCodeBlock = fs' CodeBlock /\
  fontPointSizeP (fs' MaskedSyntax) = None.
Proof.
  intros [Hd _] fs'. subst fs'. split; [|split; reflexivity].
  unfold headingSizes, initTextFormats, setTextFormat.
  cbn -[scaled inject_Z Qlt].
  repeat split;
    first [ apply scaled_lt; [exact Hd|vm_compute; reflexivity|vm_compute; reflexivity]
          | apply scaled_above; [exact Hd|vm_compute; reflexivity] ].
Qed.

(** [heading_sizes_decrease] at the default size 12, where H1 is the double
    19.200000000000003 and not 96/5. *)
Lemma heading_sizes_decrease_witness :
  let fs' := initTextFormats (fun _ => emptyFormat) 12 monospace10 in
  (decreasing (headingSizes fs' ++ [inject_Z 12]) /\
   fs' InlineCodeBlock = fs' CodeBlock /\
   fontPointSizeP (fs' MaskedSyntax) = None) /\
  Qred (fontPointSize (fs' H1)) = 1351079888211149 # 70368744177664 /\
  Qeq_bool (fontPointSize (fs' H1)) (96 # 5) = false.
Proof.
  split.
  - apply (heading_sizes_decrease (fun _ => emptyFormat) 12 monospace10).
    unfold INT_MAX. lia.
  - vm_compute. split; reflexivity.
Defined.

(** ** The scanner: comments and closed strings *)

Lemma slash_not_letter :
  isLetter "/"%char = false /\ qchar_eqb "/"%char "/"%char = true.
Proof. split; reflexivity. Qed.

(** The scan of a line ends at the first slash the loop comes to, whatever
    the slash is: after [//] the rest of the line is painted as a comment;
    after [/*] a comment is painted that ends two characters after the first
    [*/] of the whole line, or runs to the end of the line when there is
    none; a slash of any other kind paints nothing.  In every case nothing
    that follows on the line is looked at. *)
Theorem scan_stops_at_slash (fuel : nat) (types keywords preproc : list QString)
        (t : QString) (i : Z) (f : QTextCharFormat) (out : list Span) :
  at_ t i = Some "/"%char ->
  forLoop (S fuel) types keywords preproc t i f out = Ok (slashSpans t i f out).
Proof.
  intros Hs. pose proof (at_Some_range _ _ _ Hs) as Hi.
  destruct slash_not_letter as (L & S).
  cbn [forLoop]. destruct (Z.ltb_spec i (qlength t)); [|lia].
  destruct t as [|c t']; [unfold qlength in Hi; simpl in Hi; lia|].
  set (t := c :: t') in *.
  change (length t) with (Datatypes.S (length t')).
  cbn [whileNotLetter]. cbv zeta. rewrite Hs, L, S. unfold slashSpans.
  destruct (Z.ltb_spec (i + 1) (qlength t)) as [Hn|Hn].
  - destruct (at_in_range t (i + 1)) as [d Ed]; [lia|]. rewrite Ed.
    cbv zeta.
    destruct (qchar_eqb d "/"%char); [reflexivity|].
    destruct (qchar_eqb d "*"%char); [|reflexivity].
    destruct (indexOf t (qs "*/") =? -1); reflexivity.
  - unfold at_. destruct (Z.ltb_spec (i + 1) (qlength t)); [lia|].
    now rewrite andb_false_r.
Qed.

(** [scan_stops_at_slash] at the division of ["a / b"]. *)
Lemma scan_stops_at_slash_witness :
  forLoop 1 cppTypes cppKeywords cppPreproc (qs "a / b") 2 emptyFormat [] =
  Ok (slashSpans (qs "a / b") 2 emptyFormat []).
Proof.
  apply (scan_stops_at_slash 0 cppTypes cppKeywords cppPreproc (qs "a / b") 2
                             emptyFormat []).
  reflexivity.
Defined.

Lemma dquoteLoop_terminated (fuel : nat) (t : QString) (q : Z) :
  forall i cnt,
    0 <= i <= q -> i + 1 < qlength t -> q - i < Z.of_nat fuel ->
    at_ t q = Some dquote ->
    (forall j, i <= j < q -> at_ t j <> Some dquote) ->
    dquoteLoop fuel t i cnt =
    Ok ((if q + 1 <? qlength t then q + 1 else q), cnt + (q - i) + 1).
Proof.
  induction fuel as [|n IH]; intros i cnt Hi Hlt Hf Hq Hno; [lia|].
  pose proof (at_Some_range _ _ _ Hq) as Hqr.
  cbn [dquoteLoop].
  destruct (Z.ltb_spec i (qlength t)); [|lia].
  destruct (at_in_range t i) as [c Ec]; [lia|]. rewrite Ec.
  destruct (qchar_eqb c dquote) eqn:Eq.
  - apply qchar_eqb_eq in Eq. subst c.
    assert (i = q).
    { destruct (Z.eq_dec i q) as [E|E]; [exact E|].
      exfalso. apply (Hno i); [lia|exact Ec]. }
    subst i. destruct (Z.ltb_spec (q + 1) (qlength t)); [|lia].
    do 2 f_equal. lia.
  - assert (i < q).
    { destruct (Z.eq_dec i q) as [E|E]; [|lia].
      subst i. rewrite Hq in Ec. injection Ec as <-.
      unfold qchar_eqb in Eq. now rewrite Ascii.eqb_refl in Eq. }
    destruct (Z.leb_spec (qlength t) (i + 1 + 1)).
    + destruct (Z.ltb_spec (q + 1) (qlength t)); [lia|].
      do 2 f_equal; lia.
    + rewrite (IH (i + 1) (cnt + 1)); [do 2 f_equal; lia|lia|lia|lia|exact Hq|].
      intros j Hj. apply Hno. lia.
Qed.

(** A string in double quotes that is closed on the line, with at least two
    characters after its opening quote: one span from the opening quote to
    the closing quote, both included; then the scan ends when at most one
    character follows the closing quote, and goes on at the second character
    after it in any other case: the character right after a string is never
    looked at. *)
Theorem scanner_closed_string (fuel : nat) (t : QString) (p q : Z)
        (f : QTextCharFormat) (out : list Span) :
  at_ t p = Some dquote ->
  at_ t q = Some dquote ->
  p < q ->
  p + 2 < qlength t ->
  (forall j, p < j < q -> at_ t j <> Some dquote) ->
  let f' := setForeground f darkGreen in
  let out' := emit out p (q - p + 1) f' in
  whileNotLetter (S fuel) t p f out =
  if qlength t <=? q + 2 then Ok (Returned out')
  else whileNotLetter fuel t (q + 2) f' out'.
Proof.
  intros Hp Hq Hpq Hlen Hno f' out'. subst f' out'.
  pose proof (at_Some_range _ _ _ Hp) as Hpr.
  pose proof (at_Some_range _ _ _ Hq) as Hqr.
  destruct dquote_not_special as (L & S & N & Q).
  cbn [whileNotLetter]. cbv zeta. rewrite Hp, L, S, N, Q.
  destruct (Z.leb_spec (qlength t) (p + 1 + 1)); [lia|].
  rewrite (dquoteLoop_terminated (length t) t q (p + 1) 1);
    [|lia|lia|unfold qlength in *; lia|exact Hq|intros j Hj; apply Hno; lia].
  replace (1 + (q - (p + 1)) + 1) with (q - p + 1) by lia.
  destruct (Z.ltb_spec (q + 1) (qlength t)).
  - replace (q + 1 + 1) with (q + 2) by lia. reflexivity.
  - destruct (Z.leb_spec (qlength t) (q + 1)); [|lia].
    destruct (Z.leb_spec (qlength t) (q + 2)); [reflexivity|lia].
Qed.

(** [scanner_closed_string] on a string of one character followed by a
    number: the span covers the three characters of the string, and the scan
    goes on after the number. *)
Lemma scanner_closed_string_witness :
  let f' := setForeground emptyFormat darkGreen in
  let out' := emit [] 0 (2 - 0 + 1) f' in
  whileNotLetter 2 quotedThenNumber 0 emptyFormat [] =
  if qlength quotedThenNumber <=? 2 + 2 then Ok (Returned out')
  else whileNotLetter 1 quotedThenNumber (2 + 2) f' out'.
Proof.
  apply (scanner_closed_string 1 quotedThenNumber 0 2 emptyFormat []).
  - reflexivity.
  - reflexivity.
  - lia.
  - vm_compute. reflexivity.
  - intros j Hj. assert (E : j = 1) by lia. subst j. discriminate.
Defined.

(** ** The scanner: a type at the start of the line *)

Lemma tokenLoop_first_hit (color : QColor) (t : QString) :
  forall toks k tk f out,
    nth_error toks k = Some tk ->
    noneAtStart (firstn k toks) t = true ->
    qstring_eqb tk (midRef t 0 (qlength tk)) = true ->
    exists i' f' out',
      tokenLoop toks color t 0 f out = Ok (i', f', out') /\ 0 <= i' /\
      In (mkSpan 0 (qlength tk) (setForeground f color)) out'.
Proof.
  induction toks as [|tk' toks IH]; intros k tk f out Hk Hnone Hhit.
  - destruct k; discriminate.
  - destruct k as [|k]; simpl in Hk.
    + injection Hk as ->. cbn [tokenLoop]. cbv zeta. rewrite Hhit.
      replace (0 <? 0) with false by reflexivity. rewrite andb_false_r.
      destruct (tokenLoop_ok toks color t (0 + qlength tk)
                  (setForeground f color)
                  (emit out 0 (qlength tk) (setForeground f color)))
        as (i' & f' & out' & E & Hi & Hx);
        [pose proof (qlength_nonneg tk); lia|].
      exists i', f', out'. split; [exact E|].
      split; [pose proof (qlength_nonneg tk); lia|].
      eapply in_extends; [exact Hx|]. unfold emit.
      apply in_or_app. right. now left.
    + cbn [firstn] in Hnone. unfold noneAtStart in Hnone. cbn [forallb] in Hnone.
      apply andb_true_iff in Hnone as [Hn Hnone].
      apply negb_true_iff in Hn.
      cbn [tokenLoop]. cbv zeta. rewrite Hn.
      now apply (IH k).
Qed.

Lemma forLoop_first_type (types keywords preproc : list QString) (t : QString)
      (c : QChar) (k : nat) (tk : QString) (f : QTextCharFormat) (out : list Span) :
  at_ t 0 = Some c ->
  isLetter c = true ->
  nth_error types k = Some tk ->
  noneAtStart (firstn k types) t = true ->
  qstring_eqb tk (midRef t 0 (qlength tk)) = true ->
  exists out',
    forLoop (S (length t)) types keywords preproc t 0 f out = Ok out' /\
    In (mkSpan 0 (qlength tk) (setForeground f darkBlue)) out'.
Proof.
  intros Hc Hl Hk Hnone Hhit.
  pose proof (at_Some_range _ _ _ Hc) as Hr.
  cbn [forLoop]. destruct (Z.ltb_spec 0 (qlength t)); [|lia].
  destruct t as [|c0 t']; [unfold qlength in Hr; simpl in Hr; lia|].
  set (t := c0 :: t') in *.
  change (length t) with (Datatypes.S (length t')) at 1.
  cbn [whileNotLetter]. cbv zeta. rewrite Hc, Hl. cbn [bindO].
  destruct (tokenLoop_first_hit darkBlue t types k tk f out Hk Hnone Hhit)
    as (i1 & f1 & o1 & E1 & Hi1 & Hin).
  rewrite E1. cbn [bindO].
  destruct (tokenLoop_ok keywords cyan t i1 f1 o1 Hi1)
    as (i2 & f2 & o2 & E2 & Hi2 & Hx2).
  rewrite E2. cbn [bindO].
  destruct (tokenLoop_ok preproc magenta t i2 f2 o2)
    as (i3 & f3 & o3 & E3 & Hi3 & Hx3); [lia|].
  rewrite E3. cbn [bindO].
  destruct (forLoop_ok types keywords preproc t (length t) (i3 + 1) f3 o3)
    as (o4 & E4 & Hx4); [lia|unfold qlength in *; lia|].
  exists o4. split; [exact E4|].
  eapply in_extends; [exact Hx4|].
  eapply in_extends; [exact Hx3|].
  eapply in_extends; [exact Hx2|exact Hin].
Qed.

Ltac first_type_at k :=
  first
    [ solve [ eapply (forLoop_first_type _ _ _ _ _ k);
              [reflexivity|reflexivity|reflexivity|reflexivity|reflexivity] ]
    | lazymatch k with
      | 20%nat => fail
      | _ => first_type_at (Datatypes.S k)
      end ].

(** In a cpp block, a line that starts with the name of a type gets that
    name painted as a type whatever follows it, even a letter: at the start
    of the line the scanner does not check for the end of the word, so the
    first three letters of a word such as [integer] are painted as the type
    [int]. *)
Theorem type_at_line_start (hl : MarkdownHighlighter) (tk rest : QString) :
  currentBlockState hl = CodeCpp ->
  In tk cppTypes ->
  In (mkSpan 0 (qlength tk) (setForeground (_formats hl CodeBlock) darkBlue))
     (formatChanges (highlightSyntax hl (tk ++ rest))).
Proof.
  intros Hs Hin.
  assert (H : exists out',
             forLoop (S (length (tk ++ rest))) cppTypes cppKeywords cppPreproc
                     (tk ++ rest) 0 (_formats hl CodeBlock)
                     (emit (formatChanges hl) 0 (qlength (tk ++ rest))
                           (_formats hl CodeBlock)) = Ok out' /\
             In (mkSpan 0 (qlength tk)
                        (setForeground (_formats hl CodeBlock) darkBlue)) out').
  { unfold cppTypes in Hin. cbn [map In] in Hin.
    repeat (destruct Hin as [<-|Hin]; [first_type_at 0%nat|]).
    contradiction. }
  destruct H as (out' & E & Hout).
  unfold highlightSyntax, highlightSyntaxChecked.
  assert (Hne : exists c t', tk ++ rest = c :: t').
  { unfold cppTypes in Hin. cbn [map In] in Hin.
    repeat (destruct Hin as [<-|Hin]; [eexists _, _; reflexivity|]).
    contradiction. }
  destruct Hne as (c & t' & Et). rewrite Et in *.
  rewrite Hs. replace ((CodeCpp : Z) =? CodeCpp) with true by reflexivity.
  cbv zeta. rewrite E. cbn [bindO]. exact Hout.
Qed.

(** [type_at_line_start] on the line ["integer x;"]. *)
Lemma type_at_line_start_witness :
  let hl := cppLine (qs "integer x;") in
  In (mkSpan 0 (qlength (qs "int")) (setForeground (_formats hl CodeBlock) darkBlue))
     (formatChanges (highlightSyntax hl (qs "int" ++ qs "eger x;"))).
Proof.
  apply (type_at_line_start (cppLine (qs "integer x;")) (qs "int") (qs "eger x;")).
  - vm_compute. reflexivity.
  - unfold cppTypes. simpl. tauto.
Defined.

(** ** Plain lines, strings in single quotes *)

Section PlainLines.

Variable globalMatch : QRegularExpression -> QString -> list QRegularExpressionMatch.

Lemma highlightRule_no_match t hl r :
  globalMatch (pattern r) t = [] -> highlightRule globalMatch t hl r = hl.
Proof.
  intros H. unfold highlightRule. rewrite H.
  now destruct (_ && _).
Qed.

Lemma highlightAdditionalRules_no_match hl rules t :
  Forall (fun r => globalMatch (pattern r) t = []) rules ->
  highlightAdditionalRules globalMatch hl rules t = hl.
Proof.
  unfold highlightAdditionalRules. revert hl.
  induction rules as [|r rules IH]; intros hl H; [reflexivity|].
  inversion H as [|? ? Hr Hrest]; subst. cbn [fold_left].
  rewrite (highlightRule_no_match t hl r Hr). now apply IH.
Qed.

Lemma highlightHeadline_idle hl t :
  headingFound t = false ->
  isUnderline t = false ->
  isUnderline (blockText hl (nextBlock hl)) = false ->
  highlightHeadline hl t = hl.
Proof.
  intros Hh Hu Hn.
  apply orb_false_iff in Hu as [He Hd]. apply orb_false_iff in Hn as [Hne Hnd].
  unfold highlightHeadline. now rewrite Hh, He, Hd, Hne, Hnd.
Qed.

Lemma highlightCommentBlock_idle hl t :
  startsWith (trimmed t) commentOpen = false ->
  endsWith (trimmed t) commentClose = false ->
  previousBlockState hl <> Comment ->
  highlightCommentBlock hl t = hl.
Proof.
  intros Ho Hc Hp. unfold highlightCommentBlock.
  fold commentOpen. fold commentClose. cbv zeta.
  apply Z.eqb_neq in Hp. now rewrite Ho, Hc, Hp.
Qed.

(** A plain line is left alone.  When no rule matches on a line that is no
    headline with hashes, no underline, no start or end of a comment and no
    fence, the line after is no underline, and the line before carries no
    comment, code block or front matter: the classification gives the line
    no state, paints nothing on it, and changes neither the format table nor
    the queue. *)
Theorem plain_line_untouched (hl : MarkdownHighlighter) (n : nat) (b : QTextBlock) :
  blockAt hl n = Some b ->
  noRuleMatches globalMatch hl (text b) ->
  plainText (text b) = true ->
  isUnderline (blockText hl (Some (S n))) = false ->
  carriesBlock (blockState hl (previousOf n)) = false ->
  let hl' := rehighlightBlock globalMatch hl n in
  blockState hl' (Some n) = NoState /\
  formatChanges hl' = [] /\
  _formats hl' = _formats hl /\
  _dirtyTextBlocks hl' = _dirtyTextBlocks hl.
Proof.
  intros Hb Hrules Hplain Hnext Hprev hl'. subst hl'.
  destruct (rehighlightBlock_steps globalMatch hl n b Hb) as (-> & -> & -> & _ & ->).
  set (t := text b) in *.
  unfold plainText in Hplain.
  repeat (apply andb_true_iff in Hplain as [Hplain ?]).
  repeat match goal with
         | H : negb _ = true |- _ => apply negb_true_iff in H
         end.
  unfold carriesBlock in Hprev.
  repeat (apply orb_false_iff in Hprev as [Hprev ?]).
  repeat match goal with
         | H : (_ =? _) = false |- _ => apply Z.eqb_neq in H
         end.
  apply Forall_app in Hrules as [Hpre Hafter].
  pose proof (resetBlock_frame hl n) as F0.
  destruct (resetBlock_spec hl n) as (Hc1 & Hs1 & Hf1 & Hq1 & Hl1 & Ht1 & Hp1 & Hst1).
  assert (Hv : (n < length (document hl))%nat)
    by (unfold blockAt in Hb; now apply lookup_lt_Some in Hb).
  set (h1 := resetBlock hl n) in *.
  assert (Hx : beforeComment globalMatch h1 t = h1).
  { unfold beforeComment. destruct t as [|c t']; [reflexivity|]. cbv zeta.
    rewrite (highlightAdditionalRules_no_match h1 (_highlightingRulesPre h1)).
    - rewrite highlightHeadline_idle; try assumption.
      + apply highlightAdditionalRules_no_match.
        rewrite (fr_after _ _ F0). exact Hafter.
      + unfold nextBlock. rewrite Hc1, Hl1.
        destruct (decide (S n < length (document hl))%nat) as [Hd|Hd].
        * now rewrite Ht1.
        * reflexivity.
    - rewrite (fr_pre _ _ F0). exact Hpre. }
  rewrite Hx. unfold blockSteps.
  rewrite highlightCommentBlock_idle by (rewrite ?Hp1; assumption).
  rewrite highlightCodeBlock_idle by (rewrite ?Hp1; assumption).
  rewrite highlightFrontmatterBlock_other.
  - repeat split; auto.
  - destruct (qstring_eqb t dashes) eqn:Ed; [|reflexivity].
    apply qstring_eqb_eq in Ed.
    match goal with
    | H : isUnderline t = false |- _ => rewrite Ed in H; discriminate H
    end.
  - now rewrite Hp1.
Qed.

End PlainLines.

(** [plain_line_untouched] on the second line of ["# a"; "hello"; "b"]. *)
Lemma plain_line_untouched_witness :
  let b := mkBlock (qs "hello") List in
  let hl := onBlock [mkBlock (qs "# a") H1; b; mkBlock (qs "b") NoState] 0 in
  let hl' := rehighlightBlock Matcher.globalMatch hl 1 in
  blockState hl' (Some 1%nat) = NoState /\
  formatChanges hl' = [] /\
  _formats hl' = _formats hl /\
  _dirtyTextBlocks hl' = _dirtyTextBlocks hl.
Proof.
  apply (plain_line_untouched Matcher.globalMatch
           (onBlock [mkBlock (qs "# a") H1; mkBlock (qs "hello") List;
                     mkBlock (qs "b") NoState] 0)
           1 (mkBlock (qs "hello") List)).
  - reflexivity.
  - unfold noRuleMatches. repeat constructor; vm_compute; reflexivity.
  - reflexivity.
  - reflexivity.
  - reflexivity.
Defined.

Lemma squote_not_special :
  isLetter squote = false /\ qchar_eqb squote "/"%char = false /\
  isNumber squote = false /\ qchar_eqb squote dquote = false /\
  qchar_eqb squote squote = true.
Proof. repeat split. Qed.

Lemma squoteLoop_closed (fuel : nat) (t : QString) (q : Z) :
  forall i cnt,
    0 <= i <= q -> q - i < Z.of_nat fuel ->
    at_ t q = Some squote ->
    (forall j, i <= j < q -> at_ t j <> Some squote) ->
    squoteLoop fuel t i cnt = Ok (q + 1, cnt + (q - i) + 1).
Proof.
  induction fuel as [|n IH]; intros i cnt Hi Hf Hq Hno; [lia|].
  pose proof (at_Some_range _ _ _ Hq) as Hqr.
  cbn [squoteLoop].
  destruct (Z.ltb_spec i (qlength t)); [|lia].
  destruct (at_in_range t i) as [c Ec]; [lia|]. rewrite Ec.
  destruct (qchar_eqb c squote) eqn:Eq.
  - apply qchar_eqb_eq in Eq. subst c.
    assert (i = q).
    { destruct (Z.eq_dec i q) as [E|E]; [exact E|].
      exfalso. apply (Hno i); [lia|exact Ec]. }
    subst i. do 2 f_equal; lia.
  - assert (i < q).
    { destruct (Z.eq_dec i q) as [E|E]; [|lia].
      subst i. rewrite Hq in Ec. injection Ec as <-.
      unfold qchar_eqb in Eq. now rewrite Ascii.eqb_refl in Eq. }
    destruct (Z.leb_spec (qlength t) (i + 1)); [lia|].
    rewrite (IH (i + 1) (cnt + 1)); [do 2 f_equal; lia|lia|lia|exact Hq|].
    intros j Hj. apply Hno. lia.
Qed.

Lemma squoteLoop_open (fuel : nat) (t : QString) :
  forall i cnt,
    0 <= i < qlength t -> qlength t - i <= Z.of_nat fuel ->
    (forall j, i <= j < qlength t -> at_ t j <> Some squote) ->
    squoteLoop fuel t i cnt = Ok (qlength t - 1, cnt + (qlength t - i)).
Proof.
  induction fuel as [|n IH]; intros i cnt Hi Hf Hno; [lia|].
  cbn [squoteLoop].
  destruct (Z.ltb_spec i (qlength t)); [|lia].
  destruct (at_in_range t i) as [c Ec]; [lia|]. rewrite Ec.
  destruct (qchar_eqb c squote) eqn:Eq.
  - apply qchar_eqb_eq in Eq. subst c. exfalso. apply (Hno i); [lia|exact Ec].
  - destruct (Z.leb_spec (qlength t) (i + 1)).
    + do 2 f_equal; lia.
    + rewrite (IH (i + 1) (cnt + 1)); [do 2 f_equal; lia|lia|lia|].
      intros j Hj. apply Hno. lia.
Qed.

(** A string in single quotes with at least two characters after its opening
    quote.  When it is closed on the line it gets one span from the opening
    to the closing quote, both included, and the scan ends when at most one
    character follows the closing quote and goes on at the second character
    after it in any other case.  When it is not closed it gets one span from
    the opening quote to the end of the line, and the scan ends. *)
Theorem scanner_single_quotes (fuel : nat) (t : QString) (p : Z)
        (f : QTextCharFormat) (out : list Span) :
  at_ t p = Some squote ->
  p + 2 < qlength t ->
  let f' := setForeground f darkGreen in
  (forall q, p < q -> at_ t q = Some squote ->
             (forall j, p < j < q -> at_ t j <> Some squote) ->
             whileNotLetter (S fuel) t p f out =
             if qlength t <=? q + 2
             then Ok (Returned (emit out p (q - p + 1) f'))
             else whileNotLetter fuel t (q + 2) f' (emit out p (q - p + 1) f')) /\
  ((forall j, p < j < qlength t -> at_ t j <> Some squote) ->
   whileNotLetter (S fuel) t p f out =
   Ok (Returned (emit out p (qlength t - p) f'))).
Proof.
  intros Hp Hlen f'. subst f'.
  pose proof (at_Some_range _ _ _ Hp) as Hpr.
  destruct squote_not_special as (L & S & N & D & Q).
  split.
  - intros q Hpq Hq Hno. pose proof (at_Some_range _ _ _ Hq) as Hqr.
    cbn [whileNotLetter]. cbv zeta. rewrite Hp, L, S, N, D, Q.
    destruct (Z.leb_spec (qlength t) (p + 1 + 1)); [lia|].
    rewrite (squoteLoop_closed (length t) t q (p + 1) 1);
      [|lia|unfold qlength in *; lia|exact Hq|intros j Hj; apply Hno; lia].
    replace (1 + (q - (p + 1)) + 1) with (q - p + 1) by lia.
    replace (q + 1 + 1) with (q + 2) by lia. reflexivity.
  - intros Hno.
    cbn [whileNotLetter]. cbv zeta. rewrite Hp, L, S, N, D, Q.
    destruct (Z.leb_spec (qlength t) (p + 1 + 1)); [lia|].
    rewrite (squoteLoop_open (length t) t (p + 1) 1);
      [|lia|unfold qlength in *; lia|intros j Hj; apply Hno; lia].
    destruct (Z.leb_spec (qlength t) (qlength t - 1 + 1)); [|lia].
    do 3 f_equal. lia.
Qed.

(** [scanner_single_quotes] at the quote of [c = 'a'; int], which is closed
    two characters on: one span over the three characters of the literal,
    and the scan goes on to the letter at offset 9; and at the quote of
    [c = 'ab;], which is not closed: one span to the end of the line. *)
Lemma scanner_single_quotes_witness :
  whileNotLetter 13 quotedChar 4 emptyFormat [] =
    Ok (AtLetter 9 (setForeground emptyFormat darkGreen)
                 [mkSpan 4 3 (setForeground emptyFormat darkGreen)]) /\
  whileNotLetter 1 openQuote 4 emptyFormat [] =
    Ok (Returned [mkSpan 4 4 (setForeground emptyFormat darkGreen)]).
Proof.
  split.
  - destruct (scanner_single_quotes 12 quotedChar 4 emptyFormat [])
      as [H _]; [reflexivity|vm_compute; reflexivity|].
    rewrite (H 6); [reflexivity|lia|reflexivity|].
    intros j Hj. assert (E : j = 5) by lia. subst j. discriminate.
  - destruct (scanner_single_quotes 0 openQuote 4 emptyFormat [])
      as [_ H]; [reflexivity|vm_compute; reflexivity|].
    apply H. intros j Hj. change (qlength openQuote) with 8 in Hj.
    assert (E : j = 5 \/ j = 6 \/ j = 7) by lia.
    destruct E as [->|[->| ->]]; discriminate.
Defined.
